(** * Route alternatives generator: a shallow embedding of
      [generate_alternatives.py] and the properties of its analysis core.

    Python [float]s are read as real numbers ([R]); Python [int]s as [Z].
    Exceptions are explicit: every fallible operation returns a [result].
    List indexing follows Python (negative indices count from the end,
    anything else out of range raises [IndexError]). *)

From Stdlib Require Import String DecimalString.
From Stdlib Require Import Reals ZArith List Bool Lia Lra Psatz.
From Stdlib Require Import Permutation.
Import ListNotations.

Open Scope Z_scope.

(** ** Python runtime layer *)

Module Py.

Inductive exn : Set :=
| IndexError
| ValueError
| ZeroDivisionError
| OutOfFuel.   (* not a Python exception: a loop of the model ran dry *)

Inductive result (A : Type) : Type :=
| Ok (a : A)
| Raise (e : exn).
Arguments Ok {A} a.
Arguments Raise {A} e.

Definition bind {A B} (c : result A) (k : A -> result B) : result B :=
  match c with
  | Ok a => k a
  | Raise e => Raise e
  end.

Definition len {A} (l : list A) : Z := Z.of_nat (length l).

(** [l[i]] *)
Definition get {A} (l : list A) (i : Z) : result A :=
  let k := if i <? 0 then i + len l else i in
  if (0 <=? k) && (k <? len l) then
    match nth_error l (Z.to_nat k) with
    | Some a => Ok a
    | None => Raise IndexError
    end
  else Raise IndexError.

Fixpoint update {A} (l : list A) (k : nat) (v : A) : list A :=
  match l, k with
  | [], _ => []
  | _ :: tl, O => v :: tl
  | a :: tl, S k' => a :: update tl k' v
  end.

(** [l[i] = v] *)
Definition set {A} (l : list A) (i : Z) (v : A) : result (list A) :=
  let k := if i <? 0 then i + len l else i in
  if (0 <=? k) && (k <? len l) then Ok (update l (Z.to_nat k) v)
  else Raise IndexError.

(** [l[a:b]]: bounds are wrapped when negative, then clamped. *)
Definition slice_bound (n i : Z) : Z :=
  if i <? 0 then Z.max 0 (i + n) else Z.min i n.

Definition slice {A} (l : list A) (a b : Z) : list A :=
  let a' := slice_bound (len l) a in
  let b' := slice_bound (len l) b in
  firstn (Z.to_nat (b' - a')) (skipn (Z.to_nat a') l).

Fixpoint range_from (a step : Z) (n : nat) : list Z :=
  match n with
  | O => []
  | S n' => a :: range_from (a + step) step n'
  end.

(** [range(a, b, step)] for a positive step. *)
Definition range (a b step : Z) : list Z :=
  range_from a step (Z.to_nat ((b - a + step - 1) / step)).

(** [for x in l: s = body(x, s)] *)
Fixpoint for_each {A S} (l : list A) (s : S) (body : A -> S -> result S)
  : result S :=
  match l with
  | [] => Ok s
  | x :: tl => bind (body x s) (fun s' => for_each tl s' body)
  end.

(** [[f(x) for x in l]] *)
Fixpoint map_m {A B} (f : A -> result B) (l : list A) : result (list B) :=
  match l with
  | [] => Ok []
  | x :: tl => bind (f x) (fun y => bind (map_m f tl) (fun ys => Ok (y :: ys)))
  end.

End Py.

Import Py.

Notation "x <- c ;; k" := (Py.bind c (fun x => k))
  (at level 61, c at next level, right associativity).

(** ** Real-number tests and rounding *)

Open Scope R_scope.

Definition Rltb (x y : R) : bool := if Rlt_dec x y then true else false.
Definition Rleb (x y : R) : bool := if Rle_dec x y then true else false.
Definition Reqb (x y : R) : bool := if Req_dec_T x y then true else false.

(** [float("inf")] only ever appears as the start value of a running
    minimum; [None] stands for it. *)
Definition lt_inf (d : R) (best : option R) : bool :=
  match best with
  | None => true
  | Some b => Rltb d b
  end.

(** [math.floor] *)
Definition floor (x : R) : Z := (up x - 1)%Z.

(** [round(x)]: nearest integer, ties to the even one. *)
Definition round (x : R) : Z :=
  let f := floor x in
  let d := x - IZR f in
  if Rltb d (1 / 2) then f
  else if Rltb (1 / 2) d then (f + 1)%Z
  else if Z.even f then f else (f + 1)%Z.

(** [round(x, n)] *)
Definition round_to (x : R) (n : nat) : R :=
  IZR (round (x * 10 ^ n)) / 10 ^ n.

(** ** Data structures *)

Record RoutePoint : Type := mkRoutePoint {
  lat : R;
  lng : R;
  alt : R;
  t : Z;        (* ms from start *)
  index : Z
}.

(** ** Geodesy *)

Definition radians (x : R) : R := x * (PI / 180).

Definition hav_a (lat1 lon1 lat2 lon2 : R) : R :=
  let dlat := radians (lat2 - lat1) in
  let dlon := radians (lon2 - lon1) in
  sin (dlat / 2) ^ 2 +
  cos (radians lat1) * cos (radians lat2) * sin (dlon / 2) ^ 2.

(** Distance in km between two points.  [math.sqrt] and [math.asin] raise
    outside their domains; over the reals [hav_a] always lies in [0, 1]
    (lemma [hav_a_domain]), so neither can. *)
Definition haversine (lat1 lon1 lat2 lon2 : R) : R :=
  let R0 := 6371 in
  R0 * 2 * asin (sqrt (hav_a lat1 lon1 lat2 lon2)).

(** Body of the loop of [precompute_cum_km]. *)
Definition cum_step (points : list RoutePoint) (i : Z) (cum : list R)
  : result (list R) :=
  prev <- get cum (i - 1) ;;
  p <- get points (i - 1) ;;
  q <- get points i ;;
  set cum i (prev + haversine (lat p) (lng p) (lat q) (lng q)).

Definition precompute_cum_km (points : list RoutePoint) : result (list R) :=
  let cum := repeat 0 (length points) in
  for_each (range 1 (len points) 1) cum (cum_step points).

(** ** Built-ins over lists of numbers *)

(** [max(l, key=key)]: the first element whose key is greatest. *)
Fixpoint max_loop {A} (key : A -> result R) (l : list A) (best : A) (kbest : R)
  : result A :=
  match l with
  | [] => Ok best
  | y :: tl =>
      ky <- key y ;;
      if Rltb kbest ky then max_loop key tl y ky
      else max_loop key tl best kbest
  end.

Definition max_by {A} (key : A -> result R) (l : list A) : result A :=
  match l with
  | [] => Raise ValueError
  | x :: tl => kx <- key x ;; max_loop key tl x kx
  end.

(** [min(l)] and [max(l)] *)
Fixpoint min_loop (l : list R) (best : R) : R :=
  match l with
  | [] => best
  | y :: tl => if Rltb y best then min_loop tl y else min_loop tl best
  end.

Definition py_min (l : list R) : result R :=
  match l with
  | [] => Raise ValueError
  | x :: tl => Ok (min_loop tl x)
  end.

Definition py_max (l : list R) : result R := max_by (fun x => Ok x) l.

(** [sorted(l, key=key)] for integer keys: stable. *)
Fixpoint insert_by {A} (key : A -> Z) (x : A) (l : list A) : list A :=
  match l with
  | [] => [x]
  | y :: tl => if (key x <=? key y)%Z then x :: y :: tl
               else y :: insert_by key x tl
  end.

Fixpoint sorted_by {A} (key : A -> Z) (l : list A) : list A :=
  match l with
  | [] => []
  | x :: tl => insert_by key x (sorted_by key tl)
  end.

(** [f"{x:.nf}"] *)
Definition dec (z : Z) : string :=
  DecimalString.NilZero.string_of_uint (N.to_uint (Z.to_N z)).

Fixpoint zero_pad (fuel width : nat) (s : string) : string :=
  match fuel with
  | O => s
  | S fuel' => if (String.length s <? width)%nat
               then zero_pad fuel' width ("0" ++ s)%string else s
  end.

Definition format_f (n : nat) (x : R) : string :=
  let m := round (Rabs x * 10 ^ n) in
  let sign := if Rltb x 0 then "-"%string else ""%string in
  let whole := dec (m / 10 ^ Z.of_nat n) in
  match n with
  | O => (sign ++ whole)%string
  | _ => (sign ++ whole ++ "." ++
          zero_pad n n (dec (m mod 10 ^ Z.of_nat n)))%string
  end.

(** ** Scenarios and segment annotations *)

Record AlternativeScenario : Type := mkScenario {
  query_value : string;
  label : string;
  diverge_index : Z;
  rejoin_index : Z;
  avoid_features : list string;
  preference : string;
  ors_profile : string;
  description : string;
  extra_waypoints : list (R * R)
}.

(** One entry of [named_sectors] / [gravel_sectors].  The two index keys
    are read with [s["..."]]; [name] and [distance_m] with [s.get]. *)
Record Sector : Type := mkSector {
  from_index : Z;
  to_index : Z;
  name : option string;
  distance_m : option R
}.

(** [segments.json]: both keys are read with [.get(key, [])]. *)
Record Segments : Type := mkSegments {
  named_sectors : option (list Sector);
  gravel_sectors : option (list Sector)
}.

Definition get_or {A} (o : option A) (d : A) : A :=
  match o with
  | Some a => a
  | None => d
  end.

(** ** Feature detectors *)

Definition Climb : Type := (Z * Z * R)%type.

(** Inner [while j < len(points) - 1] of [find_climb_segments]. *)
Fixpoint climb_run (fuel : nat) (points : list RoutePoint) (j : Z) (gain : R)
  : result (Z * R) :=
  match fuel with
  | O => Raise OutOfFuel
  | S fuel' =>
      if (j <? len points - 1)%Z then
        q <- get points (j + 1) ;;
        p <- get points j ;;
        let delta := alt q - alt p in
        if Rltb 0 delta then climb_run fuel' points (j + 1) (gain + delta)
        else if Rltb 10 (Rabs delta) then Ok (j, gain)
        else climb_run fuel' points (j + 1) gain
      else Ok (j, gain)
  end.

(** Outer [while i < len(points) - window]. *)
Fixpoint climb_scan (fuel : nat) (points : list RoutePoint) (min_gain_m : R)
  (window : Z) (i : Z) (climbs : list Climb) : result (list Climb) :=
  match fuel with
  | O => Raise OutOfFuel
  | S fuel' =>
      if (i <? len points - window)%Z then
        r <- climb_run (S (length points)) points i 0 ;;
        let '(j, gain) := r in
        if Rleb min_gain_m gain && (window <=? j - i)%Z then
          climb_scan fuel' points min_gain_m window (j + 1)
                     (climbs ++ [(i, j, gain)])
        else climb_scan fuel' points min_gain_m window (i + 1) climbs
      else Ok climbs
  end.

Definition find_climb_segments (points : list RoutePoint) (min_gain_m : R)
  (window : Z) : result (list Climb) :=
  climb_scan (S (Z.to_nat (len points - window))) points min_gain_m window 0 [].

Definition find_gravel_sectors (segments : Segments) : list Sector :=
  let named := get_or (named_sectors segments) [] in
  let gravel := get_or (gravel_sectors segments) [] in
  sorted_by from_index (named ++ gravel).

(** ** Scenario selection: [pick_scenarios], block by block *)

Open Scope string_scope.

(** 1. FLATTER: before the biggest climb. *)
Definition flatter_block (climbs : list Climb) (total_points : Z)
  : result (list AlternativeScenario) :=
  match climbs with
  | [] => Ok []
  | _ =>
      biggest <- max_by (fun c : Climb => Ok (snd c)) climbs ;;
      let '(c0, c1, c2) := biggest in
      let diverge := Z.max 0 (c0 - 200) in
      let rejoin := Z.min (total_points - 1) (c1 + 200) in
      Ok [ {| query_value := "flatter";
              label := "Valley bypass";
              diverge_index := diverge;
              rejoin_index := rejoin;
              avoid_features := [];
              preference := "recommended";
              ors_profile := "cycling-regular";
              description :=
                "Avoids the biggest climb (" ++ format_f 0 c2 ++ "m gain). " ++
                "Routes through the valley on lower-gradient roads.";
              extra_waypoints := [] |} ]
  end.

(** 2. SHORTER: the search for a pair of close points in the middle third.
    The loop state is [(best_dist, best_shortcut)]. *)
Definition shortcut_search (points : list RoutePoint) (mid_start mid_end : Z)
  : result (option R * option (Z * Z)) :=
  let step := 100%Z in
  for_each (range mid_start mid_end step) (None, None) (fun i st =>
    for_each (range (i + 400) (Z.min (i + 1000) mid_end) step) st (fun j st =>
      pi <- get points i ;;
      pj <- get points j ;;
      let d := haversine (lat pi) (lng pi) (lat pj) (lng pj) in
      if lt_inf d (fst st) && Rltb d 3 then Ok (Some d, Some (i, j))
      else Ok st)).

Definition shorter_block (points : list RoutePoint) (total_points : Z)
  : result (list AlternativeScenario) :=
  let mid_start := (total_points / 3)%Z in
  let mid_end := (2 * total_points / 3)%Z in
  st <- shortcut_search points mid_start mid_end ;;
  match snd st with
  | Some (i, j) =>
      Ok [ {| query_value := "shorter";
              label := "Direct shortcut";
              diverge_index := i;
              rejoin_index := j;
              avoid_features := [];
              preference := "shortest";
              ors_profile := "cycling-regular";
              description :=
                "Cuts across the loop where the route doubles back. " ++
                "Saves distance at the cost of skipping mid-route sectors.";
              extra_waypoints := [] |} ]
  | None =>
      Ok [ {| query_value := "shorter";
              label := "Direct shortcut";
              diverge_index := mid_start;
              rejoin_index := mid_end;
              avoid_features := [];
              preference := "shortest";
              ors_profile := "cycling-regular";
              description :=
                "Takes the most direct cycling route between these points.";
              extra_waypoints := [] |} ]
  end.

(** 3. PAVED: before the longest gravel sector. *)
Definition sector_length (s : Sector) : R := get_or (distance_m s) 0%R.

Definition paved_block (gravel_sectors : list Sector) (total_points : Z)
  : result (list AlternativeScenario) :=
  match gravel_sectors with
  | [] => Ok []
  | _ =>
      longest_gravel <- max_by (fun s => Ok (sector_length s)) gravel_sectors ;;
      let diverge := Z.max 0 (from_index longest_gravel - 150) in
      let rejoin := Z.min (total_points - 1) (to_index longest_gravel + 150) in
      Ok [ {| query_value := "paved";
              label := "Paved bypass";
              diverge_index := diverge;
              rejoin_index := rejoin;
              avoid_features := [];
              preference := "recommended";
              ors_profile := "cycling-road";
              description :=
                "Avoids the " ++ get_or (name longest_gravel) "gravel" ++
                " sector " ++
                "(" ++ format_f 1 (sector_length longest_gravel / 1000)%R ++
                "km unpaved). " ++
                "Uses parallel paved roads.";
              extra_waypoints := [] |} ]
  end.

(** 4. SCENIC: the window of 300 points in the first third with the least
    spread of altitude.  The loop state is [(flattest_start, flattest_var)]. *)
Definition flattest_search (points : list RoutePoint) (first_third_end : Z)
  (window : Z) : result (Z * option R) :=
  for_each (range 0 (first_third_end - window) 50) (0%Z, None) (fun i st =>
    alts <- map_m (fun j => p <- get points j ;; Ok (alt p))
                  (range i (i + window) 1) ;;
    hi <- py_max alts ;;
    lo <- py_min alts ;;
    let var := (hi - lo)%R in
    if lt_inf var (snd st) then Ok (i, Some var) else Ok st).

Definition scenic_block (points : list RoutePoint) (total_points : Z)
  : result (list AlternativeScenario) :=
  let first_third_end := (total_points / 3)%Z in
  let window := 300%Z in
  st <- flattest_search points first_third_end window ;;
  let flattest_start := fst st in
  Ok [ {| query_value := "scenic";
          label := "Hilltop village detour";
          diverge_index := Z.max 50 flattest_start;
          rejoin_index := Z.min (total_points - 1) (flattest_start + window);
          avoid_features := [];
          preference := "recommended";
          ors_profile := "cycling-regular";
          description :=
            "Detours through hilltop villages and viewpoints " ++
            "instead of the main road section.";
          extra_waypoints := [] |} ].

(** 5. SHELTERED: around the highest point. *)
Definition sheltered_block (points : list RoutePoint) (total_points : Z)
  : result (list AlternativeScenario) :=
  highest_idx <- max_by (fun i => p <- get points i ;; Ok (alt p))
                        (range 0 (len points) 1) ;;
  let diverge := Z.max 0 (highest_idx - 300) in
  let rejoin := Z.min (total_points - 1) (highest_idx + 300) in
  Ok [ {| query_value := "sheltered";
          label := "Valley shelter route";
          diverge_index := diverge;
          rejoin_index := rejoin;
          avoid_features := [];
          preference := "recommended";
          ors_profile := "cycling-regular";
          description :=
            "Routes through the lower valley to avoid the exposed " ++
            "ridge section. Less wind, more tree cover.";
          extra_waypoints := [] |} ].

Definition pick_scenarios (points : list RoutePoint) (segments : Segments)
  : result (list AlternativeScenario) :=
  let gravel_sectors := find_gravel_sectors segments in
  climbs <- find_climb_segments points 100 50 ;;
  let total_points := len points in
  s1 <- flatter_block climbs total_points ;;
  s2 <- shorter_block points total_points ;;
  s3 <- paved_block gravel_sectors total_points ;;
  s4 <- scenic_block points total_points ;;
  s5 <- sheltered_block points total_points ;;
  Ok (s1 ++ s2 ++ s3 ++ s4 ++ s5)%list.

Close Scope string_scope.

(** ** Alternative geometry *)

(** An opaque JSON payload (the provider's surface / waytype tables). *)
#[local] Set Warnings "-register-all".
Inductive json : Type :=
| JNull
| JBool (b : bool)
| JInt (z : Z)
| JFloat (r : R)
| JStr (s : string)
| JList (l : list json)
| JDict (d : list (string * json)).

(** Python truth value of a JSON value. *)
Definition truthy (j : json) : bool :=
  match j with
  | JNull => false
  | JBool b => b
  | JInt z => negb (z =? 0)%Z
  | JFloat r => negb (Reqb r 0)
  | JStr s => negb (String.eqb s "")
  | JList l => match l with [] => false | _ => true end
  | JDict d => match d with [] => false | _ => true end
  end.

(** [{"lat": ..., "lng": ..., "alt": ...}] *)
Module Coord.
Record t : Type := mk { lat : R; lng : R; alt : R }.
End Coord.

(** The [route_data] dict.  [coordinates] and [distance_m] are read with
    [route_data["..."]]; every other key with [.get], so it may be absent. *)
Module RouteData.
Record t : Type := mk {
  coordinates : list Coord.t;
  distance_m : Z;
  duration_s : option Z;
  ascent_m : option Z;
  descent_m : option Z;
  mock : option bool;
  surface_info : option json;
  waytype_info : option json
}.
End RouteData.

(** [x / y] on floats *)
Definition py_div (x y : R) : result R :=
  if Reqb y 0 then Raise ZeroDivisionError else Ok (x / y).

(** [sum(f(i) for i in l)] *)
Fixpoint sum_m {A} (f : A -> result R) (l : list A) (acc : R) : result R :=
  match l with
  | [] => Ok acc
  | x :: tl => y <- f x ;; sum_m f tl (acc + y)
  end.

(** [sum(haversine(seg[i], seg[i + 1]) for i in range(len(seg) - 1))] *)
Definition segment_distance (seg : list RoutePoint) : result R :=
  sum_m (fun i =>
           p <- get seg i ;;
           q <- get seg (i + 1) ;;
           Ok (haversine (lat p) (lng p) (lat q) (lng q)))
        (range 0 (len seg - 1) 1) 0.

(** [sum(max(0, seg[i + 1].alt - seg[i].alt) for i in range(len(seg) - 1))] *)
Definition segment_ascent (seg : list RoutePoint) : result R :=
  sum_m (fun i =>
           q <- get seg (i + 1) ;;
           p <- get seg i ;;
           Ok (Rmax 0 (alt q - alt p)))
        (range 0 (len seg - 1) 1) 0.

(** [dict.get(key, default)] on a literal dict. *)
Fixpoint dict_get {V} (d : list (string * V)) (key : string) (default : V) : V :=
  match d with
  | [] => default
  | (k, v) :: tl => if String.eqb k key then v else dict_get tl key default
  end.

Definition multiplier : list (string * R) :=
  [ ("shorter"%string, 7 / 10); ("flatter"%string, 115 / 100);
    ("paved"%string, 105 / 100); ("scenic"%string, 12 / 10);
    ("sheltered"%string, 11 / 10) ].

(** One point of the arc, for the loop index [i]. *)
Definition arc_point (scenario : AlternativeScenario) (diverge rejoin : RoutePoint)
  (perp_lat perp_lng offset_km : R) (n_points i : Z) : Coord.t :=
  let frac := IZR i / IZR n_points in
  let lat' := lat diverge + frac * (lat rejoin - lat diverge) +
              sin (frac * PI) * perp_lat * offset_km in
  let lng' := lng diverge + frac * (lng rejoin - lng diverge) +
              sin (frac * PI) * perp_lng * offset_km in
  let alt' := alt diverge + frac * (alt rejoin - alt diverge) in
  let alt'' :=
    if existsb (String.eqb (query_value scenario))
               ["flatter"%string; "sheltered"%string]
    then
      let mid_alt := (alt diverge + alt rejoin) / 2 in
      mid_alt + (alt' - mid_alt) * (3 / 10)
    else alt' in
  {| Coord.lat := round_to lat' 6;
     Coord.lng := round_to lng' 6;
     Coord.alt := round_to alt'' 1 |}.

Definition generate_mock_alternative (points : list RoutePoint)
  (scenario : AlternativeScenario) : result RouteData.t :=
  diverge <- get points (diverge_index scenario) ;;
  rejoin <- get points (rejoin_index scenario) ;;
  let dlat := lat rejoin - lat diverge in
  let dlng := lng rejoin - lng diverge in
  let length := sqrt (dlat ^ 2 + dlng ^ 2) in
  if Reqb length 0 then
    Ok {| RouteData.coordinates := [];
          RouteData.distance_m := 0;
          RouteData.duration_s := None;
          RouteData.ascent_m := None;
          RouteData.descent_m := None;
          RouteData.mock := Some true;
          RouteData.surface_info := None;
          RouteData.waytype_info := None |}
  else
    perp_lat <- py_div (- dlng) length ;;
    perp_lng <- py_div dlat length ;;
    let offset_km :=
      if String.eqb (query_value scenario) "shorter" then 5 / 1000
      else 15 / 1000 in
    let n_points := 30%Z in
    let coords :=
      map (arc_point scenario diverge rejoin perp_lat perp_lng offset_km n_points)
          (range 0 (n_points + 1) 1) in
    let original_segment :=
      slice points (diverge_index scenario) (rejoin_index scenario + 1) in
    orig_distance <- segment_distance original_segment ;;
    let alt_distance :=
      orig_distance * dict_get multiplier (query_value scenario) 1 in
    Ok {| RouteData.coordinates := coords;
          RouteData.distance_m := round (alt_distance * 1000);
          RouteData.duration_s := Some (round (alt_distance * 1000 / (55 / 10)));
          RouteData.ascent_m := Some 0%Z;
          RouteData.descent_m := Some 0%Z;
          RouteData.mock := Some true;
          RouteData.surface_info := None;
          RouteData.waytype_info := None |}.

(** ** Output records: one entry of [route-alternatives.json] *)

Module Endpoint.
Record t : Type := mk { index : Z; lat : R; lng : R; km_from_start : R }.
End Endpoint.

Module OriginalSegment.
Record t : Type := mk { distance_m : Z; ascent_m : Z }.
End OriginalSegment.

Module Alternative.
Record t : Type := mk {
  coordinates : list Coord.t;
  distance_m : Z;
  duration_s : Z;
  ascent_m : Z;
  descent_m : Z;
  is_mock : bool;
  surface_info : option json;   (* key present only when truthy *)
  waytype_info : option json
}.
End Alternative.

Module Comparison.
Record t : Type := mk {
  distance_delta_m : Z;
  ascent_delta_m : Z;
  time_delta_s : Z
}.
End Comparison.

Module Entry.
Record t : Type := mk {
  query_value : string;
  label : string;
  description : string;
  diverge : Endpoint.t;
  rejoin : Endpoint.t;
  original_segment : OriginalSegment.t;
  alternative : Alternative.t;
  comparison : Comparison.t
}.
End Entry.

(** [if route_data.get(key): alt_entry[key] = route_data[key]] *)
Definition keep_truthy (o : option json) : option json :=
  match o with
  | Some j => if truthy j then Some j else None
  | None => None
  end.

(** ** Comparison builder *)

Definition build_alternative_entry (scenario : AlternativeScenario)
  (route_data : RouteData.t) (points : list RoutePoint) (cum_km : list R)
  : result Entry.t :=
  diverge <- get points (diverge_index scenario) ;;
  rejoin <- get points (rejoin_index scenario) ;;
  let orig_segment :=
    slice points (diverge_index scenario) (rejoin_index scenario + 1) in
  orig_distance <- segment_distance orig_segment ;;
  orig_ascent <- segment_ascent orig_segment ;;
  seg_last <- get orig_segment (-1) ;;
  seg_first <- get orig_segment 0 ;;
  let orig_duration_s := ((t seg_last - t seg_first) / 1000)%Z in
  km_diverge <- get cum_km (diverge_index scenario) ;;
  km_rejoin <- get cum_km (rejoin_index scenario) ;;
  let alt_entry :=
    {| Alternative.coordinates := RouteData.coordinates route_data;
       Alternative.distance_m := RouteData.distance_m route_data;
       Alternative.duration_s := get_or (RouteData.duration_s route_data) 0%Z;
       Alternative.ascent_m := get_or (RouteData.ascent_m route_data) 0%Z;
       Alternative.descent_m := get_or (RouteData.descent_m route_data) 0%Z;
       Alternative.is_mock := get_or (RouteData.mock route_data) false;
       Alternative.surface_info :=
         keep_truthy (RouteData.surface_info route_data);
       Alternative.waytype_info :=
         keep_truthy (RouteData.waytype_info route_data) |} in
  Ok {| Entry.query_value := query_value scenario;
        Entry.label := label scenario;
        Entry.description := description scenario;
        Entry.diverge :=
          {| Endpoint.index := diverge_index scenario;
             Endpoint.lat := lat diverge;
             Endpoint.lng := lng diverge;
             Endpoint.km_from_start := round_to km_diverge 1 |};
        Entry.rejoin :=
          {| Endpoint.index := rejoin_index scenario;
             Endpoint.lat := lat rejoin;
             Endpoint.lng := lng rejoin;
             Endpoint.km_from_start := round_to km_rejoin 1 |};
        Entry.original_segment :=
          {| OriginalSegment.distance_m := round (orig_distance * 1000);
             OriginalSegment.ascent_m := round orig_ascent |};
        Entry.alternative := alt_entry;
        Entry.comparison :=
          {| Comparison.distance_delta_m :=
               (RouteData.distance_m route_data - round (orig_distance * 1000))%Z;
             Comparison.ascent_delta_m :=
               (get_or (RouteData.ascent_m route_data) 0 - round orig_ascent)%Z;
             Comparison.time_delta_s :=
               (get_or (RouteData.duration_s route_data) 0 - orig_duration_s)%Z
          |} |}.

(** ** The batch: the loop of [main] over the scenarios *)

(** The directions provider is an external collaborator: [None] is the
    [--mock-only] run, [Some ors] a configured provider whose answer may be
    absent. *)
Definition Provider : Type :=
  RoutePoint -> RoutePoint -> AlternativeScenario -> option RouteData.t.

Definition process_scenario (provider : option Provider)
  (points : list RoutePoint) (cum_km : list R) (scenario : AlternativeScenario)
  : result Entry.t :=
  diverge_pt <- get points (diverge_index scenario) ;;
  rejoin_pt <- get points (rejoin_index scenario) ;;
  route_data <-
    match provider with
    | None => generate_mock_alternative points scenario
    | Some call_ors =>
        match call_ors diverge_pt rejoin_pt scenario with
        | None => generate_mock_alternative points scenario
        | Some route_data => Ok route_data
        end
    end ;;
  build_alternative_entry scenario route_data points cum_km.

Definition generate_alternatives (provider : option Provider)
  (points : list RoutePoint) (segments : Segments) : result (list Entry.t) :=
  cum_km <- precompute_cum_km points ;;
  _ <- get cum_km (-1) ;;                      (* printed: total km *)
  scenarios <- pick_scenarios points segments ;;
  _ <- for_each scenarios tt (fun s _ =>       (* printed: km of each bracket *)
         _ <- get cum_km (diverge_index s) ;;
         _ <- get cum_km (rejoin_index s) ;;
         Ok tt) ;;
  map_m (process_scenario provider points cum_km) scenarios.

(** ** Loop invariants used by the proofs *)

(** After the iterations [1 .. k-1] of [precompute_cum_km]. *)
Definition cum_inv (points : list RoutePoint) (k : nat) (cum : list R) : Prop :=
  length cum = length points /\
  nth 0 cum 0 = 0 /\
  forall j : nat, (j + 1 < k)%nat -> nth j cum 0 <= nth (S j) cum 0.

(** A climb as [find_climb_segments] accepts it: the run that starts at
    [i] ends at [j] with [gain], and passes both thresholds. *)
Definition qualifying_run (points : list RoutePoint) (min_gain_m : R)
  (window : Z) (c : Climb) : Prop :=
  let '(i, j, gain) := c in
  (0 <= i)%Z /\
  climb_run (S (length points)) points i 0 = Ok (j, gain) /\
  min_gain_m <= gain /\ (window <= j - i)%Z.

(** Altitudes that never go down from one point to the next. *)
Fixpoint nondecreasing (l : list R) : Prop :=
  match l with
  | a :: tl =>
      match tl with
      | b :: _ => a <= b /\ nondecreasing tl
      | [] => True
      end
  | [] => True
  end.

(** The point at a valid index, and the great-circle distance (km)
    between the points at two indices. *)
Definition point_at (points : list RoutePoint) (i : Z) : RoutePoint :=
  nth (Z.to_nat i) points (mkRoutePoint 0 0 0 0 0).

Definition point_dist (points : list RoutePoint) (ij : Z * Z) : R :=
  let p := point_at points (fst ij) in
  let q := point_at points (snd ij) in
  haversine (lat p) (lng p) (lat q) (lng q).

(** The index pairs the shortcut search visits, in the order of its two
    loops. *)
Definition shortcut_pairs (mid_start mid_end : Z) : list (Z * Z) :=
  flat_map (fun i => map (pair i) (range (i + 400) (Z.min (i + 1000) mid_end) 100))
           (range mid_start mid_end 100).

(** State of the shortcut search after the pairs [done]. *)
Definition shortcut_inv (points : list RoutePoint) (done : list (Z * Z))
  (st : option R * option (Z * Z)) : Prop :=
  match st with
  | (None, None) => forall q, In q done -> 3 <= point_dist points q
  | (Some d, Some p) =>
      In p done /\ d = point_dist points p /\ d < 3 /\
      forall q, In q done -> d <= point_dist points q
  | _ => False
  end.

(** A scenario named [q] that diverges at [d] and rejoins at [r]. *)
Definition brackets (s : AlternativeScenario) (q : string) (d r : Z) : Prop :=
  query_value s = q /\ diverge_index s = d /\ rejoin_index s = r.

(** The scenario names [pick_scenarios] can produce, in its order. *)
Definition non_empty {A} (l : list A) : bool :=
  match l with
  | [] => false
  | _ => true
  end.

Definition catalog (has_climb has_sector : bool) : list string :=
  ((if has_climb then ["flatter"%string] else []) ++
   ["shorter"%string] ++
   (if has_sector then ["paved"%string] else []) ++
   ["scenic"%string; "sheltered"%string])%list.

(** The invariant the data model asks of a scenario on a route of
    [total] points. *)
Definition valid_bracket (total : Z) (s : AlternativeScenario) : Prop :=
  (0 <= diverge_index s /\ diverge_index s < rejoin_index s /\
   rejoin_index s <= total - 1)%Z.

(** A sector that is a sub-range of a route of [total] points. *)
Definition sector_in_route (total : Z) (g : Sector) : Prop :=
  (0 <= from_index g /\ from_index g <= to_index g /\ to_index g <= total - 1)%Z.


(** ** Sample inputs *)

(** A point on level ground, one second after the previous one. *)
Definition level_point (k : Z) : RoutePoint :=
  {| lat := 43; lng := 11; alt := 300; t := (1000 * k)%Z; index := k |}.

Definition short_route : list RoutePoint := map level_point (range 0 3 1).

Definition level_route : list RoutePoint := map level_point (range 0 60 1).

Definition no_segments : Segments :=
  {| named_sectors := None; gravel_sectors := None |}.

(** One gravel sector annotated past the end of a 60-point route. *)
Definition far_segments : Segments :=
  {| named_sectors := None;
     gravel_sectors :=
       Some [ {| from_index := 500; to_index := 600;
                 name := Some "Monte Sante Marie"%string;
                 distance_m := Some 11500 |} ] |}.

(** ** Closed forms of the segment statistics *)

(** Sum of [g p q] over the consecutive pairs of a segment. *)
Fixpoint pair_sum (g : RoutePoint -> RoutePoint -> R) (seg : list RoutePoint)
  : R :=
  match seg with
  | p :: tl =>
      match tl with
      | q :: _ => g p q + pair_sum g tl
      | [] => 0
      end
  | [] => 0
  end.

(** Length of a segment in km: consecutive great-circle distances. *)
Definition path_km (seg : list RoutePoint) : R :=
  pair_sum (fun p q => haversine (lat p) (lng p) (lat q) (lng q)) seg.

(** Ascent of a segment: the positive altitude steps only. *)
Definition positive_gain (seg : list RoutePoint) : R :=
  pair_sum (fun p q => Rmax 0 (alt q - alt p)) seg.

(** The original segment a scenario replaces. *)
Definition original_segment_of (points : list RoutePoint)
  (scenario : AlternativeScenario) : list RoutePoint :=
  slice points (diverge_index scenario) (rejoin_index scenario + 1).

(** What the synthesizer returns for coinciding end points. *)
Definition degenerate_route_data : RouteData.t :=
  {| RouteData.coordinates := [];
     RouteData.distance_m := 0;
     RouteData.duration_s := None;
     RouteData.ascent_m := None;
     RouteData.descent_m := None;
     RouteData.mock := Some true;
     RouteData.surface_info := None;
     RouteData.waytype_info := None |}.




(** A scenario with given name and bracket, and default routing options. *)
Definition sample_scenario (q : string) (d r : Z) : AlternativeScenario :=
  {| query_value := q;
     label := "sample";
     diverge_index := d;
     rejoin_index := r;
     avoid_features := [];
     preference := "recommended";
     ors_profile := "cycling-regular";
     description := "";
     extra_waypoints := [] |}.

(** Two points one degree of latitude and 100 m of altitude apart. *)
Definition slope_pair : list RoutePoint :=
  [ {| lat := 0; lng := 0; alt := 0; t := 0; index := 0 |};
    {| lat := 1; lng := 0; alt := 100; t := 60000; index := 1 |} ].


(** 60 points climbing steadily by 150 m in total. *)
Definition ascent_point (k : Z) : RoutePoint :=
  {| lat := 43; lng := 11; alt := IZR (150 * k) / 59;
     t := (1000 * k)%Z; index := k |}.

Definition ascent_route : list RoutePoint := map ascent_point (range 0 60 1).

(** Two sectors inside a 60-point route; the named one is the longer. *)
Definition gravel_segments : Segments :=
  {| named_sectors :=
       Some [ {| from_index := 30; to_index := 45;
                 name := Some "Monte Sante Marie"%string;
                 distance_m := Some 11500 |} ];
     gravel_sectors :=
       Some [ {| from_index := 5; to_index := 12;
                 name := None;
                 distance_m := Some 2100 |} ] |}.

(** A provider answer for the bracket of [slope_pair]. *)
Definition slope_route_data : RouteData.t :=
  {| RouteData.coordinates :=
       [ {| Coord.lat := 0; Coord.lng := 0; Coord.alt := 0 |};
         {| Coord.lat := 1; Coord.lng := 0; Coord.alt := 100 |} ];
     RouteData.distance_m := 120000;
     RouteData.duration_s := Some 21000%Z;
     RouteData.ascent_m := Some 40%Z;
     RouteData.descent_m := Some 0%Z;
     RouteData.mock := None;
     RouteData.surface_info := None;
     RouteData.waytype_info := None |}.

From Stdlib Require Import Sorted.

(** ** Further vocabulary: the distance table *)

(** After the iterations [1 .. k-1] of [precompute_cum_km], with the values
    the entries hold: entry [j] is the length of the path through the first
    [j + 1] points. *)
Definition cum_exact (points : list RoutePoint) (k : nat) (cum : list R) : Prop :=
  length cum = length points /\
  forall j : nat, (j < k)%nat -> (j < length points)%nat ->
                  nth j cum 0 = path_km (firstn (S j) points).

(** ** Further vocabulary: climbs *)

(** Altitude step from the point at index [k] to the next one. *)
Definition alt_step (points : list RoutePoint) (k : Z) : R :=
  alt (point_at points (k + 1)) - alt (point_at points k).

(** What a run of [find_climb_segments] from [i] to [j] is: its gain is
    the positive ascent of the bracket, no step inside loses more than
    10 m, and it stops at the last point or right before a step that does. *)
Definition is_run (points : list RoutePoint) (i j : Z) (gain : R) : Prop :=
  (i <= j)%Z /\ (j <= Z.max i (len points - 1))%Z /\
  gain = positive_gain (slice points i (j + 1)) /\
  (forall k, (i <= k < j)%Z -> -10 <= alt_step points k) /\
  ((j < len points - 1)%Z -> alt_step points j < -10).

(** Climbs listed in route order, each starting after the previous one
    ended, none before index [i]. *)
Fixpoint climbs_from (i : Z) (climbs : list Climb) : Prop :=
  match climbs with
  | [] => True
  | (a, b, _) :: tl => (i <= a)%Z /\ (a <= b)%Z /\ climbs_from (b + 1) tl
  end.

(** ** Further vocabulary: routing options *)

(** The options the selector attaches to a scenario, by its name. *)
Definition preference_of (q : string) : string :=
  if String.eqb q "shorter" then "shortest"%string else "recommended"%string.

Definition profile_of (q : string) : string :=
  if String.eqb q "paved" then "cycling-road"%string
  else "cycling-regular"%string.

Definition label_of (q : string) : string :=
  dict_get [ ("flatter"%string, "Valley bypass"%string);
             ("shorter"%string, "Direct shortcut"%string);
             ("paved"%string, "Paved bypass"%string);
             ("scenic"%string, "Hilltop village detour"%string);
             ("sheltered"%string, "Valley shelter route"%string) ]
           q ""%string.

Definition routing_by_name (s : AlternativeScenario) : Prop :=
  avoid_features s = [] /\ extra_waypoints s = [] /\
  preference s = preference_of (query_value s) /\
  ors_profile s = profile_of (query_value s) /\
  label s = label_of (query_value s).

(** ** Further vocabulary: the flattest window *)

(** Altitudes of the 300 points from index [i] on. *)
Definition window_alts (points : list RoutePoint) (i : Z) : list R :=
  map (fun j => alt (point_at points j)) (range i (i + 300) 1).

(** Greatest minus least element of a list of numbers. *)
Definition spread (l : list R) : R :=
  match l with
  | x :: tl => fold_left Rmax tl x - fold_left Rmin tl x
  | [] => 0
  end.

Definition window_spread (points : list RoutePoint) (i : Z) : R :=
  spread (window_alts points i).

(** The window starts the flatness search visits on a route whose first
    third ends at [fte]. *)
Definition window_start (fte i : Z) : Prop :=
  (exists k : Z, 0 <= k /\ i = 50 * k)%Z /\ (i + 300 < fte)%Z.

(** State of the flatness search after the window starts [done]. *)
Definition flattest_inv (points : list RoutePoint) (done : list Z)
  (st : Z * option R) : Prop :=
  match snd st with
  | None => done = [] /\ fst st = 0%Z
  | Some v =>
      v = window_spread points (fst st) /\
      exists l1 l2,
        done = (l1 ++ fst st :: l2)%list /\
        (forall i, In i l1 -> v < window_spread points i) /\
        (forall i, In i l2 -> v <= window_spread points i)
  end.

(** ** Further vocabulary: indices *)

(** An index Python accepts on a list of [n] elements: from [-n] to
    [n - 1]. *)
Definition valid_index (n i : Z) : Prop := (- n <= i < n)%Z.

(** ** Loading the route *)

(** One element of the [coordinates] list of [route.json], as parsed. *)
Module RawCoord.
Record t : Type := mk { lat : R; lng : R; alt : R; t_ms : Z }.
End RawCoord.

(** [enumerate(l)], counting from [i]. *)
Fixpoint enumerate_from {A} (i : Z) (l : list A) : list (Z * A) :=
  match l with
  | [] => []
  | x :: tl => (i, x) :: enumerate_from (i + 1) tl
  end.

(** [load_route], from the parsed [coordinates] on: reading the file and
    parsing it are left to the caller. *)
Definition load_route (coords : list RawCoord.t) : list RoutePoint :=
  map (fun ic : Z * RawCoord.t =>
         let (i, c) := ic in
         {| lat := RawCoord.lat c; lng := RawCoord.lng c;
            alt := RawCoord.alt c; t := RawCoord.t_ms c; index := i |})
      (enumerate_from 0 coords).

(** ** The directions provider: [call_ors] *)

Module Ors.

(** What is posted: the URL, the two headers and the JSON payload. *)
Record Request : Type := mkRequest {
  url : string;
  authorization : string;
  content_type : string;
  coordinates : list (list R);      (* [lng, lat] pairs *)
  preference : string;
  geometry : bool;
  format : string;
  elevation : bool;
  instructions : bool;
  extra_info : list string;
  options : option (list string);   (* {"avoid_features": ...}, when set *)
  timeout : Z
}.

(** The parts of the answer the code reads.  [geometry] and [properties]
    are read with [feature["..."]]; every other key with [.get]. *)
Record Summary : Type := mkSummary {
  distance : option R;
  duration : option R
}.

Record Extras : Type := mkExtras {
  surface : option json;
  waytypes : option json
}.

Record Properties : Type := mkProperties {
  summary : option Summary;
  ascent : option R;
  descent : option R;
  extras : option Extras
}.

Record Feature : Type := mkFeature {
  geometry_coordinates : list (list R);   (* [[lng, lat, alt], ...] *)
  properties : Properties
}.

Record Response : Type := mkResponse {
  features : option (list Feature)
}.

End Ors.

(** [requests.post(...)], [raise_for_status] and [resp.json()]: an
    external collaborator.  [None] is any [RequestException]. *)
Definition Transport : Type := Ors.Request -> option Ors.Response.

Definition ORS_BASE : string :=
  "https://api.openrouteservice.org/v2/directions/".

(** The request [call_ors] builds. *)
Definition ors_request (start end_ : RoutePoint)
  (scenario : AlternativeScenario) (api_key : string) : Ors.Request :=
  let coordinates :=
    ([[lng start; lat start]] ++
     map (fun wp : R * R => [snd wp; fst wp]) (extra_waypoints scenario) ++
     [[lng end_; lat end_]])%list in
  {| Ors.url := (ORS_BASE ++ ors_profile scenario)%string;
     Ors.authorization := api_key;
     Ors.content_type := "application/json";
     Ors.coordinates := coordinates;
     Ors.preference := preference scenario;
     Ors.geometry := true;
     Ors.format := "geojson";
     Ors.elevation := true;
     Ors.instructions := false;
     Ors.extra_info := ["surface"%string; "waytypes"%string];
     Ors.options :=
       match avoid_features scenario with
       | [] => None
       | fs => Some fs
       end;
     Ors.timeout := 30 |}.

(** One coordinate of the answer, [c = [lng, lat]] or [[lng, lat, alt]]. *)
Definition ors_coord (c : list R) : result Coord.t :=
  c1 <- get c 1 ;;
  c0 <- get c 0 ;;
  a <- (if (2 <? len c)%Z then c2 <- get c 2 ;; Ok (round_to c2 1)
        else Ok 0) ;;
  Ok {| Coord.lat := round_to c1 6; Coord.lng := round_to c0 6;
        Coord.alt := a |}.

Definition call_ors (post : Transport) (start end_ : RoutePoint)
  (scenario : AlternativeScenario) (api_key : string)
  : result (option RouteData.t) :=
  if String.eqb api_key "" then Ok None
  else
    match post (ors_request start end_ scenario api_key) with
    | None => Ok None                    (* RequestException *)
    | Some data =>
        match Ors.features data with
        | None => Ok None
        | Some [] => Ok None
        | Some (feature :: _) =>
            let properties := Ors.properties feature in
            let summary :=
              get_or (Ors.summary properties) (Ors.mkSummary None None) in
            let extras :=
              get_or (Ors.extras properties) (Ors.mkExtras None None) in
            coords <- map_m ors_coord (Ors.geometry_coordinates feature) ;;
            Ok (Some
              {| RouteData.coordinates := coords;
                 RouteData.distance_m := round (get_or (Ors.distance summary) 0);
                 RouteData.duration_s :=
                   Some (round (get_or (Ors.duration summary) 0));
                 RouteData.ascent_m :=
                   Some (round (get_or (Ors.ascent properties) 0));
                 RouteData.descent_m :=
                   Some (round (get_or (Ors.descent properties) 0));
                 RouteData.mock := None;
                 RouteData.surface_info :=
                   Some (get_or (Ors.surface extras) (JDict []));
                 RouteData.waytype_info :=
                   Some (get_or (Ors.waytypes extras) (JDict [])) |})
        end
    end.

(** ** [main], from the parsed inputs to the output document *)

Module Output.
Record t : Type := mk {
  route_id : string;
  generated_from : string;
  alternatives : list Entry.t
}.
End Output.

(** Body of the loop of [main] over the scenarios. *)
Definition main_step (post : Transport) (api_key : string) (mock_only : bool)
  (points : list RoutePoint) (cum_km : list R) (scenario : AlternativeScenario)
  : result Entry.t :=
  diverge_pt <- get points (diverge_index scenario) ;;
  rejoin_pt <- get points (rejoin_index scenario) ;;
  route_data <-
    (if mock_only then generate_mock_alternative points scenario
     else
       answer <- call_ors post diverge_pt rejoin_pt scenario api_key ;;
       match answer with
       | None => generate_mock_alternative points scenario
       | Some route_data => Ok route_data
       end) ;;
  build_alternative_entry scenario route_data points cum_km.

(** [main]: [api_key] is the [ORS_API_KEY] of the environment,
    [mock_only] the [--mock-only] flag. *)
Definition main (post : Transport) (api_key : string) (mock_only : bool)
  (coords : list RawCoord.t) (segments : Segments) : result Output.t :=
  let mock_only := mock_only || String.eqb api_key "" in
  let points := load_route coords in
  cum_km <- precompute_cum_km points ;;
  _ <- get cum_km (-1) ;;
  scenarios <- pick_scenarios points segments ;;
  _ <- for_each scenarios tt (fun s _ =>
         _ <- get cum_km (diverge_index s) ;;
         _ <- get cum_km (rejoin_index s) ;;
         Ok tt) ;;
  alternatives <- map_m (main_step post api_key mock_only points cum_km)
                        scenarios ;;
  Ok {| Output.route_id := "strade-bianche-granfondo";
        Output.generated_from :=
          if negb mock_only then "OpenRouteService"%string
          else "geometric mock"%string;
        Output.alternatives := alternatives |}.

(** The provider [main] consults, seen as a [Provider]: its answer or,
    failing one, none. *)
Definition ors_provider (post : Transport) (api_key : string) : Provider :=
  fun start end_ scenario =>
    match call_ors post start end_ scenario api_key with
    | Ok answer => answer
    | Raise _ => None
    end.

(** A transport whose answers are well formed: every coordinate of the
    first feature holds at least a longitude and a latitude. *)
Definition well_formed (post : Transport) : Prop :=
  forall request data feature rest,
    post request = Some data ->
    Ors.features data = Some (feature :: rest) ->
    Forall (fun c : list R => (2 <= len c)%Z) (Ors.geometry_coordinates feature).

(** ** Further vocabulary: provider answers and the output document *)

(** A coordinate [[lng, lat]] or [[lng, lat, alt, ...]] of the answer as
    [call_ors] hands it on. *)
Definition normalised (c : list R) : Coord.t :=
  {| Coord.lat := round_to (nth 1 c 0) 6;
     Coord.lng := round_to (nth 0 c 0) 6;
     Coord.alt := if (2 <? len c)%Z then round_to (nth 2 c 0) 1 else 0 |}.

(** The output document around a list of alternatives. *)
Definition output_of (generated_from : string) (r : result (list Entry.t))
  : result Output.t :=
  alternatives <- r ;;
  Ok {| Output.route_id := "strade-bianche-granfondo";
        Output.generated_from := generated_from;
        Output.alternatives := alternatives |}.

(** ** Sample transports and raw coordinates *)

(** A transport that answers every request with the posted coordinates as
    the geometry of its only feature. *)
Definition echo_transport : Transport :=
  fun request =>
    Some {| Ors.features :=
              Some [ {| Ors.geometry_coordinates := Ors.coordinates request;
                        Ors.properties :=
                          Ors.mkProperties None None None None |} ] |}.

(** A transport with one fixed answer of two coordinates, the second
    without altitude. *)
Definition fixed_transport : Transport :=
  fun _ =>
    Some {| Ors.features :=
              Some [ {| Ors.geometry_coordinates := [ [11; 43; 300]; [11; 43] ];
                        Ors.properties :=
                          Ors.mkProperties
                            (Some (Ors.mkSummary (Some 1200) (Some 300)))
                            (Some 12) (Some 8) None |} ] |}.

(** A transport that fails on every request. *)
Definition no_transport : Transport := fun _ => None.

(** The coordinates of [route.json] behind the level route. *)
Definition level_coords : list RawCoord.t :=
  map (fun k => RawCoord.mk 43 11 300 (1000 * k)) (range 0 60 1).

(** * Properties *)

(** ** The runtime layer *)

Lemma Rltb_true (x y : R) : Rltb x y = true <-> x < y.
Proof. unfold Rltb; destruct (Rlt_dec x y); split; intros; auto; discriminate. Qed.

Lemma Rltb_false (x y : R) : Rltb x y = false <-> y <= x.
Proof.
  unfold Rltb; destruct (Rlt_dec x y); split; intros; auto; try discriminate; lra.
Qed.

Lemma Rleb_true (x y : R) : Rleb x y = true <-> x <= y.
Proof. unfold Rleb; destruct (Rle_dec x y); split; intros; auto; discriminate. Qed.

Lemma Rleb_false (x y : R) : Rleb x y = false <-> y < x.
Proof.
  unfold Rleb; destruct (Rle_dec x y); split; intros; auto; try discriminate; lra.
Qed.

Lemma Reqb_true (x y : R) : Reqb x y = true <-> x = y.
Proof. unfold Reqb; destruct (Req_dec_T x y); split; intros; auto; discriminate. Qed.

Lemma Reqb_false (x y : R) : Reqb x y = false <-> x <> y.
Proof.
  unfold Reqb; destruct (Req_dec_T x y); split; intros; auto;
    try discriminate; contradiction.
Qed.

Lemma len_nonneg {A} (l : list A) : (0 <= len l)%Z.
Proof. unfold len; lia. Qed.

Lemma get_nat {A} (l : list A) (k : nat) (d : A) :
  (k < length l)%nat -> get l (Z.of_nat k) = Ok (nth k l d).
Proof.
  intros Hk. unfold get, len.
  destruct (Z.ltb_spec (Z.of_nat k) 0); [lia|].
  destruct (Z.leb_spec 0 (Z.of_nat k)); [|lia].
  destruct (Z.ltb_spec (Z.of_nat k) (Z.of_nat (length l))); [|lia].
  cbn [andb]. rewrite Nat2Z.id.
  destruct (nth_error l k) eqn:E.
  - now rewrite (nth_error_nth _ _ d E).
  - apply nth_error_None in E; lia.
Qed.

Lemma get_in_range {A} (l : list A) (i : Z) (d : A) :
  (0 <= i < len l)%Z -> get l i = Ok (nth (Z.to_nat i) l d).
Proof.
  intros Hi. rewrite <- (Z2Nat.id i) at 1 by lia.
  apply get_nat. unfold len in Hi; lia.
Qed.

Lemma get_Ok_inv {A} (l : list A) (i : Z) (a : A) :
  get l i = Ok a ->
  (- len l <= i < len l)%Z /\
  nth_error l (Z.to_nat (if (i <? 0)%Z then i + len l else i)%Z) = Some a.
Proof.
  unfold get. set (k := if (i <? 0)%Z then (i + len l)%Z else i).
  destruct (Z.leb_spec 0 k); cbn [andb]; [|discriminate].
  destruct (Z.ltb_spec k (len l)); [|discriminate].
  destruct (nth_error l (Z.to_nat k)) eqn:E; [|discriminate].
  intros [= <-]. split; [|reflexivity].
  subst k. destruct (Z.ltb_spec i 0); lia.
Qed.

Lemma update_length {A} (l : list A) (k : nat) (v : A) :
  length (update l k v) = length l.
Proof.
  revert k; induction l as [|a l IH]; intros [|k]; cbn; auto.
Qed.

Lemma update_nth_eq {A} (l : list A) (k : nat) (v d : A) :
  (k < length l)%nat -> nth k (update l k v) d = v.
Proof.
  revert k; induction l as [|a l IH]; intros [|k]; cbn; intros; try lia; auto.
  apply IH; lia.
Qed.

Lemma update_nth_neq {A} (l : list A) (k j : nat) (v d : A) :
  j <> k -> nth j (update l k v) d = nth j l d.
Proof.
  revert k j; induction l as [|a l IH]; intros [|k] [|j]; cbn; intros;
    try lia; auto.
Qed.

Lemma set_nat {A} (l : list A) (k : nat) (v : A) :
  (k < length l)%nat -> set l (Z.of_nat k) v = Ok (update l k v).
Proof.
  intros Hk. unfold set, len.
  destruct (Z.ltb_spec (Z.of_nat k) 0); [lia|].
  destruct (Z.leb_spec 0 (Z.of_nat k)); [|lia].
  destruct (Z.ltb_spec (Z.of_nat k) (Z.of_nat (length l))); [|lia].
  cbn [andb]. now rewrite Nat2Z.id.
Qed.

Lemma range_step1 (a b : Z) : range a b 1 = range_from a 1 (Z.to_nat (b - a)).
Proof.
  unfold range. f_equal. f_equal. rewrite Z.div_1_r. lia.
Qed.

Lemma range_from_length (a s : Z) (n : nat) : length (range_from a s n) = n.
Proof. revert a; induction n; cbn; intros; auto. Qed.

Lemma range_from_In (a s : Z) (n : nat) (x : Z) :
  In x (range_from a s n) <->
  exists k : nat, (k < n)%nat /\ x = (a + s * Z.of_nat k)%Z.
Proof.
  revert a; induction n as [|n IH]; intros a; cbn.
  - split; [tauto | intros (k & Hk & _); lia].
  - rewrite IH. split.
    + intros [<- | (k & Hk & ->)].
      * exists 0%nat; split; lia.
      * exists (S k); split; lia.
    + intros ([|k] & Hk & ->).
      * left; lia.
      * right; exists k; split; lia.
Qed.

(** ** Geodesy *)

Lemma atan_nonneg (x : R) : 0 <= x -> 0 <= atan x.
Proof.
  intros [Hx | <-].
  - rewrite <- atan_0. left. now apply atan_increasing.
  - rewrite atan_0; lra.
Qed.

Lemma asin_nonneg (x : R) : 0 <= x -> 0 <= asin x.
Proof.
  intros Hx. pose proof PI_RGT_0 as HPI.
  unfold asin. destruct (Rle_dec x (-1)); [lra|].
  destruct (Rle_dec 1 x); [lra|].
  apply atan_nonneg. apply Rmult_le_pos; [assumption|].
  left. apply Rinv_0_lt_compat, sqrt_lt_R0.
  unfold Rsqr. nra.
Qed.

Lemma haversine_nonneg (lat1 lon1 lat2 lon2 : R) :
  0 <= haversine lat1 lon1 lat2 lon2.
Proof.
  unfold haversine. cbv zeta.
  pose proof (asin_nonneg _ (sqrt_pos (hav_a lat1 lon1 lat2 lon2))).
  nra.
Qed.

(** [math.sqrt] and [math.asin] are always called inside their domains. *)
Lemma hav_a_domain (lat1 lon1 lat2 lon2 : R) :
  0 <= hav_a lat1 lon1 lat2 lon2 <= 1.
Proof.
  unfold hav_a, radians. cbv zeta.
  set (p1 := lat1 * (PI / 180)). set (p2 := lat2 * (PI / 180)).
  set (L := (lon2 - lon1) * (PI / 180)).
  replace ((lat2 - lat1) * (PI / 180)) with (p2 - p1) by (subst p1 p2; ring).
  assert (Hh : forall x, sin (x / 2) ^ 2 = (1 - cos x) / 2).
  { intros x. replace x with (2 * (x / 2)) at 2 by field.
    rewrite cos_2a_sin. simpl. field. }
  rewrite !Hh, cos_minus.
  pose proof (sin2_cos2 p1) as H1. pose proof (sin2_cos2 p2) as H2.
  pose proof (COS_bound L) as [HL1 HL2].
  unfold Rsqr in *.
  set (s1 := sin p1) in *. set (c1 := cos p1) in *.
  set (s2 := sin p2) in *. set (c2 := cos p2) in *.
  set (k := cos L) in *.
  assert (Hk : 0 <= c2 * c2 * (1 - k * k)) by
    (apply Rmult_le_pos; nra).
  pose proof (Rle_0_sqr (s1 - s2)) as Ha.
  pose proof (Rle_0_sqr (c1 - c2 * k)) as Hb.
  pose proof (Rle_0_sqr (s1 + s2)) as Hc.
  pose proof (Rle_0_sqr (c1 + c2 * k)) as Hd.
  unfold Rsqr in *.
  split; nra.
Qed.

(** ** The cumulative distance table *)

Section CumKm.

Variable points : list RoutePoint.

Lemma cum_loop (m : nat) : forall (k : nat) (cum : list R),
  (1 <= k)%nat -> (k + m = length points)%nat -> cum_inv points k cum ->
  exists cum', for_each (range_from (Z.of_nat k) 1 m) cum (cum_step points) = Ok cum' /\
               cum_inv points (length points) cum'.
Proof.
  induction m as [|m IH]; intros k cum Hk Hkm (Hlen & H0 & Hmono).
  - exists cum. split; [reflexivity|].
    replace (length points) with k by lia. repeat split; auto.
  - cbn [range_from for_each]. unfold cum_step at 1.
    replace (Z.of_nat k - 1)%Z with (Z.of_nat (k - 1)) by lia.
    pose (d := mkRoutePoint 0 0 0 0 0).
    rewrite (get_nat cum (k - 1) 0) by lia.
    rewrite (get_nat points (k - 1) d) by lia.
    rewrite (get_nat points k d) by lia.
    cbn [bind]. rewrite set_nat by lia. cbn [bind].
    replace (Z.of_nat k + 1)%Z with (Z.of_nat (S k)) by lia.
    apply IH; [lia | lia |].
    repeat split.
    + now rewrite update_length.
    + rewrite update_nth_neq by lia. assumption.
    + intros j Hj.
      destruct (Nat.eq_dec (S j) k) as [E | NE].
      * rewrite E, update_nth_eq by lia.
        rewrite update_nth_neq by lia.
        replace (k - 1)%nat with j by lia.
        match goal with |- _ <= _ + ?h => assert (0 <= h) by
            apply haversine_nonneg end.
        lra.
      * rewrite !update_nth_neq by lia. apply Hmono; lia.
Qed.

End CumKm.

(** The table is computed on every non-empty route. *)
Lemma precompute_cum_km_spec (points : list RoutePoint) :
  points <> [] ->
  exists cum,
    precompute_cum_km points = Ok cum /\
    cum_inv points (length points) cum.
Proof.
  intros Hne.
  assert (Hlen : (1 <= length points)%nat).
  { destruct points; [congruence | cbn; lia]. }
  unfold precompute_cum_km. rewrite range_step1.
  apply (cum_loop points (Z.to_nat (len points - 1)) 1).
  - lia.
  - unfold len; lia.
  - repeat split.
    + apply repeat_length.
    + destruct (length points); [lia | reflexivity].
    + intros j Hj; lia.
Qed.

(** C3. For every non-empty route the cumulative distance table is computed,
    has one entry per point, starts at 0 and never decreases from one index
    to the next. *)
Theorem cum_km_monotone (points : list RoutePoint) :
  points <> [] ->
  exists cum,
    precompute_cum_km points = Ok cum /\
    length cum = length points /\
    nth 0 cum 0 = 0 /\
    forall i : nat, (i + 1 < length points)%nat ->
                    nth i cum 0 <= nth (i + 1) cum 0.
Proof.
  intros Hne.
  destruct (precompute_cum_km_spec points Hne) as (cum & E & Hl & H0 & Hm).
  exists cum. repeat split; auto.
  intros i Hi. rewrite Nat.add_1_r. now apply Hm.
Qed.

(** ** The climb detector *)

Section Climbs.

Variable points : list RoutePoint.

Local Notation "'d0'" := (mkRoutePoint 0 0 0 0 0).
Local Notation "'alt_at' k" := (alt (nth k points (mkRoutePoint 0 0 0 0 0)))
  (at level 10, k at level 9).

(** With enough fuel the inner loop always stops: it returns an end index
    between its start and the last index, and a gain no smaller than the one
    it was started with. *)
Lemma climb_run_total (m : nat) : forall (fuel : nat) (j : Z) (gain : R),
  (0 <= j)%Z -> (len points - 1 - j <= Z.of_nat m)%Z -> (m < fuel)%nat ->
  exists j' g,
    climb_run fuel points j gain = Ok (j', g) /\
    (j <= j')%Z /\ (j' <= Z.max j (len points - 1))%Z /\ gain <= g.
Proof.
  induction m as [|m IH]; intros fuel j gain Hj Hm Hfuel;
    (destruct fuel as [|fuel]; [lia|]); cbn [climb_run].
  - destruct (Z.ltb_spec j (len points - 1)); [lia|].
    exists j, gain. repeat split; try lia; lra.
  - destruct (Z.ltb_spec j (len points - 1)) as [Hlt|Hge].
    + rewrite (get_in_range points (j + 1) d0) by lia.
      rewrite (get_in_range points j d0) by lia. cbn [bind].
      set (delta := alt _ - alt _).
      destruct (Rltb 0 delta) eqn:Hpos.
      * apply Rltb_true in Hpos.
        destruct (IH fuel (j + 1)%Z (gain + delta)) as (j' & g & E & H1 & H2 & H3);
          try lia.
        exists j', g. repeat split; auto; try lia; lra.
      * destruct (Rltb 10 (Rabs delta)).
        -- exists j, gain. repeat split; try lia; lra.
        -- destruct (IH fuel (j + 1)%Z gain) as (j' & g & E & H1 & H2 & H3);
             try lia.
           exists j', g. repeat split; auto; lia.
    + exists j, gain. repeat split; try lia; lra.
Qed.

Lemma climb_run_ok (i : Z) :
  (0 <= i)%Z ->
  exists j g, climb_run (S (length points)) points i 0 = Ok (j, g) /\ (i <= j)%Z.
Proof.
  intros Hi.
  destruct (climb_run_total (length points) (S (length points)) i 0)
    as (j & g & E & H1 & _); auto; try (unfold len; lia).
  exists j, g; auto.
Qed.

(** The outer loop returns, and everything it appends is a qualifying run. *)
Lemma climb_scan_spec (min_gain_m : R) (window : Z) (fuel : nat) :
  forall (i : Z) (climbs : list Climb),
    (0 <= i)%Z -> (Z.max 0 (len points - window - i) < Z.of_nat fuel)%Z ->
    exists out,
      climb_scan fuel points min_gain_m window i climbs = Ok (climbs ++ out) /\
      Forall (qualifying_run points min_gain_m window) out.
Proof.
  induction fuel as [|fuel IH]; intros i climbs Hi Hfuel; cbn [climb_scan].
  - lia.
  - destruct (Z.ltb_spec i (len points - window)) as [Hlt|Hge].
    + destruct (climb_run_ok i Hi) as (j & g & E & Hij).
      rewrite E. cbn [bind].
      destruct (Rleb min_gain_m g && (window <=? j - i)%Z) eqn:Hq.
      * apply andb_true_iff in Hq as [Hg Hw].
        apply Rleb_true in Hg. apply Z.leb_le in Hw.
        destruct (IH (j + 1)%Z (climbs ++ [(i, j, g)])) as (out & E' & Hout);
          try lia.
        exists ((i, j, g) :: out). split.
        -- rewrite E'. now rewrite <- app_assoc.
        -- constructor; [|assumption]. cbn. auto.
      * destruct (IH (i + 1)%Z climbs) as (out & E' & Hout); try lia.
        exists out; auto.
    + exists []. split; [now rewrite app_nil_r | constructor].
Qed.

(** When no run reaches the gain threshold nothing is appended. *)
Lemma climb_scan_none (min_gain_m : R) (window : Z) (fuel : nat) :
  (forall (i : nat) (j : Z) (g : R),
      climb_run (S (length points)) points (Z.of_nat i) 0 = Ok (j, g) ->
      g < min_gain_m) ->
  forall (i : Z) (climbs : list Climb),
    (0 <= i)%Z -> (Z.max 0 (len points - window - i) < Z.of_nat fuel)%Z ->
    climb_scan fuel points min_gain_m window i climbs = Ok climbs.
Proof.
  intros Hlow.
  induction fuel as [|fuel IH]; intros i climbs Hi Hfuel; cbn [climb_scan].
  - lia.
  - destruct (Z.ltb_spec i (len points - window)) as [Hlt|Hge]; [|reflexivity].
    destruct (climb_run_ok i Hi) as (j & g & E & Hij).
    rewrite E. cbn [bind].
    assert (Hg : g < min_gain_m).
    { apply (Hlow (Z.to_nat i) j). now rewrite Z2Nat.id by lia. }
    apply Rleb_false in Hg. rewrite Hg. cbn [andb].
    apply IH; lia.
Qed.

(** On altitudes that never go down, the run from [j] reaches the last
    index and gains exactly the altitude difference. *)
Lemma climb_run_ascent :
  (forall k : nat, (k + 1 < length points)%nat -> alt_at k <= alt_at (S k)) ->
  forall (m fuel j : nat) (gain : R),
    (j + m + 1 = length points)%nat -> (m < fuel)%nat ->
    exists g,
      climb_run fuel points (Z.of_nat j) gain
        = Ok (Z.of_nat (length points - 1), g) /\
      g = gain + (alt_at (length points - 1) - alt_at j).
Proof.
  intros Hmono.
  induction m as [|m IH]; intros fuel j gain Hjm Hfuel;
    (destruct fuel as [|fuel]; [lia|]); cbn [climb_run]; unfold len.
  - destruct (Z.ltb_spec (Z.of_nat j) (Z.of_nat (length points) - 1)); [lia|].
    replace (length points - 1)%nat with j by lia.
    exists gain. split; [reflexivity | lra].
  - destruct (Z.ltb_spec (Z.of_nat j) (Z.of_nat (length points) - 1)); [|lia].
    replace (Z.of_nat j + 1)%Z with (Z.of_nat (S j)) by lia.
    rewrite (get_nat points (S j) d0) by lia.
    rewrite (get_nat points j d0) by lia. cbn [bind].
    pose proof (Hmono j ltac:(lia)) as Hstep.
    destruct (Rltb 0 (alt_at (S j) - alt_at j)) eqn:Hpos.
    + destruct (IH fuel (S j) (gain + (alt_at (S j) - alt_at j)))
        as (g & E & Hg); try lia.
      exists g. split; [assumption | lra].
    + apply Rltb_false in Hpos.
      assert (Hz : alt_at (S j) - alt_at j = 0) by lra.
      rewrite Hz, Rabs_R0.
      assert (Hten : Rltb 10 0 = false) by (apply Rltb_false; lra).
      rewrite Hten.
      destruct (IH fuel (S j) gain) as (g & E & Hg); try lia.
      exists g. split; [assumption | lra].
Qed.

End Climbs.

Lemma nondecreasing_nth (l : list R) :
  nondecreasing l ->
  forall k : nat, (k + 1 < length l)%nat -> nth k l 0 <= nth (S k) l 0.
Proof.
  induction l as [|a [|b tl] IH]; cbn [nondecreasing length]; intros H k Hk;
    try lia.
  destruct H as [Hab Htl]. destruct k as [|k]; [exact Hab|].
  apply (IH Htl k). cbn [length] in *. lia.
Qed.

(** C4. The climb detector with thresholds 100 m and 50 points: a route of
    60 points whose altitude never goes down and rises by 150 m in total
    yields exactly the climb (0, 59, 150); a route on which no run gains the
    threshold yields no climb; and every climb returned is a run whose gain
    and length both reach their thresholds. *)
Theorem climb_detector_spec :
  (forall points : list RoutePoint,
      length points = 60%nat ->
      nondecreasing (map alt points) ->
      alt (nth 59 points (mkRoutePoint 0 0 0 0 0))
        - alt (nth 0 points (mkRoutePoint 0 0 0 0 0)) = 150 ->
      find_climb_segments points 100 50 = Ok [(0%Z, 59%Z, 150)]) /\
  (forall (points : list RoutePoint) (min_gain_m : R) (window : Z),
      (forall (i : nat) (j : Z) (g : R),
          climb_run (S (length points)) points (Z.of_nat i) 0 = Ok (j, g) ->
          g < min_gain_m) ->
      find_climb_segments points min_gain_m window = Ok []) /\
  (forall (points : list RoutePoint) (min_gain_m : R) (window : Z),
      exists climbs,
        find_climb_segments points min_gain_m window = Ok climbs /\
        Forall (qualifying_run points min_gain_m window) climbs).
Proof.
  split; [|split].
  - intros points Hlen Hmono Hgain.
    unfold find_climb_segments, len. rewrite Hlen.
    change (S (Z.to_nat (Z.of_nat 60 - 50))) with (S (S 9)).
    generalize 9%nat; intros fuel.
    cbn [climb_scan]. unfold len. rewrite Hlen.
    change (0 <? Z.of_nat 60 - 50)%Z with true. cbv iota.
    destruct (climb_run_ascent points) with (m := 59%nat) (fuel := 61%nat)
      (j := 0%nat) (gain := 0) as (g & E & Hg); try lia.
    { intros k Hk.
      pose proof (nondecreasing_nth _ Hmono k) as H.
      rewrite length_map in H. specialize (H Hk).
      rewrite <- (map_nth alt points), <- (map_nth alt points (mkRoutePoint 0 0 0 0 0) (S k)).
      exact H. }
    rewrite Hlen in E. change (Z.of_nat 0) with 0%Z in E.
    rewrite E. cbn [bind].
    rewrite Hlen in Hg. change (60 - 1)%nat with 59%nat in *.
    assert (Hg150 : g = 150) by lra.
    assert (H100 : Rleb 100 150 = true) by (apply Rleb_true; lra).
    rewrite Hg150, H100. reflexivity.
  - intros points min_gain_m window Hlow.
    unfold find_climb_segments.
    apply climb_scan_none; auto; lia.
  - intros points min_gain_m window.
    unfold find_climb_segments.
    destruct (climb_scan_spec points min_gain_m window
                (S (Z.to_nat (len points - window))) 0 [])
      as (out & E & Hout); try lia.
    exists out; auto.
Qed.

(** ** Loops and built-ins *)

Lemma range_In (a b s x : Z) :
  (0 < s)%Z ->
  In x (range a b s) <->
  exists k : Z, (0 <= k)%Z /\ x = (a + s * k)%Z /\ (x < b)%Z.
Proof.
  intros Hs. unfold range. rewrite range_from_In.
  set (n := ((b - a + s - 1) / s)%Z).
  assert (Hn : forall k : Z, (k < n <-> a + s * k < b)%Z).
  { intros k. subst n. split; intros H.
    - assert (k + 1 <= (b - a + s - 1) / s)%Z as H1 by lia.
      assert (s * (k + 1) <= b - a + s - 1)%Z; [|lia].
      pose proof (Z.mul_div_le (b - a + s - 1) s Hs). nia.
    - assert (k + 1 <= (b - a + s - 1) / s)%Z; [|lia].
      apply Z.div_le_lower_bound; lia. }
  split.
  - intros (k & Hk & ->). exists (Z.of_nat k). repeat split; try lia.
    apply Hn. lia.
  - intros (k & Hk & -> & Hlt). exists (Z.to_nat k).
    rewrite Z2Nat.id by lia. split; [|reflexivity].
    apply Hn in Hlt. lia.
Qed.

Lemma for_each_app {A S} (l1 l2 : list A) (s : S) (body : A -> S -> result S) :
  for_each (l1 ++ l2) s body =
  bind (for_each l1 s body) (fun s' => for_each l2 s' body).
Proof.
  revert s; induction l1 as [|x l1 IH]; intros s; cbn; [reflexivity|].
  destruct (body x s); cbn; auto.
Qed.

(** A loop whose body keeps an invariant, and never raises under it,
    returns a state that satisfies the invariant of the whole list. *)
Lemma for_each_inv {A S} (P : list A -> S -> Prop) (body : A -> S -> result S) :
  forall (l done : list A) (s : S),
    P done s ->
    (forall (pre : list A) (x : A) (s : S),
        In x l -> P pre s -> exists s', body x s = Ok s' /\ P (pre ++ [x]) s') ->
    exists s', for_each l s body = Ok s' /\ P (done ++ l) s'.
Proof.
  induction l as [|x l IH]; intros done s HP Hbody; cbn [for_each].
  - exists s. now rewrite app_nil_r.
  - destruct (Hbody done x s) as (s1 & E & HP1); [now left | assumption |].
    rewrite E. cbn [bind].
    destruct (IH (done ++ [x]) s1 HP1) as (s2 & E2 & HP2).
    + intros pre y s' Hy. apply Hbody. now right.
    + exists s2. split; [assumption|]. now rewrite <- app_assoc in HP2.
Qed.

(** Two nested loops are one loop over the pairs, in the same order. *)
Lemma for_each_nested {A B S} (l : list A) (inner : A -> list B)
  (body : A -> B -> S -> result S) (s : S) :
  for_each l s (fun i st => for_each (inner i) st (body i)) =
  for_each (flat_map (fun i => map (pair i) (inner i)) l) s
           (fun ij st => body (fst ij) (snd ij) st).
Proof.
  revert s; induction l as [|i l IH]; intros s; cbn [for_each flat_map];
    [reflexivity|].
  rewrite for_each_app.
  assert (E : forall (m : list B) (s0 : S),
             for_each m s0 (body i) =
             for_each (map (pair i) m) s0
                      (fun ij st => body (fst ij) (snd ij) st)).
  { induction m as [|j m IHm]; intros s0; cbn; [reflexivity|].
    destruct (body i j s0); cbn; auto. }
  rewrite <- E. destruct (for_each (inner i) s (body i)); cbn; auto.
Qed.

Lemma map_m_ok {A B} (f : A -> result B) (g : A -> B) (l : list A) :
  (forall x, In x l -> f x = Ok (g x)) -> map_m f l = Ok (map g l).
Proof.
  induction l as [|x l IH]; intros H; cbn; [reflexivity|].
  rewrite (H x) by now left. cbn.
  rewrite IH by (intros y Hy; apply H; now right). reflexivity.
Qed.

Lemma sum_m_ok {A} (f : A -> result R) (g : A -> R) (l : list A) :
  (forall x, In x l -> f x = Ok (g x)) ->
  forall acc, sum_m f l acc = Ok (fold_left (fun a x => a + g x) l acc).
Proof.
  induction l as [|x l IH]; intros H acc; cbn; [reflexivity|].
  rewrite (H x) by now left. cbn.
  apply IH. intros y Hy; apply H; now right.
Qed.

Section MaxBy.

Context {A : Type} (key : A -> result R) (k : A -> R).

Lemma max_loop_spec : forall (l : list A) (best : A),
  (forall x, In x l -> key x = Ok (k x)) ->
  exists b,
    max_loop key l best (k best) = Ok b /\
    (b = best \/ In b l) /\
    k best <= k b /\
    forall x, In x l -> k x <= k b.
Proof.
  induction l as [|y l IH]; intros best Hkey; cbn [max_loop].
  - exists best. repeat split; auto; try lra. intros x [].
  - rewrite (Hkey y) by now left. cbn [bind].
    assert (Hl : forall x, In x l -> key x = Ok (k x))
      by (intros x Hx; apply Hkey; now right).
    destruct (Rltb (k best) (k y)) eqn:E.
    + apply Rltb_true in E.
      destruct (IH y Hl) as (b & Eb & Hin & Hge & Hall).
      exists b. repeat split; auto.
      * right. destruct Hin as [-> | Hin]; [now left | now right].
      * lra.
      * intros x [<- | Hx]; auto.
    + apply Rltb_false in E.
      destruct (IH best Hl) as (b & Eb & Hin & Hge & Hall).
      exists b. repeat split; auto.
      * destruct Hin as [-> | Hin]; [now left | right; now right].
      * intros x [<- | Hx]; auto. lra.
Qed.

(** [max] over a non-empty list returns one of its elements, and no
    element has a greater key. *)
Lemma max_by_spec (l : list A) :
  l <> [] ->
  (forall x, In x l -> key x = Ok (k x)) ->
  exists b, max_by key l = Ok b /\ In b l /\ forall x, In x l -> k x <= k b.
Proof.
  destruct l as [|x l]; [congruence|]. intros _ Hkey.
  cbn [max_by]. rewrite (Hkey x) by now left. cbn [bind].
  destruct (max_loop_spec l x) as (b & Eb & Hin & Hge & Hall).
  - intros y Hy; apply Hkey; now right.
  - exists b. repeat split; auto.
    + destruct Hin as [-> | Hin]; [now left | now right].
    + intros y [<- | Hy]; auto.
Qed.

End MaxBy.

Lemma py_max_ok (l : list R) : l <> [] -> exists m, py_max l = Ok m.
Proof.
  intros Hl. unfold py_max.
  destruct (max_by_spec (fun x => Ok x) (fun x => x) l Hl) as (b & E & _); eauto.
Qed.

Lemma py_min_ok (l : list R) : l <> [] -> exists m, py_min l = Ok m.
Proof. destruct l; [congruence|]. intros _. cbn. eauto. Qed.

(** [sorted] neither drops nor invents elements. *)
Lemma insert_by_In {A} (key : A -> Z) (x y : A) (l : list A) :
  In y (insert_by key x l) <-> y = x \/ In y l.
Proof.
  induction l as [|z l IH]; cbn.
  - intuition.
  - destruct (key x <=? key z)%Z; cbn; rewrite ?IH; intuition.
Qed.


Lemma sorted_by_nil {A} (key : A -> Z) (l : list A) :
  sorted_by key l = [] <-> l = [].
Proof.
  split; [|intros ->; reflexivity].
  destruct l as [|x l]; [reflexivity|]. cbn.
  destruct (sorted_by key l) as [|z tl]; cbn; [discriminate|].
  destruct (key x <=? key z)%Z; discriminate.
Qed.

(** ** The shortcut search *)

Lemma get_point_at (points : list RoutePoint) (i : Z) :
  (0 <= i < len points)%Z -> get points i = Ok (point_at points i).
Proof. intros H. now apply get_in_range. Qed.

Lemma shortcut_pairs_In (mid_start mid_end i j : Z) :
  In (i, j) (shortcut_pairs mid_start mid_end) <->
  (exists a : Z, 0 <= a /\ i = mid_start + 100 * a)%Z /\
  (exists b : Z, 0 <= b /\ j = i + 400 + 100 * b)%Z /\
  (i < mid_end /\ j < i + 1000 /\ j < mid_end)%Z.
Proof.
  unfold shortcut_pairs. rewrite in_flat_map. split.
  - intros (i' & Hi' & Hj). apply in_map_iff in Hj as (j' & [= <- <-] & Hj').
    apply range_In in Hi' as (a & Ha & -> & Hlt); [|lia].
    apply range_In in Hj' as (b & Hb & -> & Hlt'); [|lia].
    split; [exists a; lia|]. split; [exists b; lia|]. lia.
  - intros ((a & Ha & ->) & (b & Hb & ->) & H1 & H2 & H3).
    exists (mid_start + 100 * a)%Z. split.
    + apply range_In; [lia|]. exists a. lia.
    + apply in_map. apply range_In; [lia|]. exists b. lia.
Qed.

Lemma shortcut_search_pairs (points : list RoutePoint) (mid_start mid_end : Z) :
  shortcut_search points mid_start mid_end =
  for_each (shortcut_pairs mid_start mid_end) (None, None) (fun ij st =>
    pi <- get points (fst ij) ;;
    pj <- get points (snd ij) ;;
    let d := haversine (lat pi) (lng pi) (lat pj) (lng pj) in
    if lt_inf d (fst st) && Rltb d 3 then Ok (Some d, Some (fst ij, snd ij))
    else Ok st).
Proof.
  unfold shortcut_search, shortcut_pairs. cbv zeta.
  now rewrite for_each_nested.
Qed.

(** The search returns; its state is either empty, with every visited pair
    at 3 km or more, or holds a visited pair under 3 km that no visited
    pair beats. *)
Lemma shortcut_search_spec (points : list RoutePoint) (mid_start mid_end : Z) :
  (0 <= mid_start)%Z -> (mid_end <= len points)%Z ->
  exists st,
    shortcut_search points mid_start mid_end = Ok st /\
    shortcut_inv points (shortcut_pairs mid_start mid_end) st.
Proof.
  intros Hlo Hhi. rewrite shortcut_search_pairs.
  apply (for_each_inv (shortcut_inv points) _ _ []).
  - intros q [].
  - intros pre [i j] st Hin HP. cbn [fst snd].
    apply shortcut_pairs_In in Hin as ((a & Ha & Hi) & (b & Hb & Hj) & H1 & H2 & H3).
    rewrite !get_point_at by lia. cbn [bind].
    change (haversine (lat (point_at points i)) (lng (point_at points i))
                      (lat (point_at points j)) (lng (point_at points j)))
      with (point_dist points (i, j)).
    set (d := point_dist points (i, j)).
    destruct st as [[bd|] [bp|]]; cbn [shortcut_inv] in HP; try contradiction;
      cbn [lt_inf fst].
    + destruct HP as (Hbp & Hbd & Hlt & Hmin).
      destruct (Rltb d bd) eqn:E1; [destruct (Rltb d 3) eqn:E2|]; cbn [andb].
      * apply Rltb_true in E1, E2.
        exists (Some d, Some (i, j)). split; [reflexivity|]. cbn.
        repeat split; auto.
        -- apply in_or_app; right; now left.
        -- intros q Hq. apply in_app_or in Hq as [Hq | [<- | []]].
           ++ specialize (Hmin q Hq). lra.
           ++ fold d. lra.
      * apply Rltb_true in E1. apply Rltb_false in E2. lra.
      * apply Rltb_false in E1.
        exists (Some bd, Some bp). split; [reflexivity|]. cbn.
        repeat split; auto.
        -- apply in_or_app; now left.
        -- intros q Hq. apply in_app_or in Hq as [Hq | [<- | []]]; auto.
    + destruct (Rltb d 3) eqn:E2; cbn [andb].
      * apply Rltb_true in E2.
        exists (Some d, Some (i, j)). split; [reflexivity|]. cbn.
        repeat split; auto.
        -- apply in_or_app; right; now left.
        -- intros q Hq. apply in_app_or in Hq as [Hq | [<- | []]].
           ++ specialize (HP q Hq). lra.
           ++ fold d. lra.
      * apply Rltb_false in E2.
        exists (None, None). split; [reflexivity|]. cbn.
        intros q Hq. apply in_app_or in Hq as [Hq | [<- | []]]; auto.
Qed.

Lemma thirds_bounds (n : Z) :
  (0 <= n -> 0 <= n / 3 /\ n / 3 <= 2 * n / 3 /\ 2 * n / 3 <= n)%Z.
Proof.
  intros Hn.
  pose proof (Z.div_mod n 3 ltac:(lia)). pose proof (Z.mod_pos_bound n 3 ltac:(lia)).
  pose proof (Z.div_mod (2 * n) 3 ltac:(lia)).
  pose proof (Z.mod_pos_bound (2 * n) 3 ltac:(lia)). lia.
Qed.

(** ** The five blocks of [pick_scenarios] *)

Lemma flatter_block_spec (climbs : list Climb) (total : Z) :
  climbs <> [] ->
  exists c s,
    In c climbs /\ (forall c', In c' climbs -> snd c' <= snd c) /\
    flatter_block climbs total = Ok [s] /\
    brackets s "flatter" (Z.max 0 (fst (fst c) - 200))
             (Z.min (total - 1) (snd (fst c) + 200)).
Proof.
  intros Hne.
  destruct (max_by_spec (fun c : Climb => Ok (snd c)) snd climbs Hne)
    as (c & E & Hin & Hmax); [reflexivity|].
  unfold flatter_block. destruct climbs as [|c0 tl]; [congruence|].
  rewrite E. cbn [bind]. destruct c as [[c0' c1'] c2'].
  eexists (c0', c1', c2'), _. repeat split; eauto.
Qed.

Lemma shorter_block_spec (points : list RoutePoint) :
  let total := len points in
  exists st s,
    shortcut_search points (total / 3) (2 * total / 3) = Ok st /\
    shortcut_inv points (shortcut_pairs (total / 3) (2 * total / 3)) st /\
    shorter_block points total = Ok [s] /\
    match snd st with
    | Some (i, j) => brackets s "shorter" i j
    | None => brackets s "shorter" (total / 3) (2 * total / 3)
    end.
Proof.
  intros total.
  pose proof (thirds_bounds total (len_nonneg points)) as (H1 & H2 & H3).
  destruct (shortcut_search_spec points (total / 3) (2 * total / 3))
    as (st & E & Hinv); try assumption.
  unfold shorter_block. fold total. rewrite E. cbn [bind].
  destruct (snd st) as [[i j]|] eqn:Est.
  - eexists st, _. rewrite Est. repeat split; eauto.
  - eexists st, _. rewrite Est. repeat split; eauto.
Qed.

Lemma paved_block_spec (sectors : list Sector) (total : Z) :
  sectors <> [] ->
  exists g s,
    In g sectors /\
    (forall g', In g' sectors -> sector_length g' <= sector_length g) /\
    paved_block sectors total = Ok [s] /\
    brackets s "paved" (Z.max 0 (from_index g - 150))
             (Z.min (total - 1) (to_index g + 150)).
Proof.
  intros Hne.
  destruct (max_by_spec (fun s => Ok (sector_length s)) sector_length sectors Hne)
    as (g & E & Hin & Hmax); [reflexivity|].
  unfold paved_block. destruct sectors as [|g0 tl]; [congruence|].
  rewrite E. cbn [bind].
  eexists g, _. repeat split; eauto.
Qed.

Lemma flattest_search_spec (points : list RoutePoint) (fte : Z) :
  (fte <= len points)%Z ->
  exists st,
    flattest_search points fte 300 = Ok st /\
    (fst st = 0%Z \/ (0 <= fst st < fte - 300)%Z).
Proof.
  intros Hfte. unfold flattest_search.
  destruct (for_each_inv
              (fun (_ : list Z) (st : Z * option R) =>
                 fst st = 0%Z \/ (0 <= fst st < fte - 300)%Z)
              (fun i st =>
                 alts <- map_m (fun j => p <- get points j ;; Ok (alt p))
                               (range i (i + 300) 1) ;;
                 hi <- py_max alts ;;
                 lo <- py_min alts ;;
                 let var := hi - lo in
                 if lt_inf var (snd st) then Ok (i, Some var) else Ok st)
              (range 0 (fte - 300) 50) [] (0%Z, None))
    as (st & E & HP).
  - now left.
  - intros pre i st Hi HP.
    apply range_In in Hi as (k & Hk & -> & Hlt); [|lia].
    rewrite (map_m_ok _ (fun j => alt (point_at points j))).
    + cbn [bind].
      assert (Hne : map (fun j => alt (point_at points j))
                        (range (0 + 50 * k) (0 + 50 * k + 300) 1) <> []).
      { rewrite range_step1.
        replace (0 + 50 * k + 300 - (0 + 50 * k))%Z with 300%Z by lia.
        discriminate. }
      destruct (py_max_ok _ Hne) as (hi & ->).
      destruct (py_min_ok _ Hne) as (lo & ->). cbn [bind].
      destruct (lt_inf (hi - lo) (snd st)).
      * eexists; split; [reflexivity|]. right. cbn [fst]. lia.
      * eexists; split; [reflexivity|]. assumption.
    + intros j Hj. apply range_In in Hj as (m & Hm & -> & Hlt'); [|lia].
      rewrite get_point_at by lia. reflexivity.
  - exists st. split; assumption.
Qed.

Lemma scenic_block_spec (points : list RoutePoint) :
  let total := len points in
  exists fs s,
    (fs = 0 \/ 0 <= fs < total / 3 - 300)%Z /\
    scenic_block points total = Ok [s] /\
    brackets s "scenic" (Z.max 50 fs) (Z.min (total - 1) (fs + 300)).
Proof.
  intros total.
  pose proof (thirds_bounds total (len_nonneg points)) as (H1 & H2 & H3).
  destruct (flattest_search_spec points (total / 3)) as (st & E & Hfs);
    [fold total; lia|].
  unfold scenic_block. fold total. rewrite E. cbn [bind].
  eexists (fst st), _. repeat split; eauto.
Qed.

Lemma sheltered_block_spec (points : list RoutePoint) :
  points <> [] ->
  let total := len points in
  exists h s,
    (0 <= h < total)%Z /\
    (forall i, (0 <= i < total)%Z ->
               alt (point_at points i) <= alt (point_at points h)) /\
    sheltered_block points total = Ok [s] /\
    brackets s "sheltered" (Z.max 0 (h - 300)) (Z.min (total - 1) (h + 300)).
Proof.
  intros Hne total.
  assert (Hpos : (0 < total)%Z).
  { subst total. unfold len. destruct points; [congruence | cbn; lia]. }
  destruct (max_by_spec (fun i => p <- get points i ;; Ok (alt p))
                        (fun i => alt (point_at points i))
                        (range 0 (len points) 1))
    as (h & E & Hin & Hmax).
  - rewrite range_step1. fold total.
    destruct (Z.to_nat (total - 0)) eqn:En; [lia | discriminate].
  - intros i Hi. apply range_In in Hi as (k & Hk & -> & Hlt); [|lia].
    rewrite get_point_at by lia. reflexivity.
  - apply range_In in Hin as (k & Hk & -> & Hlt); [|lia].
    unfold sheltered_block. rewrite E. cbn [bind].
    eexists _, _. repeat split; eauto; try (fold total in Hlt; lia).
    intros i Hi. apply Hmax. apply range_In; [lia|].
    exists i. fold total. lia.
Qed.

Lemma find_climb_segments_total (points : list RoutePoint) (min_gain_m : R)
  (window : Z) :
  exists climbs,
    find_climb_segments points min_gain_m window = Ok climbs /\
    Forall (qualifying_run points min_gain_m window) climbs.
Proof.
  unfold find_climb_segments.
  destruct (climb_scan_spec points min_gain_m window
              (S (Z.to_nat (len points - window))) 0 [])
    as (out & E & Hout); try lia.
  exists out; auto.
Qed.

(** [pick_scenarios] on a non-empty route: every block returns, and the
    result is their concatenation in source order. *)
Lemma pick_scenarios_blocks (points : list RoutePoint) (segments : Segments) :
  points <> [] ->
  let total := len points in
  exists climbs s1 s2 s3 s4 s5,
    find_climb_segments points 100 50 = Ok climbs /\
    flatter_block climbs total = Ok s1 /\
    shorter_block points total = Ok s2 /\
    paved_block (find_gravel_sectors segments) total = Ok s3 /\
    scenic_block points total = Ok s4 /\
    sheltered_block points total = Ok s5 /\
    pick_scenarios points segments = Ok (s1 ++ s2 ++ s3 ++ s4 ++ s5).
Proof.
  intros Hne total. subst total. set (total := len points).
  destruct (find_climb_segments_total points 100 50) as (climbs & Ec & _).
  assert (exists s1, flatter_block climbs total = Ok s1) as (s1 & E1).
  { destruct climbs as [|c tl] eqn:Ecl; [eexists; reflexivity|].
    destruct (flatter_block_spec (c :: tl) total) as (? & s & _ & _ & E & _);
      [discriminate | eauto]. }
  destruct (shorter_block_spec points) as (? & s2 & _ & _ & E2 & _).
  assert (exists s3, paved_block (find_gravel_sectors segments) total = Ok s3)
    as (s3 & E3).
  { destruct (find_gravel_sectors segments) as [|g tl] eqn:Eg;
      [eexists; reflexivity|].
    destruct (paved_block_spec (g :: tl) total) as (? & s & _ & _ & E & _);
      [discriminate | eauto]. }
  destruct (scenic_block_spec points) as (? & s4 & _ & E4 & _).
  destruct (sheltered_block_spec points Hne) as (? & s5 & _ & _ & E5 & _).
  exists climbs, s1, [s2], s3, [s4], [s5].
  unfold pick_scenarios. subst total.
  rewrite Ec. cbn [bind]. rewrite E1. cbn [bind].
  rewrite E2. cbn [bind]. rewrite E3. cbn [bind].
  rewrite E4. cbn [bind]. rewrite E5. cbn [bind].
  repeat split; auto.
Qed.

(** ** What [pick_scenarios] returns *)

Lemma flatter_block_queries (climbs : list Climb) (total : Z)
  (s1 : list AlternativeScenario) :
  flatter_block climbs total = Ok s1 ->
  map query_value s1 = if non_empty climbs then ["flatter"%string] else [].
Proof.
  destruct climbs as [|c tl].
  - cbn. now intros [= <-].
  - destruct (flatter_block_spec (c :: tl) total) as (? & s & _ & _ & E & Hq & _);
      [discriminate|].
    rewrite E. intros [= <-]. cbn. now rewrite Hq.
Qed.

Lemma paved_block_queries (sectors : list Sector) (total : Z)
  (s3 : list AlternativeScenario) :
  paved_block sectors total = Ok s3 ->
  map query_value s3 = if non_empty sectors then ["paved"%string] else [].
Proof.
  destruct sectors as [|g tl].
  - cbn. now intros [= <-].
  - destruct (paved_block_spec (g :: tl) total) as (? & s & _ & _ & E & Hq & _);
      [discriminate|].
    rewrite E. intros [= <-]. cbn. now rewrite Hq.
Qed.

Lemma shorter_block_queries (points : list RoutePoint)
  (s2 : list AlternativeScenario) :
  shorter_block points (len points) = Ok s2 ->
  map query_value s2 = ["shorter"%string].
Proof.
  destruct (shorter_block_spec points) as (st & s & _ & _ & E & Hb).
  rewrite E. intros [= <-]. cbn.
  destruct (snd st) as [[i j]|]; destruct Hb as (-> & _); reflexivity.
Qed.

Lemma scenic_block_queries (points : list RoutePoint)
  (s4 : list AlternativeScenario) :
  scenic_block points (len points) = Ok s4 ->
  map query_value s4 = ["scenic"%string].
Proof.
  destruct (scenic_block_spec points) as (fs & s & _ & E & Hq & _).
  rewrite E. intros [= <-]. cbn. now rewrite Hq.
Qed.

Lemma sheltered_block_queries (points : list RoutePoint)
  (s5 : list AlternativeScenario) :
  points <> [] ->
  sheltered_block points (len points) = Ok s5 ->
  map query_value s5 = ["sheltered"%string].
Proof.
  intros Hne.
  destruct (sheltered_block_spec points Hne) as (h & s & _ & _ & E & Hq & _).
  rewrite E. intros [= <-]. cbn. now rewrite Hq.
Qed.

(** C1. On a non-empty route the selector returns; the names of its
    scenarios are, in order, flatter (exactly when a climb was detected),
    shorter, paved (exactly when a sector was extracted), scenic and
    sheltered, with nothing in place of an absent one; so there are three to
    five of them. *)
Theorem pick_scenarios_catalog (points : list RoutePoint) (segments : Segments) :
  points <> [] ->
  exists climbs scenarios,
    find_climb_segments points 100 50 = Ok climbs /\
    pick_scenarios points segments = Ok scenarios /\
    map query_value scenarios =
      catalog (non_empty climbs) (non_empty (find_gravel_sectors segments)) /\
    (3 <= length scenarios <= 5)%nat /\
    (In "flatter"%string (map query_value scenarios) <-> climbs <> []) /\
    (In "paved"%string (map query_value scenarios) <->
       find_gravel_sectors segments <> []) /\
    In "shorter"%string (map query_value scenarios) /\
    In "scenic"%string (map query_value scenarios) /\
    In "sheltered"%string (map query_value scenarios).
Proof.
  intros Hne.
  destruct (pick_scenarios_blocks points segments Hne)
    as (climbs & s1 & s2 & s3 & s4 & s5 & Ec & E1 & E2 & E3 & E4 & E5 & E).
  exists climbs, (s1 ++ s2 ++ s3 ++ s4 ++ s5).
  assert (Hq : map query_value (s1 ++ s2 ++ s3 ++ s4 ++ s5) =
               catalog (non_empty climbs)
                       (non_empty (find_gravel_sectors segments))).
  { rewrite !map_app.
    rewrite (flatter_block_queries _ _ _ E1), (shorter_block_queries _ _ E2),
      (paved_block_queries _ _ _ E3), (scenic_block_queries _ _ E4),
      (sheltered_block_queries _ _ Hne E5).
    reflexivity. }
  split; [assumption|]. split; [assumption|]. split; [assumption|].
  split.
  { rewrite <- (length_map query_value), Hq.
    destruct (non_empty climbs), (non_empty (find_gravel_sectors segments));
      cbn; lia. }
  rewrite Hq.
  destruct climbs as [|c tl], (find_gravel_sectors segments) as [|g gl];
    cbn; repeat split; intros; try discriminate; try congruence; auto 10;
    repeat match goal with
           | H : _ \/ _ |- _ => destruct H
           | H : _ = _ |- _ => discriminate H
           | H : False |- _ => destruct H
           end.
Qed.

Lemma queries_Forall (q : string) (l : list AlternativeScenario) (b : bool) :
  map query_value l = (if b then [q] else []) ->
  Forall (fun s => query_value s = q) l.
Proof.
  destruct b, l as [|s [|s' tl]]; cbn; intros H; try discriminate;
    repeat constructor. now injection H.
Qed.

(** The blocks again, each with the one name its scenarios carry. *)
Lemma pick_scenarios_names (points : list RoutePoint) (segments : Segments) :
  points <> [] ->
  exists climbs s1 s2 s3 s4 s5,
    find_climb_segments points 100 50 = Ok climbs /\
    flatter_block climbs (len points) = Ok s1 /\
    shorter_block points (len points) = Ok s2 /\
    paved_block (find_gravel_sectors segments) (len points) = Ok s3 /\
    scenic_block points (len points) = Ok s4 /\
    sheltered_block points (len points) = Ok s5 /\
    pick_scenarios points segments = Ok (s1 ++ s2 ++ s3 ++ s4 ++ s5) /\
    Forall (fun s => query_value s = "flatter"%string) s1 /\
    Forall (fun s => query_value s = "shorter"%string) s2 /\
    Forall (fun s => query_value s = "paved"%string) s3 /\
    Forall (fun s => query_value s = "scenic"%string) s4 /\
    Forall (fun s => query_value s = "sheltered"%string) s5.
Proof.
  intros Hne.
  destruct (pick_scenarios_blocks points segments Hne)
    as (climbs & s1 & s2 & s3 & s4 & s5 & Ec & E1 & E2 & E3 & E4 & E5 & E).
  exists climbs, s1, s2, s3, s4, s5. repeat split; auto.
  - eapply queries_Forall, flatter_block_queries; eauto.
  - apply (queries_Forall _ _ true), (shorter_block_queries points); auto.
  - eapply queries_Forall, paved_block_queries; eauto.
  - apply (queries_Forall _ _ true), (scenic_block_queries points); auto.
  - apply (queries_Forall _ _ true), (sheltered_block_queries points); auto.
Qed.

(** Picks the block a scenario of the result came from, by its name. *)
Ltac by_name H :=
  repeat (apply in_app_or in H as [H | H]);
  repeat match goal with
         | F : Forall _ ?l, I : In _ ?l |- _ =>
             let Q := fresh "Q" in
             pose proof (proj1 (Forall_forall _ _) F _ I) as Q; cbv beta in Q;
             clear F
         end.

(** C5. The shortcut search visits only pairs (i, j) with i in the middle
    third at stride 100 and j 400 to 1000 indices ahead at stride 100, below
    the end of the middle third.  Its result is a visited pair under 3 km
    that no visited pair beats, and the shorter scenario brackets it; or it
    finds none because every visited pair is at 3 km or more, and the
    shorter scenario splits the route at its 1/3 and 2/3 marks.  A visited
    pair 2 km apart keeps a visited pair 5 km apart from being selected. *)
Theorem shortcut_selection (points : list RoutePoint) :
  let total := len points in
  let mid_start := (total / 3)%Z in
  let mid_end := (2 * total / 3)%Z in
  let pairs := shortcut_pairs mid_start mid_end in
  exists st s,
    shortcut_search points mid_start mid_end = Ok st /\
    shorter_block points total = Ok [s] /\
    query_value s = "shorter"%string /\
    (forall i j, In (i, j) pairs ->
       (mid_start <= i < mid_end /\ (i - mid_start) mod 100 = 0 /\
        400 <= j - i <= 1000 /\ (j - i) mod 100 = 0 /\ j < mid_end)%Z) /\
    match snd st with
    | Some p =>
        In p pairs /\ point_dist points p < 3 /\
        (forall q, In q pairs -> point_dist points p <= point_dist points q) /\
        diverge_index s = fst p /\ rejoin_index s = snd p
    | None =>
        (forall q, In q pairs -> 3 <= point_dist points q) /\
        diverge_index s = mid_start /\ rejoin_index s = mid_end
    end /\
    (forall p2 p5, In p2 pairs -> In p5 pairs ->
       point_dist points p2 = 2 -> point_dist points p5 = 5 ->
       exists p, snd st = Some p /\ point_dist points p <= 2 /\ p <> p5) /\
    (forall segments, points <> [] ->
       exists scenarios,
         pick_scenarios points segments = Ok scenarios /\
         In s scenarios /\
         forall s', In s' scenarios -> query_value s' = "shorter"%string ->
                    s' = s).
Proof.
  intros total mid_start mid_end pairs.
  destruct (shorter_block_spec points) as (st & s & Est & Hinv & Es & Hb).
  fold total mid_start mid_end pairs in Est, Hinv, Es, Hb.
  exists st, s.
  assert (Hq : query_value s = "shorter"%string).
  { destruct (snd st) as [[i j]|]; now destruct Hb. }
  split; [assumption|]. split; [assumption|]. split; [assumption|].
  split.
  { intros i j Hin.
    apply shortcut_pairs_In in Hin as ((a & Ha & Hi) & (b & Hb' & Hj) & H1 & H2 & H3).
    replace (i - mid_start)%Z with (a * 100)%Z by lia.
    replace (j - i)%Z with (400 + b * 100)%Z by lia.
    rewrite Z.mod_mul by lia.
    rewrite Z.mod_add by lia. change (400 mod 100)%Z with 0%Z.
    subst mid_start mid_end total. lia. }
  assert (Hst : match snd st with
                | Some p =>
                    In p pairs /\ point_dist points p < 3 /\
                    (forall q, In q pairs ->
                               point_dist points p <= point_dist points q) /\
                    diverge_index s = fst p /\ rejoin_index s = snd p
                | None =>
                    (forall q, In q pairs -> 3 <= point_dist points q) /\
                    diverge_index s = mid_start /\ rejoin_index s = mid_end
                end).
  { destruct st as [[d|] [[i j]|]]; cbn [snd shortcut_inv] in *;
      try contradiction.
    - destruct Hinv as (Hin & -> & Hlt & Hmin).
      destruct Hb as (_ & Hd & Hr). auto.
    - destruct Hb as (_ & Hd & Hr). auto. }
  split; [exact Hst|]. split.
  { intros p2 p5 H2 H5 E2 E5.
    destruct (snd st) as [p|].
    - destruct Hst as (Hin & Hlt & Hmin & _).
      exists p. split; [reflexivity|].
      pose proof (Hmin p2 H2). split; [lra|].
      intros ->. lra.
    - destruct Hst as (Hall & _). specialize (Hall p2 H2). lra. }
  intros segments Hne.
  destruct (pick_scenarios_names points segments Hne)
    as (climbs & s1 & s2 & s3 & s4 & s5 & _ & _ & E2 & _ & _ & _ & E
        & F1 & F2 & F3 & F4 & F5).
  fold total in E2. rewrite Es in E2. injection E2 as <-.
  eexists. split; [exact E|]. split.
  - apply in_or_app; right. apply in_or_app; left. now left.
  - intros s' Hin Hs'. by_name Hin; try congruence.
    destruct Hin as [<- | []]. reflexivity.
Qed.

(** ** Index bounds of the scenarios *)

Lemma qualifying_run_bounds (points : list RoutePoint) (min_gain_m : R)
  (window i j : Z) (g : R) :
  qualifying_run points min_gain_m window (i, j, g) -> (0 < window)%Z ->
  (0 <= i /\ i + window <= j /\ j <= len points - 1)%Z.
Proof.
  intros (Hi & Hrun & _ & Hw) Hpos.
  destruct (climb_run_total points (length points) (S (length points)) i 0)
    as (j' & g' & E & H1 & H2 & _); auto; try (unfold len; lia).
  rewrite Hrun in E. injection E as <- <-. lia.
Qed.

(** The invariant holds on routes of 52 points or more whose sectors are
    sub-ranges of the route. *)
Lemma pick_scenarios_valid (points : list RoutePoint) (segments : Segments) :
  (52 <= len points)%Z ->
  (forall g, In g (find_gravel_sectors segments) ->
             sector_in_route (len points) g) ->
  exists scenarios,
    pick_scenarios points segments = Ok scenarios /\
    Forall (valid_bracket (len points)) scenarios.
Proof.
  intros Hlen Hsec.
  assert (Hne : points <> []) by (intros ->; cbn in Hlen; lia).
  destruct (pick_scenarios_blocks points segments Hne)
    as (climbs & s1 & s2 & s3 & s4 & s5 & Ec & E1 & E2 & E3 & E4 & E5 & E).
  cbv zeta in *. set (total := len points) in *.
  pose proof (thirds_bounds total ltac:(lia)) as (T1 & T2 & T3).
  assert (T4 : (total / 3 < 2 * total / 3)%Z).
  { pose proof (Z.div_mod total 3 ltac:(lia)).
    pose proof (Z.mod_pos_bound total 3 ltac:(lia)).
    pose proof (Z.div_mod (2 * total) 3 ltac:(lia)).
    pose proof (Z.mod_pos_bound (2 * total) 3 ltac:(lia)). lia. }
  assert (T5 : (2 * total / 3 <= total - 1)%Z).
  { pose proof (Z.div_mod (2 * total) 3 ltac:(lia)).
    pose proof (Z.mod_pos_bound (2 * total) 3 ltac:(lia)). lia. }
  exists (s1 ++ s2 ++ s3 ++ s4 ++ s5). split; [assumption|].
  repeat (apply Forall_app; split).
  - (* flatter *)
    destruct climbs as [|c tl]; [cbn in E1; injection E1 as <-; constructor|].
    destruct (flatter_block_spec (c :: tl) total)
      as ([[i j] g] & s & Hin & _ & Es & _ & Hd & Hr); [discriminate|].
    rewrite Es in E1. injection E1 as <-.
    destruct (find_climb_segments_total points 100 50) as (climbs' & Ec' & Hq).
    rewrite Ec in Ec'. injection Ec' as <-.
    pose proof (proj1 (Forall_forall _ _) Hq _ Hin) as Hrun.
    apply qualifying_run_bounds in Hrun; [|lia].
    cbn [fst snd] in Hd, Hr. fold total in Hrun.
    repeat constructor; unfold valid_bracket; rewrite ?Hd, ?Hr; lia.
  - (* shorter *)
    destruct (shorter_block_spec points) as (st & s & _ & Hinv & Es & Hb).
    fold total in Hinv, Es, Hb. rewrite Es in E2. injection E2 as <-.
    apply Forall_cons; [|apply Forall_nil]. unfold valid_bracket.
    destruct st as [[d|] [[i j]|]]; cbn [snd shortcut_inv] in *;
      try contradiction.
    + destruct Hinv as (Hin & _). destruct Hb as (_ & -> & ->).
      apply shortcut_pairs_In in Hin
        as ((a & Ha & Hi) & (b & Hb' & Hj) & H1 & H2 & H3). lia.
    + destruct Hb as (_ & -> & ->). lia.
  - (* paved *)
    destruct (find_gravel_sectors segments) as [|g0 tl] eqn:Eg;
      [cbn in E3; injection E3 as <-; constructor|].
    destruct (paved_block_spec (g0 :: tl) total)
      as (g & s & Hin & _ & Es & _ & Hd & Hr); [discriminate|].
    rewrite Es in E3. injection E3 as <-.
    destruct (Hsec g Hin) as (G1 & G2 & G3). fold total in G3.
    repeat constructor; unfold valid_bracket; rewrite ?Hd, ?Hr; lia.
  - (* scenic *)
    destruct (scenic_block_spec points) as (fs & s & Hfs & Es & _ & Hd & Hr).
    fold total in Hfs, Es, Hd, Hr. rewrite Es in E4. injection E4 as <-.
    repeat constructor; unfold valid_bracket; rewrite ?Hd, ?Hr; lia.
  - (* sheltered *)
    destruct (sheltered_block_spec points Hne)
      as (h & s & Hh & _ & Es & _ & Hd & Hr).
    fold total in Hh, Es, Hd, Hr. rewrite Es in E5. injection E5 as <-.
    repeat constructor; unfold valid_bracket; rewrite ?Hd, ?Hr; lia.
Qed.

(** C6, as amended. On a route of at least 52 points whose sectors are
    sub-ranges of the route, the selector returns and every scenario
    satisfies 0 <= diverge_index < rejoin_index <= last index. *)
Theorem scenario_indices_valid (points : list RoutePoint) (segments : Segments) :
  (52 <= len points)%Z ->
  (forall g, In g (find_gravel_sectors segments) ->
             sector_in_route (len points) g) ->
  exists scenarios,
    pick_scenarios points segments = Ok scenarios /\
    forall s, In s scenarios ->
      (0 <= diverge_index s /\ diverge_index s < rejoin_index s /\
       rejoin_index s <= len points - 1)%Z.
Proof.
  intros Hlen Hsec.
  destruct (pick_scenarios_valid points segments Hlen Hsec) as (l & E & Hall).
  exists l. split; [assumption|].
  intros s Hs. exact (proj1 (Forall_forall _ _) Hall s Hs).
Qed.

(** C6 as stated fails.  On a route of three points the scenic scenario
    diverges at index 50, past the last index 2 and past its own rejoin
    index; and on a route of 60 points a sector annotated at 500..600 gives a
    paved scenario that diverges at 350 and rejoins at 59. *)
Lemma scenario_indices_counterexample :
  (exists scenarios s,
      pick_scenarios short_route no_segments = Ok scenarios /\
      In s scenarios /\
      diverge_index s = 50%Z /\ rejoin_index s = 2%Z /\
      len short_route = 3%Z /\
      ~ (0 <= diverge_index s /\ diverge_index s < rejoin_index s /\
         rejoin_index s <= len short_route - 1)%Z) /\
  (exists scenarios s,
      pick_scenarios level_route far_segments = Ok scenarios /\
      In s scenarios /\
      diverge_index s = 350%Z /\ rejoin_index s = 59%Z /\
      len level_route = 60%Z /\
      ~ (0 <= diverge_index s /\ diverge_index s < rejoin_index s /\
         rejoin_index s <= len level_route - 1)%Z).
Proof.
  split.
  - destruct (pick_scenarios_blocks short_route no_segments)
      as (climbs & s1 & s2 & s3 & s4 & s5 & _ & _ & _ & _ & E4 & _ & E);
      [discriminate|].
    destruct (scenic_block_spec short_route) as (fs & s & Hfs & Es & _ & Hd & Hr).
    rewrite Es in E4. injection E4 as <-.
    change (len short_route) with 3%Z in *.
    change (3 / 3 - 300)%Z with (-299)%Z in Hfs.
    assert (fs = 0%Z) as -> by lia.
    exists (s1 ++ s2 ++ s3 ++ [s] ++ s5), s.
    split; [assumption|]. split.
    { do 3 (apply in_or_app; right). now left. }
    rewrite Hd, Hr. repeat split; try reflexivity. lia.
  - destruct (pick_scenarios_blocks level_route far_segments)
      as (climbs & s1 & s2 & s3 & s4 & s5 & _ & _ & _ & E3 & _ & _ & E);
      [discriminate|].
    change (len level_route) with 60%Z in *.
    cbn in E3. injection E3 as <-.
    eexists _, _. split; [exact E|]. split.
    { do 2 (apply in_or_app; right). apply in_or_app; left. now left. }
    cbn. repeat split; try reflexivity. lia.
Qed.


(** ** Rounding *)

Lemma floor_IZR (n : Z) : floor (IZR n) = n.
Proof.
  unfold floor.
  assert (H : (n + 1)%Z = up (IZR n)).
  { apply tech_up; rewrite plus_IZR; lra. }
  rewrite <- H. lia.
Qed.

Lemma round_IZR (n : Z) : round (IZR n) = n.
Proof.
  unfold round. rewrite floor_IZR.
  assert (H : Rltb (IZR n - IZR n) (1 / 2) = true) by (apply Rltb_true; lra).
  now rewrite H.
Qed.

Lemma pow10_pos (n : nat) : 0 < 10 ^ n.
Proof. apply pow_lt; lra. Qed.

(** A number with at most [n] decimals is its own rounding to [n] places. *)
Lemma round_to_exact (k : Z) (n : nat) :
  round_to (IZR k / 10 ^ n) n = IZR k / 10 ^ n.
Proof.
  unfold round_to. pose proof (pow10_pos n).
  replace (IZR k / 10 ^ n * 10 ^ n) with (IZR k) by (field; lra).
  now rewrite round_IZR.
Qed.

(** [f"{150.0:.0f}"] and [f"{11.5:.1f}"] *)
Example format_f_whole : format_f 0 150 = "150"%string.
Proof.
  unfold format_f.
  replace (Rabs 150 * 10 ^ 0) with (IZR 150)
    by (rewrite Rabs_right; simpl; lra).
  rewrite round_IZR.
  assert (H : Rltb 150 0 = false) by (apply Rltb_false; lra).
  rewrite H. reflexivity.
Qed.

Example format_f_tenths : format_f 1 (115 / 10) = "11.5"%string.
Proof.
  unfold format_f.
  replace (Rabs (115 / 10) * 10 ^ 1) with (IZR 115)
    by (rewrite Rabs_right; simpl; lra).
  rewrite round_IZR.
  assert (H : Rltb (115 / 10) 0 = false) by (apply Rltb_false; lra).
  rewrite H. reflexivity.
Qed.

(** ** Slices and segment sums *)

Lemma get_first {A} (l : list A) (x d : A) : get l 0 = Ok x -> x = hd d l.
Proof.
  intros H. apply get_Ok_inv in H as (_ & H). cbn in H.
  destruct l; cbn in *; congruence.
Qed.

Lemma get_last {A} (l : list A) (x d : A) : get l (-1) = Ok x -> x = last l d.
Proof.
  intros H. apply get_Ok_inv in H as (Hr & H).
  change (-1 <? 0)%Z with true in H. cbv iota in H.
  assert (Hn : (0 < length l)%nat) by (unfold len in Hr; lia).
  replace (Z.to_nat (-1 + len l)) with (length l - 1)%nat in H
    by (unfold len; lia).
  clear Hr. revert H Hn. induction l as [|a [|b tl] IH]; cbn [length]; intros H Hn.
  - lia.
  - cbn in *. congruence.
  - replace (S (S (length tl)) - 1)%nat with (S (S (length tl) - 1)) in H by lia.
    cbn [nth_error] in H. cbn [length] in IH.
    change (last (a :: b :: tl) d) with (last (b :: tl) d).
    apply IH; [assumption | lia].
Qed.

Lemma slice_in_range {A} (l : list A) (a b : Z) :
  (0 <= a <= b)%Z -> (b <= len l)%Z ->
  slice l a b = firstn (Z.to_nat (b - a)) (skipn (Z.to_nat a) l).
Proof.
  intros Ha Hb. unfold slice, slice_bound.
  destruct (Z.ltb_spec a 0); [lia|]. destruct (Z.ltb_spec b 0); [lia|].
  now rewrite !Z.min_l by lia.
Qed.

Lemma slice_length {A} (l : list A) (a b : Z) :
  (0 <= a <= b)%Z -> (b <= len l)%Z -> len (slice l a b) = (b - a)%Z.
Proof.
  intros Ha Hb. rewrite slice_in_range by assumption.
  unfold len in *. rewrite length_firstn, length_skipn. lia.
Qed.

Lemma slice_nth {A} (l : list A) (a b : Z) (k : nat) (d : A) :
  (0 <= a <= b)%Z -> (b <= len l)%Z -> (Z.of_nat k < b - a)%Z ->
  nth k (slice l a b) d = nth (Z.to_nat a + k) l d.
Proof.
  intros Ha Hb Hk. rewrite slice_in_range by assumption.
  rewrite nth_firstn.
  destruct (Nat.ltb_spec k (Z.to_nat (b - a))); [|lia].
  now rewrite nth_skipn.
Qed.

Lemma last_nth {A} (l : list A) (d : A) : last l d = nth (length l - 1) l d.
Proof.
  induction l as [|a [|b tl] IH]; try reflexivity.
  change (last (a :: b :: tl) d) with (last (b :: tl) d). rewrite IH.
  cbn [length]. replace (S (S (length tl)) - 1)%nat with (S (S (length tl) - 1)) by lia.
  reflexivity.
Qed.

(** The end points of the original segment of a well-bracketed scenario. *)
Lemma original_segment_ends (points : list RoutePoint) (sc : AlternativeScenario) :
  let d0 := mkRoutePoint 0 0 0 0 0 in
  let seg := original_segment_of points sc in
  (0 <= diverge_index sc <= rejoin_index sc)%Z ->
  (rejoin_index sc < len points)%Z ->
  seg <> [] /\
  hd d0 seg = point_at points (diverge_index sc) /\
  last seg d0 = point_at points (rejoin_index sc).
Proof.
  intros d0 seg Hd Hr. subst seg. unfold original_segment_of.
  set (a := diverge_index sc) in *. set (b := (rejoin_index sc + 1)%Z).
  assert (Hlen : len (slice points a b) = (b - a)%Z)
    by (apply slice_length; subst b; lia).
  assert (Hne : slice points a b <> []).
  { intros E. rewrite E in Hlen. cbn in Hlen. subst b. lia. }
  split; [assumption|]. split.
  - assert (Hhd : forall l : list RoutePoint, hd d0 l = nth 0 l d0)
      by (intros [|? ?]; reflexivity).
    rewrite Hhd, slice_nth by (subst b; lia).
    unfold point_at. f_equal. lia.
  - rewrite last_nth, slice_nth; unfold len in Hlen; subst b; try lia.
    unfold point_at. f_equal. lia.
Qed.

Lemma fold_range_shift (h : Z -> R) (n : nat) : forall (k : Z) (acc : R),
  fold_left (fun a i => a + h i) (range_from (k + 1) 1 n) acc =
  fold_left (fun a i => a + h (i + 1)%Z) (range_from k 1 n) acc.
Proof.
  induction n as [|n IH]; intros k acc; cbn; [reflexivity|]. apply IH.
Qed.

Lemma fold_range_ext (h h' : Z -> R) (n : nat) : forall (k : Z) (acc : R),
  (forall i, (k <= i < k + Z.of_nat n)%Z -> h i = h' i) ->
  fold_left (fun a i => a + h i) (range_from k 1 n) acc =
  fold_left (fun a i => a + h' i) (range_from k 1 n) acc.
Proof.
  induction n as [|n IH]; intros k acc H; cbn; [reflexivity|].
  rewrite (H k) by lia. apply IH. intros i Hi. apply H. lia.
Qed.

(** The indexed sum over consecutive pairs is the structural one. *)
Lemma fold_pairs (g : RoutePoint -> RoutePoint -> R) (seg : list RoutePoint) :
  forall acc : R,
    fold_left (fun a i => a + g (point_at seg i) (point_at seg (i + 1)))
              (range_from 0 1 (length seg - 1)) acc
    = acc + pair_sum g seg.
Proof.
  induction seg as [|p [|q tl] IH]; intros acc; cbn [length pair_sum].
  - cbn. lra.
  - cbn. lra.
  - replace (S (S (length tl)) - 1)%nat with (S (length (q :: tl) - 1))
      by (cbn [length]; lia).
    cbn [range_from fold_left].
    change (0 + 1)%Z with 1%Z.
    rewrite (fold_range_shift
               (fun i => g (point_at (p :: q :: tl) i)
                           (point_at (p :: q :: tl) (i + 1))) _ 0).
    rewrite (fold_range_ext _
               (fun i => g (point_at (q :: tl) i) (point_at (q :: tl) (i + 1)))).
    + rewrite IH. unfold point_at.
      change (Z.to_nat 0) with 0%nat. change (Z.to_nat 1) with 1%nat.
      cbn [nth pair_sum]. lra.
    + intros i Hi. unfold point_at.
      replace (Z.to_nat (i + 1 + 1)) with (S (S (Z.to_nat i))) by lia.
      replace (Z.to_nat (i + 1)) with (S (Z.to_nat i)) by lia.
      reflexivity.
Qed.

Lemma range_pairs_length (seg : list RoutePoint) :
  range 0 (len seg - 1) 1 = range_from 0 1 (length seg - 1).
Proof. rewrite range_step1. f_equal. unfold len. lia. Qed.

(** Both segment sums return, with their closed forms. *)
Lemma segment_distance_spec (seg : list RoutePoint) :
  segment_distance seg = Ok (path_km seg).
Proof.
  unfold segment_distance, path_km.
  rewrite (sum_m_ok _ (fun i =>
             haversine (lat (point_at seg i)) (lng (point_at seg i))
                       (lat (point_at seg (i + 1))) (lng (point_at seg (i + 1))))).
  - rewrite range_pairs_length.
    rewrite (fold_pairs (fun p q => haversine (lat p) (lng p) (lat q) (lng q))).
    f_equal. lra.
  - intros i Hi. apply range_In in Hi as (k & Hk & -> & Hlt); [|lia].
    rewrite !get_point_at by lia. reflexivity.
Qed.

Lemma segment_ascent_spec (seg : list RoutePoint) :
  segment_ascent seg = Ok (positive_gain seg).
Proof.
  unfold segment_ascent, positive_gain.
  rewrite (sum_m_ok _ (fun i =>
             Rmax 0 (alt (point_at seg (i + 1)) - alt (point_at seg i)))).
  - rewrite range_pairs_length.
    rewrite (fold_pairs (fun p q => Rmax 0 (alt q - alt p))).
    f_equal. lra.
  - intros i Hi. apply range_In in Hi as (k & Hk & -> & Hlt); [|lia].
    rewrite !get_point_at by lia. reflexivity.
Qed.

(** ** The comparison builder *)

(** What a returned entry holds, field by field. *)
Lemma build_alternative_entry_inv (sc : AlternativeScenario)
  (rd : RouteData.t) (points : list RoutePoint) (cum_km : list R) (e : Entry.t) :
  build_alternative_entry sc rd points cum_km = Ok e ->
  let d0 := mkRoutePoint 0 0 0 0 0 in
  let seg := original_segment_of points sc in
  seg <> [] /\
  Alternative.coordinates (Entry.alternative e) = RouteData.coordinates rd /\
  Alternative.distance_m (Entry.alternative e) = RouteData.distance_m rd /\
  Alternative.duration_s (Entry.alternative e)
    = get_or (RouteData.duration_s rd) 0%Z /\
  Alternative.ascent_m (Entry.alternative e)
    = get_or (RouteData.ascent_m rd) 0%Z /\
  Alternative.descent_m (Entry.alternative e)
    = get_or (RouteData.descent_m rd) 0%Z /\
  Alternative.is_mock (Entry.alternative e)
    = get_or (RouteData.mock rd) false /\
  OriginalSegment.distance_m (Entry.original_segment e)
    = round (path_km seg * 1000) /\
  OriginalSegment.ascent_m (Entry.original_segment e)
    = round (positive_gain seg) /\
  Comparison.distance_delta_m (Entry.comparison e)
    = (RouteData.distance_m rd - round (path_km seg * 1000))%Z /\
  Comparison.ascent_delta_m (Entry.comparison e)
    = (get_or (RouteData.ascent_m rd) 0 - round (positive_gain seg))%Z /\
  Comparison.time_delta_s (Entry.comparison e)
    = (get_or (RouteData.duration_s rd) 0
       - (t (last seg d0) - t (hd d0 seg)) / 1000)%Z.
Proof.
  intros H d0 seg. unfold build_alternative_entry in H.
  fold (original_segment_of points sc) in H. fold seg in H.
  rewrite segment_distance_spec, segment_ascent_spec in H.
  destruct (get points (diverge_index sc)) as [diverge|]; [|discriminate].
  destruct (get points (rejoin_index sc)) as [rejoin|]; [|discriminate].
  cbn [bind] in H.
  destruct (get seg (-1)) as [seg_last|] eqn:El; [|discriminate].
  destruct (get seg 0) as [seg_first|] eqn:Ef; [|discriminate].
  cbn [bind] in H.
  destruct (get cum_km (diverge_index sc)) as [kd|]; [|discriminate].
  destruct (get cum_km (rejoin_index sc)) as [kr|]; [|discriminate].
  cbn [bind] in H. injection H as <-.
  rewrite (get_last _ _ d0 El), (get_first _ _ d0 Ef).
  cbn. repeat split; try reflexivity.
  intros E. rewrite E in Ef. discriminate.
Qed.

(** The builder returns whenever the bracket lies inside the route and
    the distance table covers the route. *)
Lemma build_alternative_entry_ok (sc : AlternativeScenario)
  (rd : RouteData.t) (points : list RoutePoint) (cum_km : list R) :
  (0 <= diverge_index sc <= rejoin_index sc)%Z ->
  (rejoin_index sc < len points)%Z ->
  len cum_km = len points ->
  exists e, build_alternative_entry sc rd points cum_km = Ok e.
Proof.
  intros Hd Hr Hcum. unfold build_alternative_entry.
  fold (original_segment_of points sc).
  rewrite segment_distance_spec, segment_ascent_spec.
  rewrite !get_point_at by lia. cbn [bind].
  assert (Hlen : len (original_segment_of points sc)
                 = (rejoin_index sc + 1 - diverge_index sc)%Z)
    by (apply slice_length; lia).
  set (seg := original_segment_of points sc) in *.
  assert (El : exists x, get seg (-1) = Ok x).
  { unfold get. change (-1 <? 0)%Z with true. cbv iota.
    destruct (Z.leb_spec 0 (-1 + len seg)); [|lia].
    destruct (Z.ltb_spec (-1 + len seg) (len seg)); [|lia]. cbn [andb].
    destruct (nth_error seg (Z.to_nat (-1 + len seg))) eqn:E; eauto.
    apply nth_error_None in E. unfold len in *. lia. }
  destruct El as (x & ->).
  rewrite (get_in_range seg 0 (mkRoutePoint 0 0 0 0 0)) by lia. cbn [bind].
  rewrite (get_in_range cum_km (diverge_index sc) 0) by lia.
  rewrite (get_in_range cum_km (rejoin_index sc) 0) by lia. cbn [bind].
  eexists; reflexivity.
Qed.

(** C2. In every record the builder assembles, each delta is the
    alternative's figure minus the original segment's: the distance delta
    against the record's own original distance, the ascent delta against the
    rounded sum of the positive altitude steps of the bracketed range, and
    the time delta against the elapsed time between the timestamps of the
    segment's two end points, which are the diverge and rejoin points. *)
Theorem comparison_deltas (sc : AlternativeScenario) (rd : RouteData.t)
  (points : list RoutePoint) (cum_km : list R) (e : Entry.t) :
  build_alternative_entry sc rd points cum_km = Ok e ->
  let d0 := mkRoutePoint 0 0 0 0 0 in
  let seg := original_segment_of points sc in
  let alternative := Entry.alternative e in
  let original := Entry.original_segment e in
  let comparison := Entry.comparison e in
  Alternative.distance_m alternative = RouteData.distance_m rd /\
  Alternative.ascent_m alternative = get_or (RouteData.ascent_m rd) 0%Z /\
  Alternative.duration_s alternative = get_or (RouteData.duration_s rd) 0%Z /\
  OriginalSegment.distance_m original = round (path_km seg * 1000) /\
  OriginalSegment.ascent_m original = round (positive_gain seg) /\
  Comparison.distance_delta_m comparison
    = (Alternative.distance_m alternative
       - OriginalSegment.distance_m original)%Z /\
  Comparison.ascent_delta_m comparison
    = (Alternative.ascent_m alternative - round (positive_gain seg))%Z /\
  Comparison.time_delta_s comparison
    = (Alternative.duration_s alternative
       - (t (last seg d0) - t (hd d0 seg)) / 1000)%Z /\
  ((0 <= diverge_index sc <= rejoin_index sc)%Z ->
   (rejoin_index sc < len points)%Z ->
   hd d0 seg = point_at points (diverge_index sc) /\
   last seg d0 = point_at points (rejoin_index sc)).
Proof.
  intros H d0 seg alternative original comparison.
  destruct (build_alternative_entry_inv _ _ _ _ _ H)
    as (_ & _ & Hdist & Hdur & Hasc & _ & _ & Hod & Hoa & Hdd & Had & Htd).
  subst alternative original comparison.
  rewrite Hdist, Hasc, Hdur, Hod, Hoa, Hdd, Had, Htd.
  repeat split; try reflexivity.
  - now apply original_segment_ends.
  - now apply original_segment_ends.
Qed.

(** ** The synthesizer *)

Lemma length_zero_iff (dlat dlng : R) :
  sqrt (dlat ^ 2 + dlng ^ 2) = 0 <-> dlat = 0 /\ dlng = 0.
Proof.
  split.
  - intros H. apply sqrt_eq_0 in H; [|nra]. split; nra.
  - intros [-> ->]. replace (0 ^ 2 + 0 ^ 2) with 0 by ring. apply sqrt_0.
Qed.

Lemma generate_mock_degenerate (points : list RoutePoint)
  (sc : AlternativeScenario) (p q : RoutePoint) :
  get points (diverge_index sc) = Ok p ->
  get points (rejoin_index sc) = Ok q ->
  lat p = lat q -> lng p = lng q ->
  generate_mock_alternative points sc = Ok degenerate_route_data.
Proof.
  intros Hp Hq Hlat Hlng. unfold generate_mock_alternative.
  rewrite Hp, Hq. cbn [bind].
  assert (E : Reqb (sqrt ((lat q - lat p) ^ 2 + (lng q - lng p) ^ 2)) 0 = true).
  { apply Reqb_true, length_zero_iff. split; lra. }
  rewrite E. reflexivity.
Qed.

Lemma generate_mock_arc (points : list RoutePoint)
  (sc : AlternativeScenario) (p q : RoutePoint) :
  get points (diverge_index sc) = Ok p ->
  get points (rejoin_index sc) = Ok q ->
  lat p <> lat q \/ lng p <> lng q ->
  exists perp_lat perp_lng offset_km,
    generate_mock_alternative points sc =
    Ok {| RouteData.coordinates :=
            map (arc_point sc p q perp_lat perp_lng offset_km 30)
                (range 0 31 1);
          RouteData.distance_m :=
            round (path_km (original_segment_of points sc)
                   * dict_get multiplier (query_value sc) 1 * 1000);
          RouteData.duration_s :=
            Some (round (path_km (original_segment_of points sc)
                         * dict_get multiplier (query_value sc) 1 * 1000
                         / (55 / 10)));
          RouteData.ascent_m := Some 0%Z;
          RouteData.descent_m := Some 0%Z;
          RouteData.mock := Some true;
          RouteData.surface_info := None;
          RouteData.waytype_info := None |}.
Proof.
  intros Hp Hq Hne. unfold generate_mock_alternative.
  rewrite Hp, Hq. cbn [bind].
  set (length := sqrt ((lat q - lat p) ^ 2 + (lng q - lng p) ^ 2)).
  assert (E : Reqb length 0 = false).
  { apply Reqb_false. intros H. apply length_zero_iff in H. lra. }
  rewrite E. unfold py_div. rewrite E. cbn [bind].
  fold (original_segment_of points sc).
  rewrite segment_distance_spec. cbn [bind].
  eexists _, _, _. reflexivity.
Qed.

(** The synthesizer never divides by zero. *)
Lemma generate_mock_no_zero_division (points : list RoutePoint)
  (sc : AlternativeScenario) :
  generate_mock_alternative points sc <> Raise ZeroDivisionError.
Proof.
  destruct (get points (diverge_index sc)) as [p|e] eqn:Hp.
  - destruct (get points (rejoin_index sc)) as [q|e] eqn:Hq.
    + destruct (Req_dec_T (lat p) (lat q)) as [E1|N1];
        [destruct (Req_dec_T (lng p) (lng q)) as [E2|N2]|].
      * rewrite (generate_mock_degenerate _ _ _ _ Hp Hq E1 E2). discriminate.
      * destruct (generate_mock_arc _ _ _ _ Hp Hq) as (? & ? & ? & ->); auto.
        discriminate.
      * destruct (generate_mock_arc _ _ _ _ Hp Hq) as (? & ? & ? & ->); auto.
        discriminate.
    + unfold generate_mock_alternative. rewrite Hp, Hq. cbn.
      unfold get in Hq.
      destruct (_ && _); [destruct (nth_error _ _)|]; congruence.
  - unfold generate_mock_alternative. rewrite Hp. cbn.
    unfold get in Hp.
    destruct (_ && _); [destruct (nth_error _ _)|]; congruence.
Qed.



Lemma range_0_31 : range 0 31 1 = (0 :: range 1 30 1 ++ [30])%Z.
Proof. reflexivity. Qed.






(** ** Synthesized alternatives in the batch *)

(** Every synthesized alternative is flagged as such and carries no ascent
    or descent: the keys hold 0, or are absent and read as 0. *)
Lemma generate_mock_shape (points : list RoutePoint)
  (sc : AlternativeScenario) (rd : RouteData.t) :
  generate_mock_alternative points sc = Ok rd ->
  RouteData.mock rd = Some true /\
  get_or (RouteData.ascent_m rd) 0%Z = 0%Z /\
  get_or (RouteData.descent_m rd) 0%Z = 0%Z /\
  (RouteData.coordinates rd <> [] ->
   RouteData.ascent_m rd = Some 0%Z /\ RouteData.descent_m rd = Some 0%Z).
Proof.
  intros H.
  destruct (get points (diverge_index sc)) as [p|e] eqn:Hp;
    [|unfold generate_mock_alternative in H; rewrite Hp in H; discriminate].
  destruct (get points (rejoin_index sc)) as [q|e] eqn:Hq;
    [|unfold generate_mock_alternative in H; rewrite Hp, Hq in H; discriminate].
  assert (Hcase : (lat p = lat q /\ lng p = lng q) \/
                  (lat p <> lat q \/ lng p <> lng q)).
  { destruct (Req_dec_T (lat p) (lat q)), (Req_dec_T (lng p) (lng q)); auto. }
  destruct Hcase as [[E1 E2] | Hne].
  - rewrite (generate_mock_degenerate _ _ _ _ Hp Hq E1 E2) in H.
    injection H as <-. cbn. repeat split; auto; congruence.
  - destruct (generate_mock_arc _ _ _ _ Hp Hq Hne) as (? & ? & ? & E).
    rewrite E in H. injection H as <-. cbn. repeat split; auto.
Qed.

(** With no provider answer, a scenario bracketed inside the route always
    yields an entry. *)
Lemma process_scenario_mock_ok (provider : option Provider)
  (points : list RoutePoint) (cum_km : list R) (sc : AlternativeScenario) :
  (forall call_ors, provider = Some call_ors ->
     call_ors (point_at points (diverge_index sc))
              (point_at points (rejoin_index sc)) sc = None) ->
  (0 <= diverge_index sc <= rejoin_index sc)%Z ->
  (rejoin_index sc < len points)%Z ->
  len cum_km = len points ->
  exists rd e,
    generate_mock_alternative points sc = Ok rd /\
    build_alternative_entry sc rd points cum_km = Ok e /\
    process_scenario provider points cum_km sc = Ok e.
Proof.
  intros Hprov Hd Hr Hcum.
  assert (Hp : get points (diverge_index sc)
               = Ok (point_at points (diverge_index sc)))
    by (apply get_point_at; lia).
  assert (Hq : get points (rejoin_index sc)
               = Ok (point_at points (rejoin_index sc)))
    by (apply get_point_at; lia).
  assert (Hrd : exists rd, generate_mock_alternative points sc = Ok rd).
  { set (p := point_at points (diverge_index sc)) in *.
    set (q := point_at points (rejoin_index sc)) in *.
    destruct (Req_dec_T (lat p) (lat q)) as [E1|N1];
      [destruct (Req_dec_T (lng p) (lng q)) as [E2|N2]|].
    - rewrite (generate_mock_degenerate _ _ _ _ Hp Hq E1 E2). eauto.
    - destruct (generate_mock_arc _ _ _ _ Hp Hq) as (? & ? & ? & ->); eauto.
    - destruct (generate_mock_arc _ _ _ _ Hp Hq) as (? & ? & ? & ->); eauto. }
  destruct Hrd as (rd & Hrd).
  destruct (build_alternative_entry_ok sc rd points cum_km Hd Hr Hcum)
    as (e & He).
  exists rd, e. split; [assumption|]. split; [assumption|].
  unfold process_scenario. rewrite Hp, Hq. cbn [bind].
  destruct provider as [call_ors|].
  - rewrite (Hprov call_ors eq_refl), Hrd. cbn [bind]. assumption.
  - rewrite Hrd. cbn [bind]. assumption.
Qed.

(** The mock-only batch returns one entry per scenario on every route of
    52 points or more whose sectors are sub-ranges of the route. *)
Lemma generate_alternatives_mock_total (points : list RoutePoint)
  (segments : Segments) :
  (52 <= len points)%Z ->
  (forall g, In g (find_gravel_sectors segments) ->
             sector_in_route (len points) g) ->
  exists scenarios entries,
    pick_scenarios points segments = Ok scenarios /\
    generate_alternatives None points segments = Ok entries /\
    length entries = length scenarios.
Proof.
  intros Hlen Hsec.
  assert (Hne : points <> []) by (intros ->; cbn in Hlen; lia).
  destruct (precompute_cum_km_spec points Hne) as (cum & Hrun & Hl & _).
  destruct (pick_scenarios_valid points segments Hlen Hsec)
    as (scenarios & Epick & Hvalid).
  assert (Hcum : len cum = len points) by (unfold len; now rewrite Hl).
  assert (Hmap : exists entries,
             map_m (process_scenario None points cum) scenarios = Ok entries /\
             length entries = length scenarios).
  { clear Epick. induction Hvalid as [|sc l Hsc _ IH]; cbn [map_m].
    - exists []. split; reflexivity.
    - destruct Hsc as (H1 & H2 & H3).
      destruct (process_scenario_mock_ok None points cum sc)
        as (rd & e & _ & _ & He); try lia; [discriminate|].
      destruct IH as (es & Ees & Hes).
      rewrite He, Ees. cbn [bind]. exists (e :: es). split; [reflexivity|].
      cbn. now rewrite Hes. }
  destruct Hmap as (entries & Emap & Hentries).
  exists scenarios, entries. split; [assumption|]. split; [|assumption].
  unfold generate_alternatives. rewrite Hrun. cbn [bind].
  assert (Hlast : exists x, get cum (-1) = Ok x).
  { unfold get. change (-1 <? 0)%Z with true. cbv iota.
    destruct (Z.leb_spec 0 (-1 + len cum)); [|lia].
    destruct (Z.ltb_spec (-1 + len cum) (len cum)); [|lia]. cbn [andb].
    destruct (nth_error cum (Z.to_nat (-1 + len cum))) eqn:E; eauto.
    apply nth_error_None in E. unfold len in *. lia. }
  destruct Hlast as (x & ->). cbn [bind].
  rewrite Epick. cbn [bind].
  assert (Hprint : for_each scenarios tt (fun s _ =>
                     _ <- get cum (diverge_index s) ;;
                     _ <- get cum (rejoin_index s) ;;
                     Ok tt) = Ok tt).
  { clear Epick Emap Hentries. induction Hvalid as [|sc l Hsc _ IH];
      cbn [for_each]; [reflexivity|].
    destruct Hsc as (H1 & H2 & H3).
    rewrite (get_in_range cum (diverge_index sc) 0) by lia.
    rewrite (get_in_range cum (rejoin_index sc) 0) by lia.
    cbn [bind]. exact IH. }
  rewrite Hprint. cbn [bind]. assumption.
Qed.

(** C9. When the diverge and rejoin points of a scenario have the same
    latitude and longitude the synthesizer returns the empty geometry (no
    coordinates, distance 0, flagged as mock) and raises nothing, in
    particular no division by zero; and with the bracket inside the route the
    batch step for that scenario still returns an entry, built from that
    empty geometry; the mock-only batch as a whole returns one entry per
    scenario on every route of 52 points or more whose sectors lie inside
    it. *)
Theorem degenerate_alternative (points : list RoutePoint)
  (sc : AlternativeScenario) (p q : RoutePoint) :
  get points (diverge_index sc) = Ok p ->
  get points (rejoin_index sc) = Ok q ->
  lat p = lat q -> lng p = lng q ->
  generate_mock_alternative points sc = Ok degenerate_route_data /\
  RouteData.coordinates degenerate_route_data = [] /\
  RouteData.distance_m degenerate_route_data = 0%Z /\
  generate_mock_alternative points sc <> Raise ZeroDivisionError /\
  (forall (provider : option Provider) (cum_km : list R),
      (forall call_ors, provider = Some call_ors -> call_ors p q sc = None) ->
      (0 <= diverge_index sc <= rejoin_index sc)%Z ->
      len cum_km = len points ->
      exists e,
        process_scenario provider points cum_km sc = Ok e /\
        build_alternative_entry sc degenerate_route_data points cum_km = Ok e /\
        Alternative.coordinates (Entry.alternative e) = [] /\
        Alternative.distance_m (Entry.alternative e) = 0%Z /\
        Alternative.is_mock (Entry.alternative e) = true) /\
  (forall segments : Segments,
      (52 <= len points)%Z ->
      (forall g, In g (find_gravel_sectors segments) ->
                 sector_in_route (len points) g) ->
      exists scenarios entries,
        pick_scenarios points segments = Ok scenarios /\
        generate_alternatives None points segments = Ok entries /\
        length entries = length scenarios).
Proof.
  intros Hp Hq Hlat Hlng.
  pose proof (generate_mock_degenerate _ _ _ _ Hp Hq Hlat Hlng) as Hdeg.
  split; [assumption|]. split; [reflexivity|]. split; [reflexivity|].
  split; [apply generate_mock_no_zero_division|].
  split; [|intros segments; apply generate_alternatives_mock_total].
  intros provider cum_km Hprov Hd Hcum.
  assert (Hr : (rejoin_index sc < len points)%Z).
  { apply get_Ok_inv in Hq as (Hq & _). lia. }
  assert (Ep : p = point_at points (diverge_index sc)).
  { rewrite get_point_at in Hp by lia. congruence. }
  assert (Eq : q = point_at points (rejoin_index sc)).
  { rewrite get_point_at in Hq by lia. congruence. }
  destruct (process_scenario_mock_ok provider points cum_km sc)
    as (rd & e & Hrd & He & Hproc); try assumption.
  { intros call_ors Hc. rewrite <- Ep, <- Eq. now apply Hprov. }
  rewrite Hdeg in Hrd. injection Hrd as <-.
  exists e. split; [assumption|]. split; [assumption|].
  destruct (build_alternative_entry_inv _ _ _ _ _ He)
    as (_ & Hc & Hdm & _ & _ & _ & Hm & _).
  rewrite Hc, Hdm, Hm. repeat split.
Qed.

(** C10. A synthesized alternative carries no ascent and no descent,
    whatever the altitudes on the route: both keys hold 0 (in the empty
    geometry they are absent and read as 0).  So every entry built from it
    reports ascent 0 and descent 0, and its ascent delta is the negation of
    the rounded ascent of the original segment. *)
Theorem mock_ascent_zero (points : list RoutePoint) (sc : AlternativeScenario)
  (rd : RouteData.t) :
  generate_mock_alternative points sc = Ok rd ->
  get_or (RouteData.ascent_m rd) 0%Z = 0%Z /\
  get_or (RouteData.descent_m rd) 0%Z = 0%Z /\
  (RouteData.coordinates rd <> [] ->
   RouteData.ascent_m rd = Some 0%Z /\ RouteData.descent_m rd = Some 0%Z) /\
  forall (cum_km : list R) (e : Entry.t),
    build_alternative_entry sc rd points cum_km = Ok e ->
    Alternative.ascent_m (Entry.alternative e) = 0%Z /\
    Alternative.descent_m (Entry.alternative e) = 0%Z /\
    OriginalSegment.ascent_m (Entry.original_segment e)
      = round (positive_gain (original_segment_of points sc)) /\
    Comparison.ascent_delta_m (Entry.comparison e)
      = (- round (positive_gain (original_segment_of points sc)))%Z.
Proof.
  intros H.
  destruct (generate_mock_shape _ _ _ H) as (_ & Ha & Hd & Hsome).
  split; [assumption|]. split; [assumption|]. split; [assumption|].
  intros cum_km e He.
  destruct (build_alternative_entry_inv _ _ _ _ _ He)
    as (_ & _ & _ & _ & Hasc & Hdesc & _ & _ & Hoa & _ & Had & _).
  rewrite Hasc, Hdesc, Hoa, Had, Ha, Hd. repeat split; lia.
Qed.

(** ** The theorems at sample inputs *)

(** The catalog on a level route of 60 points with two sectors. *)
Lemma pick_scenarios_catalog_witness :
  level_route <> [] /\
  exists climbs scenarios,
    find_climb_segments level_route 100 50 = Ok climbs /\
    pick_scenarios level_route gravel_segments = Ok scenarios /\
    map query_value scenarios =
      catalog (non_empty climbs)
              (non_empty (find_gravel_sectors gravel_segments)) /\
    (3 <= length scenarios <= 5)%nat.
Proof.
  split; [discriminate|].
  destruct (pick_scenarios_catalog level_route gravel_segments)
    as (climbs & scenarios & H1 & H2 & H3 & H4 & _); [discriminate|].
  exists climbs, scenarios. auto.
Defined.

(** The distance table of the level route of 60 points. *)
Lemma cum_km_monotone_witness :
  level_route <> [] /\
  exists cum,
    precompute_cum_km level_route = Ok cum /\
    length cum = 60%nat /\
    nth 0 cum 0 = 0 /\
    forall i : nat, (i + 1 < 60)%nat -> nth i cum 0 <= nth (i + 1) cum 0.
Proof.
  split; [discriminate|].
  apply (cum_km_monotone level_route). discriminate.
Defined.

(** The index bounds on the level route of 60 points with two sectors
    inside it. *)
Lemma scenario_indices_valid_witness :
  (52 <= len level_route)%Z /\
  (forall g, In g (find_gravel_sectors gravel_segments) ->
             sector_in_route (len level_route) g) /\
  exists scenarios,
    pick_scenarios level_route gravel_segments = Ok scenarios /\
    forall s, In s scenarios ->
      (0 <= diverge_index s /\ diverge_index s < rejoin_index s /\
       rejoin_index s <= len level_route - 1)%Z.
Proof.
  assert (H1 : (52 <= len level_route)%Z) by (vm_compute; discriminate).
  assert (H2 : forall g, In g (find_gravel_sectors gravel_segments) ->
                         sector_in_route (len level_route) g).
  { intros g Hg. change (len level_route) with 60%Z. simpl in Hg.
    destruct Hg as [<- | [<- | []]]; unfold sector_in_route; simpl; lia. }
  split; [exact H1|]. split; [exact H2|].
  exact (scenario_indices_valid level_route gravel_segments H1 H2).
Defined.


(** The deltas of a provider answer against the segment of [slope_pair]:
    100 m of ascent and 60 s between its end points. *)
Lemma comparison_deltas_witness :
  exists e,
    build_alternative_entry (sample_scenario "paved" 0 1) slope_route_data
                            slope_pair [0; 111] = Ok e /\
    Comparison.distance_delta_m (Entry.comparison e)
      = (120000 - OriginalSegment.distance_m (Entry.original_segment e))%Z /\
    Comparison.ascent_delta_m (Entry.comparison e) = (40 - 100)%Z /\
    Comparison.time_delta_s (Entry.comparison e) = (21000 - 60)%Z.
Proof.
  destruct (build_alternative_entry_ok (sample_scenario "paved" 0 1)
              slope_route_data slope_pair [0; 111]) as (e & He);
    [cbn; lia | reflexivity | reflexivity |].
  exists e. split; [exact He|].
  destruct (comparison_deltas _ _ _ _ _ He)
    as (Hd & Ha & Hdur & _ & _ & Hdd & Had & Htd & _).
  rewrite Hdd, Had, Htd, Hd, Ha, Hdur.
  split; [reflexivity|]. split; [|reflexivity].
  f_equal.
  assert (Hgain : positive_gain
                    (original_segment_of slope_pair (sample_scenario "paved" 0 1))
                  = IZR 100).
  { change (positive_gain _) with (Rmax 0 (100 - 0) + 0).
    rewrite Rmax_right; lra. }
  rewrite Hgain. apply round_IZR.
Defined.


(** On the level route every two points coincide in latitude and
    longitude: the scenic bracket 10..20 yields the empty geometry and an
    entry. *)
Lemma degenerate_alternative_witness :
  generate_mock_alternative level_route (sample_scenario "scenic" 10 20)
    = Ok degenerate_route_data /\
  exists e,
    process_scenario None level_route (repeat 0 60)
                     (sample_scenario "scenic" 10 20) = Ok e /\
    Alternative.coordinates (Entry.alternative e) = [] /\
    Alternative.distance_m (Entry.alternative e) = 0%Z /\
    Alternative.is_mock (Entry.alternative e) = true.
Proof.
  destruct (degenerate_alternative level_route (sample_scenario "scenic" 10 20)
              (level_point 10) (level_point 20))
    as (H1 & _ & _ & _ & H2 & _); try reflexivity.
  split; [exact H1|].
  destruct (H2 None (repeat 0 60)) as (e & He & _ & Hc & Hd & Hm);
    [discriminate | cbn; lia | reflexivity |].
  exists e. auto.
Defined.

(** The flatter mock over [slope_pair]: ascent 0 against 100 m of original
    ascent. *)
Lemma mock_ascent_zero_witness :
  exists rd,
    generate_mock_alternative slope_pair (sample_scenario "flatter" 0 1) = Ok rd /\
    RouteData.ascent_m rd = Some 0%Z /\
    RouteData.descent_m rd = Some 0%Z /\
    forall (cum_km : list R) (e : Entry.t),
      build_alternative_entry (sample_scenario "flatter" 0 1) rd slope_pair cum_km
        = Ok e ->
      Comparison.ascent_delta_m (Entry.comparison e) = (- 100)%Z.
Proof.
  destruct (generate_mock_arc slope_pair (sample_scenario "flatter" 0 1)
              (point_at slope_pair 0) (point_at slope_pair 1))
    as (pl & pg & off & E); [reflexivity | reflexivity | left; simpl; lra |].
  eexists. split; [exact E|].
  destruct (mock_ascent_zero _ _ _ E) as (_ & _ & Hsome & Hbuild).
  assert (Hne : RouteData.coordinates
                  {| RouteData.coordinates :=
                       map (arc_point (sample_scenario "flatter" 0 1)
                              (point_at slope_pair 0) (point_at slope_pair 1)
                              pl pg off 30) (range 0 31 1);
                     RouteData.distance_m :=
                       round (path_km (original_segment_of slope_pair
                                         (sample_scenario "flatter" 0 1))
                              * dict_get multiplier "flatter" 1 * 1000);
                     RouteData.duration_s :=
                       Some (round (path_km (original_segment_of slope_pair
                                               (sample_scenario "flatter" 0 1))
                                    * dict_get multiplier "flatter" 1 * 1000
                                    / (55 / 10)));
                     RouteData.ascent_m := Some 0%Z;
                     RouteData.descent_m := Some 0%Z;
                     RouteData.mock := Some true;
                     RouteData.surface_info := None;
                     RouteData.waytype_info := None |} <> [])
    by (cbn [RouteData.coordinates]; rewrite range_0_31; discriminate).
  destruct (Hsome Hne) as (Ha & Hd).
  split; [exact Ha|]. split; [exact Hd|].
  intros cum_km e He.
  destruct (Hbuild cum_km e He) as (_ & _ & _ & Hdelta).
  rewrite Hdelta.
  assert (Hgain : positive_gain
                    (original_segment_of slope_pair (sample_scenario "flatter" 0 1))
                  = IZR 100).
  { change (positive_gain _) with (Rmax 0 (100 - 0) + 0).
    rewrite Rmax_right; lra. }
  rewrite Hgain, round_IZR. reflexivity.
Defined.

(** The detector on the steady 150 m ascent and on three level points. *)
Lemma climb_detector_spec_witness :
  find_climb_segments ascent_route 100 50 = Ok [(0%Z, 59%Z, 150)] /\
  find_climb_segments short_route 100 50 = Ok [].
Proof.
  split.
  - apply (proj1 climb_detector_spec).
    + reflexivity.
    + simpl. repeat split; lra.
    + simpl. lra.
  - apply (proj1 (proj2 climb_detector_spec)).
    assert (Hz : Rltb 0 (300 - 300) = false) by (apply Rltb_false; lra).
    assert (Ht : Rltb 10 (Rabs (300 - 300)) = false).
    { apply Rltb_false. rewrite Rminus_diag, Rabs_R0. lra. }
    intros i j g.
    change (S (length short_route)) with 4%nat.
    destruct i as [|[|i]].
    + change (climb_run 4 short_route (Z.of_nat 0) 0)
        with (if Rltb 0 (300 - 300) then climb_run 3 short_route 1 (0 + (300 - 300))
              else if Rltb 10 (Rabs (300 - 300)) then Ok (0%Z, 0)
                   else climb_run 3 short_route 1 0).
      rewrite Hz, Ht.
      change (climb_run 3 short_route 1 0)
        with (if Rltb 0 (300 - 300) then climb_run 2 short_route 2 (0 + (300 - 300))
              else if Rltb 10 (Rabs (300 - 300)) then Ok (1%Z, 0)
                   else climb_run 2 short_route 2 0).
      rewrite Hz, Ht.
      change (climb_run 2 short_route 2 0) with (@Ok (Z * R) (2%Z, 0)).
      intros [= <- <-]. lra.
    + change (climb_run 4 short_route (Z.of_nat 1) 0)
        with (if Rltb 0 (300 - 300) then climb_run 3 short_route 2 (0 + (300 - 300))
              else if Rltb 10 (Rabs (300 - 300)) then Ok (1%Z, 0)
                   else climb_run 3 short_route 2 0).
      rewrite Hz, Ht.
      change (climb_run 3 short_route 2 0) with (@Ok (Z * R) (2%Z, 0)).
      intros [= <- <-]. lra.
    + cbn [climb_run].
      destruct (Z.ltb_spec (Z.of_nat (S (S i))) (len short_route - 1)) as [H|H].
      * change (len short_route) with 3%Z in H. lia.
      * intros [= <- <-]. lra.
Defined.

(** * Further properties of the code *)

(** ** Geodesy *)

(** [haversine] is zero from a point to itself, symmetric in its two
    points, and never exceeds half the circumference of a sphere of radius
    6371 km. *)
Theorem haversine_metric (lat1 lon1 lat2 lon2 : R) :
  haversine lat1 lon1 lat1 lon1 = 0 /\
  haversine lat1 lon1 lat2 lon2 = haversine lat2 lon2 lat1 lon1 /\
  0 <= haversine lat1 lon1 lat2 lon2 <= 6371 * PI.
Proof.
  split; [|split].
  - unfold haversine, hav_a, radians. cbv zeta.
    replace ((lat1 - lat1) * (PI / 180) / 2) with 0 by field.
    replace ((lon1 - lon1) * (PI / 180) / 2) with 0 by field.
    rewrite sin_0.
    replace (0 ^ 2 + cos (lat1 * (PI / 180)) * cos (lat1 * (PI / 180)) * 0 ^ 2)
      with 0 by ring.
    rewrite sqrt_0, asin_0. ring.
  - unfold haversine, hav_a, radians. cbv zeta. do 3 f_equal.
    replace ((lat1 - lat2) * (PI / 180) / 2)
      with (- ((lat2 - lat1) * (PI / 180) / 2)) by field.
    replace ((lon1 - lon2) * (PI / 180) / 2)
      with (- ((lon2 - lon1) * (PI / 180) / 2)) by field.
    rewrite !sin_neg. ring.
  - split; [apply haversine_nonneg|].
    unfold haversine. cbv zeta.
    pose proof (asin_bound (sqrt (hav_a lat1 lon1 lat2 lon2))) as [_ H].
    lra.
Qed.

(** ** The distance table, entry by entry *)

Lemma pair_sum_snoc (g : RoutePoint -> RoutePoint -> R) (l : list RoutePoint) :
  forall k : nat, (S k < length l)%nat ->
    pair_sum g (firstn (S (S k)) l) =
    pair_sum g (firstn (S k) l)
    + g (nth k l (mkRoutePoint 0 0 0 0 0)) (nth (S k) l (mkRoutePoint 0 0 0 0 0)).
Proof.
  induction l as [|a [|b tl] IH]; intros k Hk; cbn [length] in Hk; try lia.
  assert (Hcons : forall p q l, pair_sum g (p :: q :: l)
                                = g p q + pair_sum g (q :: l))
    by reflexivity.
  destruct k as [|k].
  - cbn. lra.
  - specialize (IH k ltac:(cbn [length]; lia)).
    cbn [firstn nth] in IH |- *.
    rewrite !Hcons. rewrite IH. lra.
Qed.

Lemma cum_loop_exact (points : list RoutePoint) (m : nat) :
  forall (k : nat) (cum : list R),
    (1 <= k)%nat -> (k + m = length points)%nat -> cum_exact points k cum ->
    exists cum',
      for_each (range_from (Z.of_nat k) 1 m) cum (cum_step points) = Ok cum' /\
      cum_exact points (length points) cum'.
Proof.
  induction m as [|m IH]; intros k cum Hk Hkm (Hlen & Hval).
  - exists cum. split; [reflexivity|].
    replace (length points) with k by lia. split; auto.
  - cbn [range_from for_each]. unfold cum_step at 1.
    replace (Z.of_nat k - 1)%Z with (Z.of_nat (k - 1)) by lia.
    rewrite (get_nat cum (k - 1) 0) by lia.
    rewrite (get_nat points (k - 1) (mkRoutePoint 0 0 0 0 0)) by lia.
    rewrite (get_nat points k (mkRoutePoint 0 0 0 0 0)) by lia.
    cbn [bind]. rewrite set_nat by lia. cbn [bind].
    replace (Z.of_nat k + 1)%Z with (Z.of_nat (S k)) by lia.
    apply IH; [lia | lia |]. split.
    + now rewrite update_length.
    + intros j Hj Hjn.
      destruct (Nat.eq_dec j k) as [-> | NE].
      * rewrite update_nth_eq by lia.
        rewrite (Hval (k - 1)%nat) by lia.
        destruct k as [|k]; [lia|].
        replace (S k - 1)%nat with k by lia.
        unfold path_km. rewrite (pair_sum_snoc _ points k) by lia.
        reflexivity.
      * rewrite update_nth_neq by lia. apply Hval; lia.
Qed.

(** The table is computed on every route, the empty one included, and
    its entry [k] is the length of the path through the points [0 .. k]. *)
Lemma precompute_cum_km_exact (points : list RoutePoint) :
  exists cum,
    precompute_cum_km points = Ok cum /\
    cum_exact points (length points) cum.
Proof.
  destruct (Nat.eq_dec (length points) 0) as [Hz | Hnz].
  - apply length_zero_iff_nil in Hz. subst points.
    exists []. split; [reflexivity|]. split; [reflexivity|].
    intros j Hj. cbn in Hj. lia.
  - unfold precompute_cum_km. rewrite range_step1.
    apply (cum_loop_exact points (Z.to_nat (len points - 1)) 1).
    + lia.
    + unfold len; lia.
    + split; [apply repeat_length|].
      intros j Hj _. assert (j = 0%nat) as -> by lia.
      destruct points as [|p tl]; [contradiction|]. reflexivity.
Qed.

(** [precompute_cum_km] never raises; the table has one entry per point
    (none for the empty route) and entry [k] is the summed great-circle
    length of the path through the first [k + 1] points. *)
Theorem cum_km_prefix_lengths (points : list RoutePoint) :
  exists cum,
    precompute_cum_km points = Ok cum /\
    length cum = length points /\
    (points = [] -> cum = []) /\
    forall k : nat, (k < length points)%nat ->
                    nth k cum 0 = path_km (firstn (S k) points).
Proof.
  destruct (precompute_cum_km_exact points) as (cum & E & Hlen & Hval).
  exists cum. repeat split; auto.
  intros ->. destruct cum; [reflexivity | discriminate].
Qed.

Lemma pair_sum_firstn_skipn (g : RoutePoint -> RoutePoint -> R)
  (l : list RoutePoint) (d : nat) :
  forall m : nat, (d + m < length l)%nat ->
    pair_sum g (firstn (S (d + m)) l) =
    pair_sum g (firstn (S d) l) + pair_sum g (firstn (S m) (skipn d l)).
Proof.
  induction m as [|m IH]; intros Hm.
  - rewrite Nat.add_0_r.
    destruct (skipn d l) as [|x tl]; cbn; lra.
  - replace (d + S m)%nat with (S (d + m)) by lia.
    rewrite (pair_sum_snoc g l (d + m)) by lia.
    rewrite (pair_sum_snoc g (skipn d l) m) by (rewrite length_skipn; lia).
    rewrite IH by lia.
    rewrite !nth_skipn.
    replace (d + S m)%nat with (S (d + m)) by lia. lra.
Qed.

(** The length of a bracketed segment, which the synthesizer and the
    builder each sum up again, is the difference of the two table entries
    at its ends. *)
Theorem cum_km_segment_length (points : list RoutePoint) (cum : list R)
  (d r : nat) :
  precompute_cum_km points = Ok cum ->
  (d <= r < length points)%nat ->
  let seg := slice points (Z.of_nat d) (Z.of_nat r + 1) in
  segment_distance seg = Ok (path_km seg) /\
  path_km seg = nth r cum 0 - nth d cum 0.
Proof.
  intros Hcum Hdr seg. split; [apply segment_distance_spec|].
  destruct (precompute_cum_km_exact points) as (cum' & E & _ & Hval).
  rewrite Hcum in E. injection E as <-.
  rewrite (Hval r), (Hval d) by lia.
  subst seg. rewrite slice_in_range by (unfold len; lia).
  replace (Z.to_nat (Z.of_nat r + 1 - Z.of_nat d)) with (S (r - d)) by lia.
  rewrite Nat2Z.id.
  unfold path_km.
  replace r with (d + (r - d))%nat at 2 by lia.
  rewrite pair_sum_firstn_skipn by lia. lra.
Qed.

(** ** Climbs: what a run is, and how runs are laid out *)

Lemma slice_cons {A} (l : list A) (a b : Z) (d : A) :
  (0 <= a < b)%Z -> (b <= len l)%Z ->
  slice l a b = nth (Z.to_nat a) l d :: slice l (a + 1) b.
Proof.
  intros Ha Hb. rewrite !slice_in_range by lia.
  replace (Z.to_nat (b - a)) with (S (Z.to_nat (b - (a + 1)))) by lia.
  replace (Z.to_nat (a + 1)) with (S (Z.to_nat a)) by lia.
  assert (Hlt : (Z.to_nat a < length l)%nat) by (unfold len in Hb; lia).
  clear Ha Hb. revert Hlt. generalize (Z.to_nat a) as n.
  induction l as [|x l IH]; intros n Hn; cbn [length] in Hn; [lia|].
  destruct n as [|n]; [reflexivity|].
  cbn [skipn nth]. apply IH. lia.
Qed.

Lemma pair_sum_short (g : RoutePoint -> RoutePoint -> R) (l : list RoutePoint) :
  (length l <= 1)%nat -> pair_sum g l = 0.
Proof. destruct l as [|a [|b tl]]; cbn; intros; try reflexivity; lia. Qed.

Lemma slice_one_length {A} (l : list A) (j : Z) :
  (0 <= j)%Z -> (length (slice l j (j + 1)) <= 1)%nat.
Proof.
  intros Hj. unfold slice, slice_bound.
  destruct (Z.ltb_spec j 0); [lia|]. destruct (Z.ltb_spec (j + 1) 0); [lia|].
  rewrite length_firstn. lia.
Qed.

Lemma positive_gain_step (points : list RoutePoint) (j j' : Z) :
  (0 <= j < j')%Z -> (j' <= len points - 1)%Z ->
  positive_gain (slice points j (j' + 1)) =
  Rmax 0 (alt_step points j) + positive_gain (slice points (j + 1) (j' + 1)).
Proof.
  intros Hj Hj'. unfold positive_gain, alt_step, point_at.
  rewrite (slice_cons points j (j' + 1) (mkRoutePoint 0 0 0 0 0)) by lia.
  rewrite (slice_cons points (j + 1) (j' + 1) (mkRoutePoint 0 0 0 0 0)) by lia.
  reflexivity.
Qed.

(** Whatever the inner loop returns is a run in the sense of [is_run],
    on top of the gain it was started with. *)
Lemma climb_run_char (points : list RoutePoint) (fuel : nat) :
  forall (j : Z) (gain : R) (j' : Z) (g : R),
    (0 <= j)%Z ->
    climb_run fuel points j gain = Ok (j', g) ->
    is_run points j j' (g - gain).
Proof.
  induction fuel as [|fuel IH]; intros j gain j' g Hj H; cbn [climb_run] in H;
    [discriminate|].
  assert (Hstop : (j <= j)%Z /\ (j <= Z.max j (len points - 1))%Z /\
                  gain - gain = positive_gain (slice points j (j + 1)) /\
                  forall k, (j <= k < j)%Z -> -10 <= alt_step points k).
  { split; [lia|]. split; [lia|]. split.
    - unfold positive_gain. rewrite pair_sum_short; [lra|].
      now apply slice_one_length.
    - intros k Hk; lia. }
  destruct (Z.ltb_spec j (len points - 1)) as [Hlt|Hge].
  - rewrite !get_point_at in H by lia. cbn [bind] in H.
    fold (alt_step points j) in H.
    destruct (Rltb 0 (alt_step points j)) eqn:Hpos.
    + apply Rltb_true in Hpos.
      apply IH in H as (H1 & H2 & H3 & H4 & H5); [|lia].
      repeat split; try lia.
      * rewrite positive_gain_step by lia. rewrite Rmax_right by lra. lra.
      * intros k Hk. destruct (Z.eq_dec k j) as [-> | NE]; [lra|].
        apply H4; lia.
      * assumption.
    + apply Rltb_false in Hpos.
      destruct (Rltb 10 (Rabs (alt_step points j))) eqn:Hdip.
      * apply Rltb_true in Hdip. injection H as <- <-.
        destruct Hstop as (S1 & S2 & S3 & S4).
        repeat split; auto.
        intros _. rewrite Rabs_left1 in Hdip by assumption. lra.
      * apply Rltb_false in Hdip.
        apply IH in H as (H1 & H2 & H3 & H4 & H5); [|lia].
        repeat split; try lia.
        -- rewrite positive_gain_step by lia. rewrite Rmax_left by lra. lra.
        -- intros k Hk. destruct (Z.eq_dec k j) as [-> | NE]; [|apply H4; lia].
           rewrite Rabs_left1 in Hdip by assumption. lra.
        -- assumption.
  - injection H as <- <-. destruct Hstop as (S1 & S2 & S3 & S4).
    repeat split; auto. intros; lia.
Qed.

(** Every climb [find_climb_segments] returns is a run: its reported gain
    is the sum of the positive altitude steps between its two indices, no
    step inside it loses more than 10 m, it stops at the last point or right
    before a step that loses more than 10 m, and it meets both thresholds. *)
Theorem climbs_are_runs (points : list RoutePoint) (min_gain_m : R)
  (window : Z) :
  exists climbs,
    find_climb_segments points min_gain_m window = Ok climbs /\
    forall i j gain, In (i, j, gain) climbs ->
      is_run points i j gain /\ min_gain_m <= gain /\ (window <= j - i)%Z.
Proof.
  destruct (find_climb_segments_total points min_gain_m window)
    as (climbs & E & Hq).
  exists climbs. split; [assumption|].
  intros i j gain Hin.
  pose proof (proj1 (Forall_forall _ _) Hq _ Hin) as (Hi & Hrun & Hg & Hw).
  apply climb_run_char in Hrun; [|assumption].
  replace (gain - 0) with gain in Hrun by lra. auto.
Qed.

Lemma climbs_from_weaken (climbs : list Climb) (i i' : Z) :
  (i <= i')%Z -> climbs_from i' climbs -> climbs_from i climbs.
Proof.
  destruct climbs as [|[[a b] g] tl]; cbn; [auto|].
  intros Hi (H1 & H2 & H3). repeat split; auto; lia.
Qed.

(** The outer loop lays its climbs out in route order, one after the
    other. *)
Lemma climb_scan_chain (points : list RoutePoint) (min_gain_m : R)
  (window : Z) (fuel : nat) :
  forall (i : Z) (climbs : list Climb),
    (0 <= i)%Z -> (Z.max 0 (len points - window - i) < Z.of_nat fuel)%Z ->
    exists out,
      climb_scan fuel points min_gain_m window i climbs = Ok (climbs ++ out) /\
      climbs_from i out.
Proof.
  induction fuel as [|fuel IH]; intros i climbs Hi Hfuel; cbn [climb_scan].
  - lia.
  - destruct (Z.ltb_spec i (len points - window)) as [Hlt|Hge].
    + destruct (climb_run_ok points i Hi) as (j & g & E & Hij).
      rewrite E. cbn [bind].
      destruct (Rleb min_gain_m g && (window <=? j - i)%Z).
      * destruct (IH (j + 1)%Z (climbs ++ [(i, j, g)])) as (out & E' & Hout);
          try lia.
        exists ((i, j, g) :: out). split.
        -- rewrite E'. now rewrite <- app_assoc.
        -- cbn. repeat split; auto; lia.
      * destruct (IH (i + 1)%Z climbs) as (out & E' & Hout); try lia.
        exists out. split; [assumption|].
        apply (climbs_from_weaken out i (i + 1)); [lia | assumption].
    + exists []. split; [now rewrite app_nil_r | exact I].
Qed.

Lemma climbs_from_count (points : list RoutePoint) (min_gain_m : R)
  (window : Z) (climbs : list Climb) :
  (0 < window)%Z ->
  Forall (qualifying_run points min_gain_m window) climbs ->
  forall i, (0 <= i)%Z -> climbs_from i climbs ->
    (i + (window + 1) * len climbs <= Z.max i (len points))%Z.
Proof.
  intros Hw Hq. induction Hq as [|[[a b] g] tl Hc _ IH]; intros i Hi Hchain.
  - cbn. lia.
  - cbn [climbs_from] in Hchain. destruct Hchain as (H1 & H2 & H3).
    apply qualifying_run_bounds in Hc as (B1 & B2 & B3); [|assumption].
    specialize (IH (b + 1)%Z ltac:(lia) H3).
    unfold len in *. cbn [length]. lia.
Qed.

(** With a positive window the climbs come in route order and do not
    overlap: each lies inside the route, spans at least [window] indices and
    starts after the previous one ended.  So there are at most
    [len / (window + 1)] of them, and none on a route of [window] points or
    fewer. *)
Theorem climbs_ordered_disjoint (points : list RoutePoint) (min_gain_m : R)
  (window : Z) :
  (0 < window)%Z ->
  exists climbs,
    find_climb_segments points min_gain_m window = Ok climbs /\
    climbs_from 0 climbs /\
    (forall i j gain, In (i, j, gain) climbs ->
       (0 <= i /\ i + window <= j /\ j <= len points - 1)%Z) /\
    ((window + 1) * len climbs <= len points)%Z /\
    ((len points <= window)%Z -> climbs = []).
Proof.
  intros Hw.
  destruct (find_climb_segments_total points min_gain_m window)
    as (climbs & E & Hq).
  destruct (climb_scan_chain points min_gain_m window
              (S (Z.to_nat (len points - window))) 0 [])
    as (out & E' & Hchain); try lia.
  unfold find_climb_segments in E. rewrite E in E'. injection E' as ->.
  cbn [app] in *.
  exists out. split; [assumption|]. split; [assumption|].
  assert (Hbounds : forall i j gain, In (i, j, gain) out ->
             (0 <= i /\ i + window <= j /\ j <= len points - 1)%Z).
  { intros i j gain Hin.
    apply (qualifying_run_bounds points min_gain_m window i j gain); [|assumption].
    exact (proj1 (Forall_forall _ _) Hq _ Hin). }
  pose proof (climbs_from_count points min_gain_m window out Hw Hq 0
                ltac:(lia) Hchain) as Hcount.
  pose proof (len_nonneg points).
  split; [assumption|]. split; [lia|].
  intros Hshort. destruct out as [|[[i j] g] tl]; [reflexivity|].
  specialize (Hbounds i j g (or_introl eq_refl)). lia.
Qed.

(** ** The sector list *)

Lemma insert_by_perm {A} (key : A -> Z) (x : A) (l : list A) :
  Permutation (x :: l) (insert_by key x l).
Proof.
  induction l as [|y l IH]; cbn; [reflexivity|].
  destruct (key x <=? key y)%Z; [reflexivity|].
  rewrite perm_swap. now constructor.
Qed.

Lemma sorted_by_perm {A} (key : A -> Z) (l : list A) :
  Permutation l (sorted_by key l).
Proof.
  induction l as [|x l IH]; cbn; [constructor|].
  rewrite <- insert_by_perm. now constructor.
Qed.

Lemma insert_by_sorted {A} (key : A -> Z) (x : A) (l : list A) :
  StronglySorted (fun a b => (key a <= key b)%Z) l ->
  StronglySorted (fun a b => (key a <= key b)%Z) (insert_by key x l).
Proof.
  induction 1 as [|y l Hs IH Hall]; cbn.
  - repeat constructor.
  - destruct (Z.leb_spec (key x) (key y)) as [Hle|Hgt].
    + constructor; [now constructor|].
      constructor; [assumption|].
      eapply Forall_impl; [|exact Hall]. cbv beta. intros; lia.
    + constructor; [assumption|].
      apply Forall_forall. intros z Hz. apply insert_by_In in Hz as [-> | Hz].
      * lia.
      * exact (proj1 (Forall_forall _ _) Hall z Hz).
Qed.

Lemma sorted_by_sorted {A} (key : A -> Z) (l : list A) :
  StronglySorted (fun a b => (key a <= key b)%Z) (sorted_by key l).
Proof.
  induction l as [|x l IH]; cbn; [constructor|]. now apply insert_by_sorted.
Qed.

Lemma insert_by_filter {A} (key : A -> Z) (k : Z) (x : A) (l : list A) :
  filter (fun s => (key s =? k)%Z) (insert_by key x l) =
  filter (fun s => (key s =? k)%Z) (x :: l).
Proof.
  induction l as [|y l IH]; cbn [insert_by]; [reflexivity|].
  destruct (Z.leb_spec (key x) (key y)) as [Hle|Hgt]; [reflexivity|].
  cbn [filter] in *. rewrite IH.
  destruct (Z.eqb_spec (key x) k), (Z.eqb_spec (key y) k); try reflexivity.
  lia.
Qed.

Lemma sorted_by_filter {A} (key : A -> Z) (k : Z) (l : list A) :
  filter (fun s => (key s =? k)%Z) (sorted_by key l) =
  filter (fun s => (key s =? k)%Z) l.
Proof.
  induction l as [|x l IH]; cbn [sorted_by]; [reflexivity|].
  rewrite insert_by_filter. cbn [filter]. now rewrite IH.
Qed.

(** [find_gravel_sectors] returns the named and the gravel sectors, every
    one of them once, in non-decreasing order of [from_index]; sectors that
    start at the same index keep the order they had, named before gravel.
    A missing key counts as an empty list. *)
Theorem gravel_sectors_sorted (segments : Segments) :
  let named := get_or (named_sectors segments) [] in
  let gravel := get_or (gravel_sectors segments) [] in
  let sectors := find_gravel_sectors segments in
  Permutation (named ++ gravel) sectors /\
  StronglySorted (fun a b => (from_index a <= from_index b)%Z) sectors /\
  (forall k : Z,
      filter (fun s => (from_index s =? k)%Z) sectors =
      (filter (fun s => (from_index s =? k)%Z) named ++
       filter (fun s => (from_index s =? k)%Z) gravel)%list) /\
  (named_sectors segments = None -> sectors = sorted_by from_index gravel) /\
  (gravel_sectors segments = None -> sectors = sorted_by from_index named) /\
  (sectors = [] <-> named = [] /\ gravel = []).
Proof.
  intros named gravel sectors. subst sectors. unfold find_gravel_sectors.
  fold named gravel.
  split; [apply sorted_by_perm|]. split; [apply sorted_by_sorted|].
  split; [intros k; now rewrite sorted_by_filter, filter_app|].
  split; [intros E; subst named; now rewrite E|].
  split; [intros E; subst gravel; rewrite E; cbn; now rewrite app_nil_r|].
  rewrite sorted_by_nil. split.
  - intros E. now apply app_eq_nil in E.
  - intros [-> ->]. reflexivity.
Qed.

(** ** The empty route *)

Lemma paved_block_total (sectors : list Sector) (total : Z) :
  exists s3, paved_block sectors total = Ok s3.
Proof.
  destruct sectors as [|g tl]; [eexists; reflexivity|].
  destruct (paved_block_spec (g :: tl) total) as (? & s & _ & _ & E & _);
    [discriminate | eauto].
Qed.

(** On the empty route the table is empty and the climb list too, but
    the selector raises [ValueError] (the highest point of no points), and
    the batch raises [IndexError] before it reaches the selector (the last
    entry of an empty table), whatever the segments and the provider. *)
Theorem empty_route_errors (segments : Segments) (provider : option Provider) :
  precompute_cum_km [] = Ok [] /\
  find_climb_segments [] 100 50 = Ok [] /\
  pick_scenarios [] segments = Raise ValueError /\
  generate_alternatives provider [] segments = Raise IndexError.
Proof.
  split; [reflexivity|]. split; [reflexivity|]. split; [|reflexivity].
  unfold pick_scenarios.
  change (find_climb_segments [] 100 50) with (@Ok (list Climb) []).
  cbn [bind]. change (len (@nil RoutePoint)) with 0%Z.
  change (flatter_block [] 0) with (@Ok (list AlternativeScenario) []).
  cbn [bind].
  destruct (paved_block_total (find_gravel_sectors segments) 0) as (s3 & ->).
  reflexivity.
Qed.

(** ** Ties in [max]: the first one wins *)

Section MaxFirst.

Context {A : Type} (key : A -> result R) (k : A -> R).

Lemma max_loop_first : forall (l : list A) (best : A),
  (forall x, In x l -> key x = Ok (k x)) ->
  exists b,
    max_loop key l best (k best) = Ok b /\
    ((b = best /\ forall x, In x l -> k x <= k best) \/
     exists l1 l2,
       l = (l1 ++ b :: l2)%list /\ k best < k b /\
       (forall x, In x l1 -> k x < k b) /\
       (forall x, In x l2 -> k x <= k b)).
Proof.
  induction l as [|y l IH]; intros best Hkey; cbn [max_loop].
  - exists best. split; [reflexivity|]. left. split; [reflexivity|]. intros x [].
  - rewrite (Hkey y) by now left. cbn [bind].
    assert (Hl : forall x, In x l -> key x = Ok (k x))
      by (intros x Hx; apply Hkey; now right).
    destruct (Rltb (k best) (k y)) eqn:E.
    + apply Rltb_true in E.
      destruct (IH y Hl) as (b & Eb & [[-> Hall] | (l1 & l2 & -> & Hlt & H1 & H2)]).
      * exists y. split; [assumption|]. right. exists [], l. repeat split; auto.
        intros x [].
      * exists b. split; [assumption|]. right. exists (y :: l1), l2.
        repeat split; auto; [lra|].
        intros x [<- | Hx]; auto.
    + apply Rltb_false in E.
      destruct (IH best Hl)
        as (b & Eb & [[-> Hall] | (l1 & l2 & -> & Hlt & H1 & H2)]).
      * exists best. split; [assumption|]. left. split; [reflexivity|].
        intros x [<- | Hx]; auto.
      * exists b. split; [assumption|]. right. exists (y :: l1), l2.
        repeat split; auto.
        intros x [<- | Hx]; auto. lra.
Qed.

(** [max] returns the first element of greatest key: everything before
    it has a strictly smaller key, nothing after it a greater one. *)
Lemma max_by_first (l : list A) :
  l <> [] ->
  (forall x, In x l -> key x = Ok (k x)) ->
  exists b l1 l2,
    max_by key l = Ok b /\ l = (l1 ++ b :: l2)%list /\
    (forall x, In x l1 -> k x < k b) /\
    (forall x, In x l2 -> k x <= k b).
Proof.
  destruct l as [|x l]; [congruence|]. intros _ Hkey.
  cbn [max_by]. rewrite (Hkey x) by now left. cbn [bind].
  destruct (max_loop_first l x)
    as (b & Eb & [[-> Hall] | (l1 & l2 & -> & Hlt & H1 & H2)]).
  - intros y Hy; apply Hkey; now right.
  - exists x, [], l. repeat split; auto. intros y [].
  - exists b, (x :: l1), l2. repeat split; auto.
    intros y [<- | Hy]; auto.
Qed.

End MaxFirst.

Lemma range_from_split (n : nat) : forall (a h : Z) (l1 l2 : list Z),
  range_from a 1 n = (l1 ++ h :: l2)%list ->
  forall i, (a <= i < h)%Z -> In i l1.
Proof.
  induction n as [|n IH]; intros a h l1 l2 E i Hi; cbn [range_from] in E.
  - destruct l1; discriminate.
  - destruct l1 as [|x l1]; cbn [app] in E; injection E as Ex El.
    + lia.
    + subst x. destruct (Z.eq_dec i a) as [-> | NE]; [now left|].
      right. apply (IH (a + 1)%Z h l1 l2 El). lia.
Qed.

(** ** The flatter, sheltered and paved scenarios *)

Lemma flatter_block_first (climbs : list Climb) (total : Z) :
  climbs <> [] ->
  exists before i j g after,
    climbs = (before ++ (i, j, g) :: after)%list /\
    (forall c, In c before -> snd c < g) /\
    (forall c, In c after -> snd c <= g) /\
    flatter_block climbs total =
    Ok [ {| query_value := "flatter";
            label := "Valley bypass";
            diverge_index := Z.max 0 (i - 200);
            rejoin_index := Z.min (total - 1) (j + 200);
            avoid_features := [];
            preference := "recommended";
            ors_profile := "cycling-regular";
            description :=
              ("Avoids the biggest climb (" ++ format_f 0 g ++ "m gain). " ++
               "Routes through the valley on lower-gradient roads.")%string;
            extra_waypoints := [] |} ].
Proof.
  intros Hne.
  destruct (max_by_first (fun c : Climb => Ok (snd c)) snd climbs Hne)
    as ([[i j] g] & l1 & l2 & E & Hsplit & H1 & H2); [reflexivity|].
  exists l1, i, j, g, l2. repeat split; auto.
  unfold flatter_block. destruct climbs as [|c0 tl]; [congruence|].
  rewrite E. reflexivity.
Qed.

(** When a climb was detected, the flatter scenario brackets the climb of
    greatest gain, the earliest one if several share it, 200 indices before
    its start and after its end but inside the route; the bracket is valid
    whatever the length of the route, and the gain is quoted in the
    description. *)
Theorem flatter_brackets_biggest (points : list RoutePoint)
  (segments : Segments) (climbs : list Climb) :
  points <> [] ->
  find_climb_segments points 100 50 = Ok climbs ->
  climbs <> [] ->
  exists before i j g after scenarios s,
    climbs = (before ++ (i, j, g) :: after)%list /\
    (forall c, In c before -> snd c < g) /\
    (forall c, In c after -> snd c <= g) /\
    pick_scenarios points segments = Ok scenarios /\
    hd_error scenarios = Some s /\
    query_value s = "flatter"%string /\
    diverge_index s = Z.max 0 (i - 200) /\
    rejoin_index s = Z.min (len points - 1) (j + 200) /\
    (0 <= diverge_index s /\ diverge_index s < rejoin_index s /\
     rejoin_index s <= len points - 1)%Z /\
    description s =
      ("Avoids the biggest climb (" ++ format_f 0 g ++ "m gain). " ++
       "Routes through the valley on lower-gradient roads.")%string.
Proof.
  intros Hne Hc Hclimbs.
  destruct (pick_scenarios_blocks points segments Hne)
    as (climbs' & s1 & s2 & s3 & s4 & s5 & Ec & E1 & _ & _ & _ & _ & E).
  rewrite Hc in Ec. injection Ec as <-.
  destruct (flatter_block_first climbs (len points) Hclimbs)
    as (before & i & j & g & after & Hsplit & H1 & H2 & Es).
  rewrite Es in E1. injection E1 as <-.
  destruct (find_climb_segments_total points 100 50) as (climbs' & Ec' & Hq).
  rewrite Hc in Ec'. injection Ec' as <-.
  assert (Hin : In (i, j, g) climbs)
    by (rewrite Hsplit; apply in_or_app; right; now left).
  pose proof (proj1 (Forall_forall _ _) Hq _ Hin) as Hrun.
  apply qualifying_run_bounds in Hrun; [|lia].
  eexists before, i, j, g, after, _, _.
  split; [assumption|]. split; [assumption|]. split; [assumption|].
  split; [exact E|].
  split; [reflexivity|].
  cbn [query_value diverge_index rejoin_index description].
  repeat split; try reflexivity; lia.
Qed.

(** The sheltered scenario brackets the highest point of the route, the
    first one if several are as high, 300 indices to each side but inside
    the route; on a route of two points or more the bracket is valid. *)
Theorem sheltered_brackets_highest (points : list RoutePoint)
  (segments : Segments) :
  points <> [] ->
  exists h scenarios s,
    (0 <= h < len points)%Z /\
    (forall i, (0 <= i < len points)%Z ->
               alt (point_at points i) <= alt (point_at points h)) /\
    (forall i, (0 <= i < h)%Z ->
               alt (point_at points i) < alt (point_at points h)) /\
    pick_scenarios points segments = Ok scenarios /\
    last scenarios s = s /\ In s scenarios /\
    query_value s = "sheltered"%string /\
    diverge_index s = Z.max 0 (h - 300) /\
    rejoin_index s = Z.min (len points - 1) (h + 300) /\
    ((2 <= len points)%Z ->
     (0 <= diverge_index s /\ diverge_index s < rejoin_index s /\
      rejoin_index s <= len points - 1)%Z).
Proof.
  intros Hne.
  assert (Hpos : (0 < len points)%Z).
  { unfold len. destruct points; [congruence | cbn; lia]. }
  destruct (pick_scenarios_blocks points segments Hne)
    as (climbs & s1 & s2 & s3 & s4 & s5 & _ & _ & _ & _ & _ & E5 & E).
  destruct (max_by_first (fun i => p <- get points i ;; Ok (alt p))
                         (fun i => alt (point_at points i))
                         (range 0 (len points) 1))
    as (h & l1 & l2 & Emax & Hsplit & H1 & H2).
  { rewrite range_step1.
    destruct (Z.to_nat (len points - 0)) eqn:En; [lia | discriminate]. }
  { intros i Hi. apply range_In in Hi as (k & Hk & -> & Hlt); [|lia].
    rewrite get_point_at by lia. reflexivity. }
  assert (Hh : In h (range 0 (len points) 1))
    by (rewrite Hsplit; apply in_or_app; right; now left).
  apply range_In in Hh as (k & Hk & Ek & Hlt); [|lia].
  assert (k = h) by lia. subst k. clear Ek.
  unfold sheltered_block in E5. rewrite Emax in E5. cbn [bind] in E5.
  injection E5 as <-.
  eexists h, _, _.
  split; [lia|]. split.
  { intros i Hi.
    assert (Hi' : In i (range 0 (len points) 1))
      by (apply range_In; [lia|]; exists i; lia).
    rewrite Hsplit in Hi'. apply in_app_or in Hi' as [Hi' | [<- | Hi']].
    - left. now apply H1.
    - lra.
    - now apply H2. }
  split.
  { intros i Hi. apply H1. rewrite range_step1 in Hsplit.
    apply (range_from_split _ _ _ _ _ Hsplit). lia. }
  split; [exact E|].
  split.
  { rewrite !app_assoc. apply last_last. }
  split; [do 4 (apply in_or_app; right); now left|].
  cbn [query_value diverge_index rejoin_index].
  repeat split; try reflexivity; lia.
Qed.


(** ** Routing options *)

Lemma blocks_routing (points : list RoutePoint) (climbs : list Climb)
  (sectors : list Sector) (total : Z) (l : list AlternativeScenario) :
  flatter_block climbs total = Ok l \/
  shorter_block points total = Ok l \/
  paved_block sectors total = Ok l \/
  scenic_block points total = Ok l \/
  sheltered_block points total = Ok l ->
  Forall routing_by_name l.
Proof.
  intros [H | [H | [H | [H | H]]]].
  - unfold flatter_block in H. destruct climbs as [|c tl].
    + injection H as <-. constructor.
    + destruct (max_by _ _) as [[[a b] g]|]; [|discriminate].
      cbn [bind] in H. injection H as <-.
      repeat constructor.
  - unfold shorter_block in H.
    destruct (shortcut_search _ _ _) as [st|]; [|discriminate].
    cbn [bind] in H. destruct (snd st) as [[i j]|]; injection H as <-;
      repeat constructor.
  - unfold paved_block in H. destruct sectors as [|g tl].
    + injection H as <-. constructor.
    + destruct (max_by _ _) as [g'|]; [|discriminate].
      cbn [bind] in H. injection H as <-. repeat constructor.
  - unfold scenic_block in H.
    destruct (flattest_search _ _ _) as [st|]; [|discriminate].
    cbn [bind] in H. injection H as <-. repeat constructor.
  - unfold sheltered_block in H.
    destruct (max_by _ _) as [h|]; [|discriminate].
    cbn [bind] in H. injection H as <-. repeat constructor.
Qed.

Lemma pick_scenarios_routing (points : list RoutePoint)
  (segments : Segments) (scenarios : list AlternativeScenario) :
  pick_scenarios points segments = Ok scenarios ->
  Forall routing_by_name scenarios.
Proof.
  intros H. unfold pick_scenarios in H.
  destruct (find_climb_segments points 100 50) as [climbs|]; [|discriminate].
  cbn [bind] in H.
  destruct (flatter_block _ _) as [s1|] eqn:E1; [|discriminate].
  cbn [bind] in H.
  destruct (shorter_block _ _) as [s2|] eqn:E2; [|discriminate].
  cbn [bind] in H.
  destruct (paved_block _ _) as [s3|] eqn:E3; [|discriminate].
  cbn [bind] in H.
  destruct (scenic_block _ _) as [s4|] eqn:E4; [|discriminate].
  cbn [bind] in H.
  destruct (sheltered_block _ _) as [s5|] eqn:E5; [|discriminate].
  cbn [bind] in H. injection H as <-.
  repeat (apply Forall_app; split);
    eapply (blocks_routing points climbs (find_gravel_sectors segments));
    eauto 6.
Qed.

(** Whatever the selector returns, the routing options of a scenario are
    fixed by its name: shortest preference for shorter and recommended
    otherwise, the road profile for paved and the regular one otherwise, and
    never any feature to avoid nor any intermediate waypoint. *)
Theorem scenarios_routing_by_name (points : list RoutePoint)
  (segments : Segments) (scenarios : list AlternativeScenario) :
  pick_scenarios points segments = Ok scenarios ->
  forall s, In s scenarios ->
    avoid_features s = [] /\ extra_waypoints s = [] /\
    preference s = preference_of (query_value s) /\
    ors_profile s = profile_of (query_value s) /\
    label s = label_of (query_value s).
Proof.
  intros H s Hs.
  exact (proj1 (Forall_forall _ _) (pick_scenarios_routing _ _ _ H) s Hs).
Qed.

(** ** The scenic scenario: the flattest window *)

Lemma max_loop_fold (l : list R) : forall b : R,
  max_loop (fun x => Ok x) l b b = Ok (fold_left Rmax l b).
Proof.
  induction l as [|y l IH]; intros b; cbn [max_loop fold_left bind];
    [reflexivity|].
  destruct (Rltb b y) eqn:E.
  - apply Rltb_true in E. rewrite Rmax_right by lra. apply IH.
  - apply Rltb_false in E. rewrite Rmax_left by lra. apply IH.
Qed.

Lemma min_loop_fold (l : list R) : forall b : R,
  min_loop l b = fold_left Rmin l b.
Proof.
  induction l as [|y l IH]; intros b; cbn [min_loop fold_left]; [reflexivity|].
  destruct (Rltb y b) eqn:E.
  - apply Rltb_true in E. rewrite Rmin_right by lra. apply IH.
  - apply Rltb_false in E. rewrite Rmin_left by lra. apply IH.
Qed.

Lemma py_max_min_spread (l : list R) :
  l <> [] ->
  exists hi lo, py_max l = Ok hi /\ py_min l = Ok lo /\ hi - lo = spread l.
Proof.
  destruct l as [|x tl]; [congruence|]. intros _.
  exists (fold_left Rmax tl x), (fold_left Rmin tl x).
  unfold py_max, py_min, max_by. cbn [bind].
  rewrite max_loop_fold, min_loop_fold. repeat split.
Qed.

Lemma fold_Rmax_spec (l : list R) : forall b : R,
  (fold_left Rmax l b = b \/ In (fold_left Rmax l b) l) /\
  b <= fold_left Rmax l b /\
  forall x, In x l -> x <= fold_left Rmax l b.
Proof.
  induction l as [|y l IH]; intros b; cbn [fold_left].
  - repeat split; auto; try lra. intros x [].
  - destruct (IH (Rmax b y)) as (Hin & Hge & Hall).
    pose proof (Rmax_l b y). pose proof (Rmax_r b y).
    split; [|split].
    + destruct Hin as [E | Hin]; [|right; now right].
      rewrite E. unfold Rmax. destruct (Rle_dec b y); [right; now left | now left].
    + lra.
    + intros x [<- | Hx]; [lra | auto].
Qed.

Lemma fold_Rmin_spec (l : list R) : forall b : R,
  (fold_left Rmin l b = b \/ In (fold_left Rmin l b) l) /\
  fold_left Rmin l b <= b /\
  forall x, In x l -> fold_left Rmin l b <= x.
Proof.
  induction l as [|y l IH]; intros b; cbn [fold_left].
  - repeat split; auto; try lra. intros x [].
  - destruct (IH (Rmin b y)) as (Hin & Hge & Hall).
    pose proof (Rmin_l b y). pose proof (Rmin_r b y).
    split; [|split].
    + destruct Hin as [E | Hin]; [|right; now right].
      rewrite E. unfold Rmin. destruct (Rle_dec b y); [now left | right; now left].
    + lra.
    + intros x [<- | Hx]; [lra | auto].
Qed.

(** [spread] is what its name says: the difference between an element
    no other exceeds and an element none is below. *)
Lemma spread_spec (l : list R) :
  l <> [] ->
  exists hi lo,
    In hi l /\ In lo l /\ (forall x, In x l -> lo <= x <= hi) /\
    spread l = hi - lo.
Proof.
  destruct l as [|x tl]; [congruence|]. intros _. cbn [spread].
  destruct (fold_Rmax_spec tl x) as (Hi1 & Hi2 & Hi3).
  destruct (fold_Rmin_spec tl x) as (Lo1 & Lo2 & Lo3).
  exists (fold_left Rmax tl x), (fold_left Rmin tl x).
  split; [destruct Hi1 as [-> | H]; [now left | now right]|].
  split; [destruct Lo1 as [-> | H]; [now left | now right]|].
  split; [|reflexivity].
  intros y [<- | Hy]; split; auto.
Qed.

Lemma window_alts_nonempty (points : list RoutePoint) (i : Z) :
  window_alts points i <> [].
Proof.
  unfold window_alts. rewrite range_step1.
  replace (i + 300 - i)%Z with 300%Z by lia. discriminate.
Qed.

(** The search returns; either it visited no window and kept start 0, or
    its start is the first visited window of least spread. *)
Lemma flattest_search_inv (points : list RoutePoint) (fte : Z) :
  (fte <= len points)%Z ->
  exists st,
    flattest_search points fte 300 = Ok st /\
    flattest_inv points (range 0 (fte - 300) 50) st.
Proof.
  intros Hfte. unfold flattest_search.
  apply (for_each_inv (flattest_inv points) _ _ []).
  - split; reflexivity.
  - intros pre i st Hi HP.
    apply range_In in Hi as (k & Hk & Ei & Hlt); [|lia].
    rewrite (map_m_ok _ (fun j => alt (point_at points j))).
    2:{ intros j Hj. apply range_In in Hj as (m & Hm & -> & Hlt'); [|lia].
        rewrite get_point_at by lia. reflexivity. }
    cbn [bind]. fold (window_alts points i).
    destruct (py_max_min_spread _ (window_alts_nonempty points i))
      as (hi & lo & -> & -> & Hsp).
    cbn [bind]. fold (window_spread points i) in Hsp. rewrite Hsp.
    unfold flattest_inv in HP |- *.
    destruct st as [fs [v|]]; cbn [fst snd lt_inf] in *.
    + destruct HP as (Hv & l1 & l2 & Hpre & H1 & H2).
      destruct (Rltb (window_spread points i) v) eqn:E.
      * apply Rltb_true in E.
        eexists. split; [reflexivity|]. cbn [fst snd].
        split; [reflexivity|]. exists pre, []. split; [reflexivity|].
        split; [|intros x []].
        intros x Hx. rewrite Hpre in Hx.
        apply in_app_or in Hx as [Hx | [<- | Hx]].
        -- specialize (H1 x Hx). lra.
        -- lra.
        -- specialize (H2 x Hx). lra.
      * apply Rltb_false in E.
        eexists. split; [reflexivity|]. cbn [fst snd].
        split; [assumption|]. exists l1, (l2 ++ [i])%list. split.
        -- rewrite Hpre. rewrite <- app_assoc. reflexivity.
        -- split; [assumption|].
           intros x Hx. apply in_app_or in Hx as [Hx | [<- | []]]; auto.
    + destruct HP as (-> & ->).
      eexists. split; [reflexivity|]. cbn [fst snd].
      split; [reflexivity|]. exists [], []. repeat split; intros x [].
Qed.

Lemma range_50_split (n : nat) : forall (a h : Z) (l1 l2 : list Z),
  range_from a 50 n = (l1 ++ h :: l2)%list ->
  forall i, In i (range_from a 50 n) -> (i < h)%Z -> In i l1.
Proof.
  induction n as [|n IH]; intros a h l1 l2 E i Hi Hlt; cbn [range_from] in *.
  - destruct Hi.
  - destruct l1 as [|x l1]; cbn [app] in E; injection E as Ex El.
    + subst h. destruct Hi as [<- | Hi]; [lia|].
      apply range_from_In in Hi as (k & _ & ->). lia.
    + subst x. destruct Hi as [<- | Hi]; [now left|].
      right. now apply (IH (a + 50)%Z h l1 l2 El).
Qed.

(** The scenic scenario starts from the flattest window of 300 points
    among those starting at multiples of 50 that end before the first third
    of the route does: no such window has a smaller spread between its
    highest and lowest altitude, and every earlier one has a larger spread.
    It diverges there, or at index 50 if that is later, and rejoins 300
    indices after the window start.  A route too short for a window (fewer
    than 903 points) uses window start 0. *)
Theorem scenic_flattest_window (points : list RoutePoint) (segments : Segments) :
  points <> [] ->
  let fte := (len points / 3)%Z in
  exists fs scenarios s,
    pick_scenarios points segments = Ok scenarios /\
    In s scenarios /\
    query_value s = "scenic"%string /\
    diverge_index s = Z.max 50 fs /\
    rejoin_index s = Z.min (len points - 1) (fs + 300) /\
    ((fte <= 300)%Z -> fs = 0%Z) /\
    ((300 < fte)%Z ->
     window_start fte fs /\
     rejoin_index s = (fs + 300)%Z /\
     forall i, window_start fte i ->
       window_spread points fs <= window_spread points i /\
       ((i < fs)%Z -> window_spread points fs < window_spread points i)) /\
    (forall i, (0 <= i)%Z -> (i + 300 <= len points)%Z ->
       exists hi lo,
         (i <= hi < i + 300)%Z /\ (i <= lo < i + 300)%Z /\
         (forall j, (i <= j < i + 300)%Z ->
            alt (point_at points lo) <= alt (point_at points j)
              <= alt (point_at points hi)) /\
         window_spread points i
           = alt (point_at points hi) - alt (point_at points lo)).
Proof.
  intros Hne fte.
  pose proof (thirds_bounds (len points) (len_nonneg points)) as (T1 & T2 & T3).
  destruct (pick_scenarios_blocks points segments Hne)
    as (climbs & s1 & s2 & s3 & s4 & s5 & _ & _ & _ & _ & E4 & _ & E).
  destruct (flattest_search_inv points fte) as (st & Est & Hinv);
    [subst fte; lia|].
  unfold scenic_block in E4. fold fte in E4. rewrite Est in E4.
  cbn [bind] in E4. injection E4 as <-.
  eexists (fst st), _, _.
  split; [exact E|].
  split; [do 3 (apply in_or_app; right); apply in_or_app; left; now left|].
  cbn [query_value diverge_index rejoin_index].
  split; [reflexivity|]. split; [reflexivity|]. split; [reflexivity|].
  assert (Hrange : forall i, In i (range 0 (fte - 300) 50) <-> window_start fte i).
  { intros i. rewrite range_In by lia. unfold window_start. split.
    - intros (k & Hk & -> & Hlt). split; [exists k; lia | lia].
    - intros ((k & Hk & ->) & Hlt). exists k. lia. }
  split; [|split].
  - intros Hshort. unfold flattest_inv in Hinv.
    destruct (snd st) as [v|].
    + destruct Hinv as (_ & l1 & l2 & Hsplit & _).
      assert (Hin : In (fst st) (range 0 (fte - 300) 50))
        by (rewrite Hsplit; apply in_or_app; right; now left).
      apply Hrange in Hin as ((k & Hk & Ek) & Hlt). lia.
    + now destruct Hinv.
  - intros Hlong. unfold flattest_inv in Hinv.
    destruct (snd st) as [v|].
    + destruct Hinv as (Hv & l1 & l2 & Hsplit & H1 & H2).
      assert (Hin : In (fst st) (range 0 (fte - 300) 50))
        by (rewrite Hsplit; apply in_or_app; right; now left).
      pose proof (proj1 (Hrange _) Hin) as Hws.
      split; [assumption|].
      split; [destruct Hws as ((k & Hk & Ek) & Hlt); subst fte; lia|].
      intros i Hi. apply Hrange in Hi. rewrite <- Hv. split.
      * rewrite Hsplit in Hi. apply in_app_or in Hi as [Hi | [<- | Hi]].
        -- left. now apply H1.
        -- rewrite Hv. lra.
        -- now apply H2.
      * intros Hlt. apply H1.
        unfold range in Hsplit, Hi.
        now apply (range_50_split _ _ _ _ _ Hsplit).
    + destruct Hinv as (Hempty & _).
      assert (Hin : In 0%Z (range 0 (fte - 300) 50)).
      { apply Hrange. split; [exists 0%Z; lia | lia]. }
      rewrite Hempty in Hin. destruct Hin.
  - intros i Hi0 Hi1.
    destruct (spread_spec _ (window_alts_nonempty points i))
      as (hi & lo & Hhi & Hlo & Hall & Hsp).
    unfold window_alts in Hhi, Hlo, Hall.
    apply in_map_iff in Hhi as (jhi & <- & Hjhi).
    apply in_map_iff in Hlo as (jlo & <- & Hjlo).
    apply range_In in Hjhi as (a & Ha & -> & Hlta); [|lia].
    apply range_In in Hjlo as (b & Hb & -> & Hltb); [|lia].
    exists (i + 1 * a)%Z, (i + 1 * b)%Z.
    split; [lia|]. split; [lia|]. split; [|exact Hsp].
    intros j Hj. apply Hall.
    apply in_map_iff. exists j. split; [reflexivity|].
    apply range_In; [lia|]. exists (j - i)%Z. lia.
Qed.

(** ** Indexing *)

Lemma get_valid {A} (l : list A) (i : Z) :
  valid_index (len l) i -> exists a, get l i = Ok a.
Proof.
  unfold valid_index, get. intros Hi.
  set (k := if (i <? 0)%Z then (i + len l)%Z else i).
  assert (Hk : (0 <= k < len l)%Z)
    by (subst k; destruct (Z.ltb_spec i 0); lia).
  destruct (Z.leb_spec 0 k); [|lia]. destruct (Z.ltb_spec k (len l)); [|lia].
  cbn [andb].
  destruct (nth_error l (Z.to_nat k)) eqn:E; eauto.
  apply nth_error_None in E. unfold len in *. lia.
Qed.

Lemma get_invalid {A} (l : list A) (i : Z) :
  ~ valid_index (len l) i -> get l i = Raise IndexError.
Proof.
  unfold valid_index, get. intros Hi.
  set (k := if (i <? 0)%Z then (i + len l)%Z else i).
  assert (Hk : ~ (0 <= k < len l)%Z)
    by (subst k; destruct (Z.ltb_spec i 0); lia).
  destruct (Z.leb_spec 0 k); [|reflexivity].
  destruct (Z.ltb_spec k (len l)); [lia | reflexivity].
Qed.

Lemma valid_index_dec (n i : Z) : {valid_index n i} + {~ valid_index n i}.
Proof.
  unfold valid_index.
  destruct (Z_le_dec (- n) i), (Z_lt_dec i n); (left; lia) || (right; lia).
Qed.

(** The synthesizer returns exactly when both indices of the scenario are
    indices Python accepts on the route (negative ones count from the end),
    and raises [IndexError] otherwise; it raises nothing else. *)
Theorem mock_index_errors (points : list RoutePoint) (sc : AlternativeScenario) :
  let ok := valid_index (len points) (diverge_index sc) /\
            valid_index (len points) (rejoin_index sc) in
  (ok <-> exists rd, generate_mock_alternative points sc = Ok rd) /\
  (~ ok <-> generate_mock_alternative points sc = Raise IndexError) /\
  (forall e, generate_mock_alternative points sc = Raise e -> e = IndexError).
Proof.
  intros ok.
  assert (Hok : ok -> exists rd, generate_mock_alternative points sc = Ok rd).
  { intros (Hd & Hr).
    destruct (get_valid points _ Hd) as (p & Hp).
    destruct (get_valid points _ Hr) as (q & Hq).
    destruct (Req_dec_T (lat p) (lat q)) as [E1|N1];
      [destruct (Req_dec_T (lng p) (lng q)) as [E2|N2]|].
    - rewrite (generate_mock_degenerate _ _ _ _ Hp Hq E1 E2). eauto.
    - destruct (generate_mock_arc _ _ _ _ Hp Hq) as (? & ? & ? & ->); eauto.
    - destruct (generate_mock_arc _ _ _ _ Hp Hq) as (? & ? & ? & ->); eauto. }
  assert (Hbad : ~ ok -> generate_mock_alternative points sc = Raise IndexError).
  { intros Hn. unfold generate_mock_alternative.
    destruct (valid_index_dec (len points) (diverge_index sc)) as [Hd|Hd].
    - destruct (get_valid points _ Hd) as (p & ->). cbn [bind].
      rewrite get_invalid; [reflexivity|]. intros Hr. apply Hn. now split.
    - now rewrite get_invalid. }
  assert (Hdec : ok \/ ~ ok).
  { subst ok.
    destruct (valid_index_dec (len points) (diverge_index sc)),
             (valid_index_dec (len points) (rejoin_index sc)); tauto. }
  split; [|split].
  - split; [exact Hok|]. intros (rd & E).
    destruct Hdec as [H|H]; [assumption|]. rewrite (Hbad H) in E. discriminate.
  - split; [exact Hbad|]. intros E H.
    destruct (Hok H) as (rd & E'). rewrite E in E'. discriminate.
  - intros e E. destruct Hdec as [H|H].
    + destruct (Hok H) as (rd & E'). rewrite E in E'. discriminate.
    + rewrite (Hbad H) in E. now injection E as <-.
Qed.

(** ** Rounding keeps order *)

Lemma floor_bounds (x : R) : IZR (floor x) <= x < IZR (floor x) + 1.
Proof.
  unfold floor. destruct (archimed x) as [H1 H2].
  rewrite minus_IZR. lra.
Qed.

Lemma round_near (x : R) : IZR (round x) - 1 / 2 <= x <= IZR (round x) + 1 / 2.
Proof.
  pose proof (floor_bounds x) as [H1 H2]. unfold round.
  destruct (Rltb (x - IZR (floor x)) (1 / 2)) eqn:E1.
  - apply Rltb_true in E1. lra.
  - apply Rltb_false in E1.
    destruct (Rltb (1 / 2) (x - IZR (floor x))) eqn:E2.
    + apply Rltb_true in E2. rewrite plus_IZR. lra.
    + apply Rltb_false in E2.
      destruct (Z.even (floor x)); [lra | rewrite plus_IZR; lra].
Qed.

Lemma round_le (x y : R) : x <= y -> (round x <= round y)%Z.
Proof.
  intros Hxy. destruct (Z_le_gt_dec (round x) (round y)) as [H|H]; [assumption|].
  exfalso.
  assert (H1 : IZR (round y) + 1 <= IZR (round x)).
  { rewrite <- plus_IZR. apply IZR_le. lia. }
  pose proof (round_near x) as [Hx _]. pose proof (round_near y) as [_ Hy].
  assert (E : x = y) by lra. subst y. lia.
Qed.

Lemma round_nonneg (x : R) : 0 <= x -> (0 <= round x)%Z.
Proof. intros H. rewrite <- (round_IZR 0). now apply round_le. Qed.

Lemma round_to_le (x y : R) (n : nat) : x <= y -> round_to x n <= round_to y n.
Proof.
  intros H. unfold round_to. pose proof (pow10_pos n).
  apply Rmult_le_compat_r; [left; now apply Rinv_0_lt_compat|].
  apply IZR_le, round_le. nra.
Qed.

Lemma pair_sum_nonneg (g : RoutePoint -> RoutePoint -> R) (l : list RoutePoint) :
  (forall p q, 0 <= g p q) -> 0 <= pair_sum g l.
Proof.
  intros Hg. induction l as [|a [|b tl] IH]; cbn [pair_sum]; try lra.
  specialize (Hg a b). cbn [pair_sum] in IH. lra.
Qed.

Lemma path_km_nonneg (seg : list RoutePoint) : 0 <= path_km seg.
Proof. apply pair_sum_nonneg. intros; apply haversine_nonneg. Qed.

Lemma positive_gain_nonneg (seg : list RoutePoint) : 0 <= positive_gain seg.
Proof. apply pair_sum_nonneg. intros; apply Rmax_l. Qed.

(** ** Synthesized alternatives: distances and altitudes *)

Lemma Ok_inj {A} (a b : A) : Ok a = Ok b -> a = b.
Proof. now intros [= ->]. Qed.

(** The arc of a non-degenerate scenario, with the perpendicular vector
    and the offset spelled out. *)
Lemma generate_mock_arc_explicit (points : list RoutePoint)
  (sc : AlternativeScenario) (p q : RoutePoint) :
  get points (diverge_index sc) = Ok p ->
  get points (rejoin_index sc) = Ok q ->
  lat p <> lat q \/ lng p <> lng q ->
  let length := sqrt ((lat q - lat p) ^ 2 + (lng q - lng p) ^ 2) in
  let offset_km :=
    if String.eqb (query_value sc) "shorter" then 5 / 1000 else 15 / 1000 in
  let km := path_km (original_segment_of points sc)
            * dict_get multiplier (query_value sc) 1 in
  0 < length /\
  generate_mock_alternative points sc =
  Ok {| RouteData.coordinates :=
          map (arc_point sc p q (- (lng q - lng p) / length)
                         ((lat q - lat p) / length) offset_km 30)
              (range 0 31 1);
        RouteData.distance_m := round (km * 1000);
        RouteData.duration_s := Some (round (km * 1000 / (55 / 10)));
        RouteData.ascent_m := Some 0%Z;
        RouteData.descent_m := Some 0%Z;
        RouteData.mock := Some true;
        RouteData.surface_info := None;
        RouteData.waytype_info := None |}.
Proof.
  intros Hp Hq Hne length offset_km km.
  assert (Hnz : length <> 0).
  { intros H. apply length_zero_iff in H. lra. }
  split.
  { pose proof (sqrt_pos ((lat q - lat p) ^ 2 + (lng q - lng p) ^ 2)).
    fold length in H. lra. }
  unfold generate_mock_alternative. rewrite Hp, Hq. cbn [bind].
  fold length.
  assert (E : Reqb length 0 = false) by now apply Reqb_false.
  rewrite E. unfold py_div. rewrite E. cbn [bind].
  fold (original_segment_of points sc).
  rewrite segment_distance_spec. cbn [bind]. reflexivity.
Qed.

Lemma multiplier_values (q : string) :
  (q = "shorter"%string -> dict_get multiplier q 1 = 7 / 10) /\
  (In q ["flatter"; "paved"; "scenic"; "sheltered"]%string ->
   1 <= dict_get multiplier q 1) /\
  (~ In q ["shorter"; "flatter"; "paved"; "scenic"; "sheltered"]%string ->
   dict_get multiplier q 1 = 1).
Proof.
  split; [|split].
  - intros ->. reflexivity.
  - intros [<- | [<- | [<- | [<- | []]]]]; cbn; lra.
  - intros Hn. unfold multiplier. cbn [dict_get].
    repeat match goal with
           | |- context [String.eqb ?a q] =>
               destruct (String.eqb_spec a q) as [E | _];
               [exfalso; apply Hn; rewrite <- E; cbn; tauto|]
           end.
    reflexivity.
Qed.

(** In an entry built from a synthesized alternative the original
    distance and ascent are not negative and the ascent delta is not
    positive.  The distance delta is the negated original distance for the
    empty geometry; for an arc it is at most 0 for the shorter scenario, at
    least 0 for the flatter, paved, scenic and sheltered ones, and 0 for a
    scenario of any other name. *)
Theorem mock_delta_signs (points : list RoutePoint) (sc : AlternativeScenario)
  (rd : RouteData.t) (cum_km : list R) (e : Entry.t) :
  generate_mock_alternative points sc = Ok rd ->
  build_alternative_entry sc rd points cum_km = Ok e ->
  let q := query_value sc in
  let original := Entry.original_segment e in
  let delta := Comparison.distance_delta_m (Entry.comparison e) in
  (0 <= OriginalSegment.distance_m original)%Z /\
  (0 <= OriginalSegment.ascent_m original)%Z /\
  (Comparison.ascent_delta_m (Entry.comparison e) <= 0)%Z /\
  (RouteData.coordinates rd = [] ->
   delta = (- OriginalSegment.distance_m original)%Z) /\
  (RouteData.coordinates rd <> [] ->
   (q = "shorter"%string -> (delta <= 0)%Z) /\
   (In q ["flatter"; "paved"; "scenic"; "sheltered"]%string -> (0 <= delta)%Z) /\
   (~ In q ["shorter"; "flatter"; "paved"; "scenic"; "sheltered"]%string ->
    delta = 0%Z)).
Proof.
  intros Hgen Hbuild q original delta.
  destruct (build_alternative_entry_inv _ _ _ _ _ Hbuild)
    as (_ & _ & _ & _ & _ & _ & _ & Hod & Hoa & Hdd & Had & _).
  destruct (generate_mock_shape _ _ _ Hgen) as (_ & Ha & _ & _).
  set (seg := original_segment_of points sc) in *.
  pose proof (path_km_nonneg seg) as Hkm.
  pose proof (positive_gain_nonneg seg) as Hpg.
  assert (H0 : (0 <= round (path_km seg * 1000))%Z) by (apply round_nonneg; nra).
  assert (H1 : (0 <= round (positive_gain seg))%Z) by now apply round_nonneg.
  subst original delta. rewrite Hod, Hoa, Hdd, Had, Ha.
  split; [assumption|]. split; [assumption|]. split; [lia|].
  destruct (get points (diverge_index sc)) as [p|] eqn:Hp;
    [|unfold generate_mock_alternative in Hgen; rewrite Hp in Hgen; discriminate].
  destruct (get points (rejoin_index sc)) as [p'|] eqn:Hq;
    [|unfold generate_mock_alternative in Hgen; rewrite Hp, Hq in Hgen;
      discriminate].
  assert (Hcase : (lat p = lat p' /\ lng p = lng p') \/
                  (lat p <> lat p' \/ lng p <> lng p')).
  { destruct (Req_dec_T (lat p) (lat p')), (Req_dec_T (lng p) (lng p')); auto. }
  destruct Hcase as [[E1 E2] | Hne].
  - rewrite (generate_mock_degenerate _ _ _ _ Hp Hq E1 E2) in Hgen.
    injection Hgen as <-. cbn. split; [intros _; lia | congruence].
  - destruct (generate_mock_arc_explicit _ _ _ _ Hp Hq Hne) as (_ & E).
    rewrite E in Hgen. apply Ok_inj in Hgen. subst rd.
    cbn [RouteData.coordinates RouteData.distance_m].
    split; [rewrite range_0_31; discriminate|]. intros _.
    fold seg. fold q.
    destruct (multiplier_values q) as (M1 & M2 & M3).
    split; [|split].
    + intros Hs. rewrite (M1 Hs).
      assert (round (path_km seg * (7 / 10) * 1000)%R
              <= round (path_km seg * 1000)%R)%Z by (apply round_le; nra).
      lia.
    + intros Hs. specialize (M2 Hs).
      assert (round (path_km seg * 1000)%R
              <= round (path_km seg * dict_get multiplier q 1 * 1000)%R)%Z.
      { apply round_le. apply Rmult_le_compat_r; [lra|].
        rewrite <- (Rmult_1_r (path_km seg)) at 1.
        apply Rmult_le_compat_l; lra. }
      lia.
    + intros Hs. rewrite (M3 Hs), Rmult_1_r. lia.
Qed.

Lemma round_to_Rmin (a b : R) (n : nat) :
  round_to (Rmin a b) n = Rmin (round_to a n) (round_to b n).
Proof.
  unfold Rmin. destruct (Rle_dec a b) as [H|H].
  - pose proof (round_to_le a b n H).
    destruct (Rle_dec (round_to a n) (round_to b n)); [reflexivity | lra].
  - pose proof (round_to_le b a n ltac:(lra)).
    destruct (Rle_dec (round_to a n) (round_to b n)); [lra | reflexivity].
Qed.

Lemma round_to_Rmax (a b : R) (n : nat) :
  round_to (Rmax a b) n = Rmax (round_to a n) (round_to b n).
Proof.
  unfold Rmax. destruct (Rle_dec a b) as [H|H].
  - pose proof (round_to_le a b n H).
    destruct (Rle_dec (round_to a n) (round_to b n)); [reflexivity | lra].
  - pose proof (round_to_le b a n ltac:(lra)).
    destruct (Rle_dec (round_to a n) (round_to b n)); [lra | reflexivity].
Qed.

Lemma unit_component (a b : R) :
  0 < sqrt (a ^ 2 + b ^ 2) -> -1 <= a / sqrt (a ^ 2 + b ^ 2) <= 1.
Proof.
  intros HL. set (L := sqrt (a ^ 2 + b ^ 2)) in *.
  assert (HL2 : L * L = a ^ 2 + b ^ 2) by (apply sqrt_sqrt; nra).
  assert (Ha : - L <= a <= L) by (split; nra).
  split.
  - apply Rmult_le_reg_r with L; [assumption|].
    unfold Rdiv. rewrite Rmult_assoc, Rinv_l by lra. lra.
  - apply Rmult_le_reg_r with L; [assumption|].
    unfold Rdiv. rewrite Rmult_assoc, Rinv_l by lra. lra.
Qed.

(** Every coordinate of a synthesized arc has an altitude between the
    (rounded) altitudes of the diverge and rejoin points, and a latitude and
    longitude within 0.015 degrees of the box spanned by those two points. *)
Theorem mock_arc_stays_close (points : list RoutePoint)
  (sc : AlternativeScenario) (p q : RoutePoint) (rd : RouteData.t) :
  get points (diverge_index sc) = Ok p ->
  get points (rejoin_index sc) = Ok q ->
  generate_mock_alternative points sc = Ok rd ->
  forall c, In c (RouteData.coordinates rd) ->
    Rmin (round_to (alt p) 1) (round_to (alt q) 1) <= Coord.alt c
      <= Rmax (round_to (alt p) 1) (round_to (alt q) 1) /\
    round_to (Rmin (lat p) (lat q) - 15 / 1000) 6 <= Coord.lat c
      <= round_to (Rmax (lat p) (lat q) + 15 / 1000) 6 /\
    round_to (Rmin (lng p) (lng q) - 15 / 1000) 6 <= Coord.lng c
      <= round_to (Rmax (lng p) (lng q) + 15 / 1000) 6.
Proof.
  intros Hp Hq Hgen c Hc.
  assert (Hcase : (lat p = lat q /\ lng p = lng q) \/
                  (lat p <> lat q \/ lng p <> lng q)).
  { destruct (Req_dec_T (lat p) (lat q)), (Req_dec_T (lng p) (lng q)); auto. }
  destruct Hcase as [[E1 E2] | Hne].
  { rewrite (generate_mock_degenerate _ _ _ _ Hp Hq E1 E2) in Hgen.
    injection Hgen as <-. destruct Hc. }
  destruct (generate_mock_arc_explicit _ _ _ _ Hp Hq Hne) as (HL & E).
  rewrite E in Hgen. apply Ok_inj in Hgen. subst rd.
  cbn [RouteData.coordinates] in Hc.
  apply in_map_iff in Hc as (i & <- & Hi).
  apply range_In in Hi as (k & Hk & -> & Hlt); [|lia].
  replace (0 + 1 * k)%Z with k by lia.
  assert (Hfrac : 0 <= IZR k / 30 <= 1).
  { assert (0 <= IZR k <= 30).
    { split; [apply (IZR_le 0) | apply (IZR_le k 30)]; lia. }
    lra. }
  set (f := IZR k / 30) in *.
  pose proof (SIN_bound (f * PI)) as [Hs1 Hs2].
  set (sn := sin (f * PI)) in *.
  pose proof (unit_component (lng q - lng p) (lat q - lat p)) as Hu1.
  pose proof (unit_component (lat q - lat p) (lng q - lng p)) as Hu2.
  replace ((lng q - lng p) ^ 2 + (lat q - lat p) ^ 2)
    with ((lat q - lat p) ^ 2 + (lng q - lng p) ^ 2) in Hu1 by ring.
  specialize (Hu1 HL). specialize (Hu2 HL).
  set (L := sqrt ((lat q - lat p) ^ 2 + (lng q - lng p) ^ 2)) in *.
  set (ulng := (lng q - lng p) / L) in *.
  set (ulat := (lat q - lat p) / L) in *.
  assert (Hoff : 0 <= (if String.eqb (query_value sc) "shorter"
                       then 5 / 1000 else 15 / 1000) <= 15 / 1000)
    by (destruct (String.eqb _ _); lra).
  set (off := if String.eqb (query_value sc) "shorter"
              then 5 / 1000 else 15 / 1000) in *.
  assert (Hbulge : forall u, -1 <= u <= 1 ->
                             - (15 / 1000) <= sn * u * off <= 15 / 1000).
  { intros u Hu.
    assert (-1 <= sn * u <= 1) by (split; nra).
    split; nra. }
  unfold arc_point. cbv zeta. fold f. fold sn.
  cbn [Coord.lat Coord.lng Coord.alt].
  split; [|split].
  - rewrite <- round_to_Rmin, <- round_to_Rmax.
    assert (Hlin : Rmin (alt p) (alt q) <= alt p + f * (alt q - alt p)
                   <= Rmax (alt p) (alt q)).
    { unfold Rmin, Rmax. destruct (Rle_dec (alt p) (alt q)); split; nra. }
    assert (Hmid : Rmin (alt p) (alt q) <= (alt p + alt q) / 2
                   <= Rmax (alt p) (alt q)).
    { unfold Rmin, Rmax. destruct (Rle_dec (alt p) (alt q)); split; lra. }
    destruct (existsb _ _); split; apply round_to_le; lra.
  - specialize (Hbulge (- ulng) ltac:(lra)).
    replace (- (lng q - lng p) / L) with (- ulng)
      by (subst ulng; unfold Rdiv; ring).
    split; apply round_to_le; unfold Rmin, Rmax;
      destruct (Rle_dec (lat p) (lat q)); nra.
  - specialize (Hbulge ulat ltac:(lra)).
    split; apply round_to_le; unfold Rmin, Rmax;
      destruct (Rle_dec (lng p) (lng q)); nra.
Qed.

(** ** The comparison builder: when it returns, and what it copies *)

Lemma get_cases {A} (l : list A) (i : Z) :
  (valid_index (len l) i /\ exists a, get l i = Ok a) \/
  (~ valid_index (len l) i /\ get l i = Raise IndexError).
Proof.
  destruct (valid_index_dec (len l) i) as [H|H].
  - left. split; [assumption | now apply get_valid].
  - right. split; [assumption | now apply get_invalid].
Qed.

(** The head of a returned entry: names, end points and annotations. *)
Lemma build_alternative_entry_meta (sc : AlternativeScenario)
  (rd : RouteData.t) (points : list RoutePoint) (cum_km : list R) (e : Entry.t) :
  build_alternative_entry sc rd points cum_km = Ok e ->
  exists p q kd kr,
    get points (diverge_index sc) = Ok p /\
    get points (rejoin_index sc) = Ok q /\
    get cum_km (diverge_index sc) = Ok kd /\
    get cum_km (rejoin_index sc) = Ok kr /\
    Entry.query_value e = query_value sc /\
    Entry.label e = label sc /\
    Entry.description e = description sc /\
    Entry.diverge e =
      {| Endpoint.index := diverge_index sc; Endpoint.lat := lat p;
         Endpoint.lng := lng p; Endpoint.km_from_start := round_to kd 1 |} /\
    Entry.rejoin e =
      {| Endpoint.index := rejoin_index sc; Endpoint.lat := lat q;
         Endpoint.lng := lng q; Endpoint.km_from_start := round_to kr 1 |} /\
    Alternative.surface_info (Entry.alternative e)
      = keep_truthy (RouteData.surface_info rd) /\
    Alternative.waytype_info (Entry.alternative e)
      = keep_truthy (RouteData.waytype_info rd).
Proof.
  intros H. unfold build_alternative_entry in H.
  rewrite segment_distance_spec, segment_ascent_spec in H.
  destruct (get points (diverge_index sc)) as [p|]; [|discriminate].
  destruct (get points (rejoin_index sc)) as [q|]; [|discriminate].
  cbn [bind] in H.
  destruct (get _ (-1)) as [seg_last|]; [|discriminate].
  destruct (get _ 0) as [seg_first|]; [|discriminate].
  cbn [bind] in H.
  destruct (get cum_km (diverge_index sc)) as [kd|]; [|discriminate].
  destruct (get cum_km (rejoin_index sc)) as [kr|]; [|discriminate].
  cbn [bind] in H. apply Ok_inj in H. subst e.
  exists p, q, kd, kr. repeat split.
Qed.

Lemma slice_nonempty_order {A} (l : list A) (a b : Z) :
  (0 <= a)%Z -> (0 <= b)%Z -> slice l a b <> [] -> (a < b)%Z.
Proof.
  intros Ha Hb Hne. unfold slice, slice_bound in Hne.
  destruct (Z.ltb_spec a 0); [lia|]. destruct (Z.ltb_spec b 0); [lia|].
  destruct (Z_lt_le_dec a b) as [H1|H1]; [assumption|].
  exfalso. apply Hne.
  replace (Z.to_nat (Z.min b (len l) - Z.min a (len l))) with 0%nat by lia.
  reflexivity.
Qed.

Lemma build_alternative_entry_ok_cum (sc : AlternativeScenario)
  (rd : RouteData.t) (points : list RoutePoint) (cum_km : list R) :
  (0 <= diverge_index sc <= rejoin_index sc)%Z ->
  (rejoin_index sc < len points)%Z ->
  (rejoin_index sc < len cum_km)%Z ->
  exists e, build_alternative_entry sc rd points cum_km = Ok e.
Proof.
  intros Hd Hr Hcum. unfold build_alternative_entry.
  fold (original_segment_of points sc).
  rewrite segment_distance_spec, segment_ascent_spec.
  rewrite !get_point_at by lia. cbn [bind].
  assert (Hlen : len (original_segment_of points sc)
                 = (rejoin_index sc + 1 - diverge_index sc)%Z)
    by (apply slice_length; lia).
  set (seg := original_segment_of points sc) in *.
  destruct (get_valid seg (-1)) as (x & ->); [unfold valid_index; lia|].
  destruct (get_valid seg 0) as (y & ->); [unfold valid_index; lia|].
  cbn [bind].
  destruct (get_valid cum_km (diverge_index sc)) as (kd & ->);
    [unfold valid_index; lia|].
  destruct (get_valid cum_km (rejoin_index sc)) as (kr & ->);
    [unfold valid_index; lia|].
  cbn [bind]. eexists; reflexivity.
Qed.

(** For a bracket of non-negative indices the builder returns exactly
    when diverge is not after rejoin, rejoin is an index of the route and of
    the distance table; otherwise it raises [IndexError] - also for an
    inverted bracket whose two indices are both on the route - and it raises
    nothing else, whatever the route data. *)
Theorem build_entry_returns_iff (sc : AlternativeScenario) (rd : RouteData.t)
  (points : list RoutePoint) (cum_km : list R) :
  (0 <= diverge_index sc)%Z -> (0 <= rejoin_index sc)%Z ->
  let ok := (diverge_index sc <= rejoin_index sc /\
             rejoin_index sc < len points /\
             rejoin_index sc < len cum_km)%Z in
  (ok <-> exists e, build_alternative_entry sc rd points cum_km = Ok e) /\
  (~ ok <-> build_alternative_entry sc rd points cum_km = Raise IndexError).
Proof.
  intros Hd Hr ok.
  assert (Hok : ok -> exists e, build_alternative_entry sc rd points cum_km = Ok e).
  { intros (H1 & H2 & H3). apply build_alternative_entry_ok_cum; lia. }
  assert (Hinv : forall e, build_alternative_entry sc rd points cum_km = Ok e -> ok).
  { intros e He.
    destruct (build_alternative_entry_inv _ _ _ _ _ He) as (Hseg & _).
    destruct (build_alternative_entry_meta _ _ _ _ _ He)
      as (p & q & kd & kr & Hp & Hq & Hkd & Hkr & _).
    apply get_Ok_inv in Hq as (Hq & _). apply get_Ok_inv in Hkr as (Hkr' & _).
    apply slice_nonempty_order in Hseg; try lia.
    subst ok. lia. }
  assert (Hraise : forall x, build_alternative_entry sc rd points cum_km = Raise x ->
                             x = IndexError).
  { intros x. unfold build_alternative_entry.
    rewrite segment_distance_spec, segment_ascent_spec.
    repeat match goal with
           | |- context [get ?l ?i] =>
               destruct (get_cases l i) as [(_ & ? & ->) | (_ & ->)];
               cbn [bind]; [|now intros [= <-]]
           end.
    discriminate. }
  split.
  - split; [exact Hok|]. intros (e & He). exact (Hinv e He).
  - split.
    + intros Hn.
      destruct (build_alternative_entry sc rd points cum_km) as [e|x] eqn:E.
      * exfalso. exact (Hn (Hinv e eq_refl)).
      * now rewrite (Hraise x eq_refl).
    + intros E Hk. destruct (Hok Hk) as (e & He). rewrite E in He. discriminate.
Qed.

(** With the table of [precompute_cum_km], a returned entry carries the
    names of its scenario, the indices and coordinates of the diverge and
    rejoin points, and their distance from the start rounded to 0.1 km; for a
    bracket of non-negative indices the diverge annotation never exceeds the
    rejoin one.  The mock flag is the route data's, false when absent, and a
    surface or waytype table is kept only when present and not empty. *)
Theorem entry_echoes_inputs (sc : AlternativeScenario) (rd : RouteData.t)
  (points : list RoutePoint) (cum_km : list R) (e : Entry.t) :
  precompute_cum_km points = Ok cum_km ->
  build_alternative_entry sc rd points cum_km = Ok e ->
  (0 <= diverge_index sc)%Z -> (0 <= rejoin_index sc)%Z ->
  let d := diverge_index sc in
  let r := rejoin_index sc in
  Entry.query_value e = query_value sc /\
  Entry.label e = label sc /\
  Entry.description e = description sc /\
  Entry.diverge e =
    {| Endpoint.index := d; Endpoint.lat := lat (point_at points d);
       Endpoint.lng := lng (point_at points d);
       Endpoint.km_from_start :=
         round_to (path_km (firstn (S (Z.to_nat d)) points)) 1 |} /\
  Entry.rejoin e =
    {| Endpoint.index := r; Endpoint.lat := lat (point_at points r);
       Endpoint.lng := lng (point_at points r);
       Endpoint.km_from_start :=
         round_to (path_km (firstn (S (Z.to_nat r)) points)) 1 |} /\
  0 <= Endpoint.km_from_start (Entry.diverge e)
    <= Endpoint.km_from_start (Entry.rejoin e) /\
  Alternative.is_mock (Entry.alternative e) = get_or (RouteData.mock rd) false /\
  Alternative.coordinates (Entry.alternative e) = RouteData.coordinates rd /\
  (RouteData.surface_info rd = None \/
   RouteData.surface_info rd = Some (JDict []) ->
   Alternative.surface_info (Entry.alternative e) = None).
Proof.
  intros Hcum He Hd Hr d r.
  destruct (build_alternative_entry_inv _ _ _ _ _ He)
    as (Hseg & Hcoord & _ & _ & _ & _ & Hmock & _).
  destruct (build_alternative_entry_meta _ _ _ _ _ He)
    as (p & q & kd & kr & Hp & Hq & Hkd & Hkr & Hqv & Hl & Hdesc & Hdiv & Hrej
        & Hsurf & _).
  apply slice_nonempty_order in Hseg; try lia.
  pose proof (get_Ok_inv _ _ _ Hq) as (Hqr & _).
  fold d r in Hp, Hq, Hkd, Hkr, Hdiv, Hrej, Hseg, Hqr.
  rewrite get_point_at in Hp, Hq by lia.
  apply Ok_inj in Hp, Hq. subst p q.
  destruct (precompute_cum_km_exact points) as (cum' & E & Hlen & Hval).
  rewrite Hcum in E. apply Ok_inj in E. subst cum'.
  assert (Hlenc : len cum_km = len points) by (unfold len; now rewrite Hlen).
  rewrite (get_in_range cum_km d 0) in Hkd by lia.
  rewrite (get_in_range cum_km r 0) in Hkr by lia.
  apply Ok_inj in Hkd, Hkr. subst kd kr.
  rewrite (Hval (Z.to_nat d)) in Hdiv by (unfold len in *; lia).
  rewrite (Hval (Z.to_nat r)) in Hrej by (unfold len in *; lia).
  split; [assumption|]. split; [assumption|]. split; [assumption|].
  split; [assumption|]. split; [assumption|].
  split.
  { rewrite Hdiv, Hrej. cbn [Endpoint.km_from_start].
    split.
    - assert (Hz : round_to 0 1 = 0).
      { replace 0 with (IZR 0 / 10 ^ 1) at 1 by (simpl; lra).
        rewrite round_to_exact. simpl; lra. }
      rewrite <- Hz at 1. apply round_to_le, path_km_nonneg.
    - apply round_to_le.
      unfold path_km.
      replace (Z.to_nat r) with (Z.to_nat d + (Z.to_nat r - Z.to_nat d))%nat by lia.
      rewrite pair_sum_firstn_skipn by (unfold len in *; lia).
      match goal with |- _ <= _ + pair_sum ?g ?l =>
        assert (0 <= pair_sum g l)
          by (apply pair_sum_nonneg; intros; apply haversine_nonneg)
      end. lra. }
  split; [assumption|]. split; [assumption|].
  intros [E | E]; rewrite Hsurf, E; reflexivity.
Qed.

(** ** The batch step and the batch *)

(** A provider without an answer changes nothing: the step gives what
    the mock-only run gives.  A provider answer replaces the synthesizer:
    the step is the builder applied to that answer.  An index off the route
    raises [IndexError] before the provider is asked. *)
Theorem provider_fallback (points : list RoutePoint) (cum_km : list R)
  (sc : AlternativeScenario) (call_ors : Provider) :
  ((forall p q, call_ors p q sc = None) ->
   process_scenario (Some call_ors) points cum_km sc
   = process_scenario None points cum_km sc) /\
  (forall p q rd,
      get points (diverge_index sc) = Ok p ->
      get points (rejoin_index sc) = Ok q ->
      call_ors p q sc = Some rd ->
      process_scenario (Some call_ors) points cum_km sc
      = build_alternative_entry sc rd points cum_km) /\
  (~ (valid_index (len points) (diverge_index sc) /\
      valid_index (len points) (rejoin_index sc)) ->
   forall provider,
     process_scenario provider points cum_km sc = Raise IndexError).
Proof.
  split; [|split].
  - intros Hnone. unfold process_scenario.
    destruct (get points (diverge_index sc)) as [p|]; [|reflexivity].
    destruct (get points (rejoin_index sc)) as [q|]; [|reflexivity].
    cbn [bind]. now rewrite Hnone.
  - intros p q rd Hp Hq Hrd. unfold process_scenario.
    rewrite Hp, Hq. cbn [bind]. rewrite Hrd. reflexivity.
  - intros Hn provider. unfold process_scenario.
    destruct (get_cases points (diverge_index sc)) as [(Hd & p & ->) | (_ & ->)];
      [|reflexivity].
    cbn [bind].
    destruct (get_cases points (rejoin_index sc)) as [(Hr & q & ->) | (_ & ->)];
      [|reflexivity].
    tauto.
Qed.

Lemma process_scenario_ok (provider : option Provider)
  (points : list RoutePoint) (cum_km : list R) (sc : AlternativeScenario) :
  (0 <= diverge_index sc <= rejoin_index sc)%Z ->
  (rejoin_index sc < len points)%Z ->
  len cum_km = len points ->
  exists e,
    process_scenario provider points cum_km sc = Ok e /\
    Entry.query_value e = query_value sc /\
    Endpoint.index (Entry.diverge e) = diverge_index sc /\
    Endpoint.index (Entry.rejoin e) = rejoin_index sc /\
    (provider = None -> Alternative.is_mock (Entry.alternative e) = true).
Proof.
  intros Hd Hr Hcum.
  assert (Hmeta : forall rd e,
             build_alternative_entry sc rd points cum_km = Ok e ->
             Entry.query_value e = query_value sc /\
             Endpoint.index (Entry.diverge e) = diverge_index sc /\
             Endpoint.index (Entry.rejoin e) = rejoin_index sc).
  { intros rd e He.
    destruct (build_alternative_entry_meta _ _ _ _ _ He)
      as (? & ? & ? & ? & _ & _ & _ & _ & Hq & _ & _ & Hdv & Hrj & _).
    rewrite Hdv, Hrj. auto. }
  destruct (process_scenario_mock_ok None points cum_km sc)
    as (rd & e & Hrd & He & Hproc); try assumption; [discriminate|].
  assert (Hmock : Alternative.is_mock (Entry.alternative e) = true).
  { destruct (build_alternative_entry_inv _ _ _ _ _ He)
      as (_ & _ & _ & _ & _ & _ & Hm & _).
    destruct (generate_mock_shape _ _ _ Hrd) as (Hflag & _).
    rewrite Hm, Hflag. reflexivity. }
  destruct provider as [call_ors|].
  - unfold process_scenario. rewrite !get_point_at by lia. cbn [bind].
    destruct (call_ors _ _ sc) as [rd'|].
    + cbn [bind].
      destruct (build_alternative_entry_ok sc rd' points cum_km Hd Hr Hcum)
        as (e' & He').
      exists e'. split; [assumption|].
      destruct (Hmeta rd' e' He') as (H1 & H2 & H3).
      repeat split; auto. discriminate.
    + rewrite Hrd. cbn [bind]. exists e. split; [assumption|].
      destruct (Hmeta rd e He) as (H1 & H2 & H3).
      repeat split; auto.
  - exists e. split; [assumption|].
    destruct (Hmeta rd e He) as (H1 & H2 & H3). repeat split; auto.
Qed.

(** On a route of 52 points or more whose sectors lie inside it the batch
    returns whatever the provider answers: one entry per scenario, in the
    selector's order, each with its scenario's name and bracket; in a
    mock-only run every entry is flagged as mock. *)
Theorem batch_follows_scenarios (points : list RoutePoint)
  (segments : Segments) (provider : option Provider) :
  (52 <= len points)%Z ->
  (forall g, In g (find_gravel_sectors segments) ->
             sector_in_route (len points) g) ->
  exists scenarios entries,
    pick_scenarios points segments = Ok scenarios /\
    generate_alternatives provider points segments = Ok entries /\
    map Entry.query_value entries = map query_value scenarios /\
    map (fun e => (Endpoint.index (Entry.diverge e),
                   Endpoint.index (Entry.rejoin e))) entries
      = map (fun s => (diverge_index s, rejoin_index s)) scenarios /\
    (provider = None ->
     Forall (fun e => Alternative.is_mock (Entry.alternative e) = true) entries).
Proof.
  intros Hlen Hsec.
  assert (Hne : points <> []) by (intros ->; cbn in Hlen; lia).
  destruct (precompute_cum_km_spec points Hne) as (cum & Hrun & Hl & _).
  destruct (pick_scenarios_valid points segments Hlen Hsec)
    as (scenarios & Epick & Hvalid).
  assert (Hcum : len cum = len points) by (unfold len; now rewrite Hl).
  assert (Hmap : exists entries,
             map_m (process_scenario provider points cum) scenarios = Ok entries /\
             map Entry.query_value entries = map query_value scenarios /\
             map (fun e => (Endpoint.index (Entry.diverge e),
                            Endpoint.index (Entry.rejoin e))) entries
               = map (fun s => (diverge_index s, rejoin_index s)) scenarios /\
             (provider = None ->
              Forall (fun e => Alternative.is_mock (Entry.alternative e) = true)
                     entries)).
  { clear Epick. induction Hvalid as [|sc l Hsc _ IH]; cbn [map_m].
    - exists []. repeat split; auto.
    - destruct Hsc as (H1 & H2 & H3).
      destruct (process_scenario_ok provider points cum sc)
        as (e & He & Hq & Hdv & Hrj & Hm); try lia.
      destruct IH as (es & Ees & Hqs & Hbs & Hms).
      rewrite He, Ees. cbn [bind]. exists (e :: es).
      split; [reflexivity|]. cbn [map].
      rewrite Hq, Hqs, Hdv, Hrj, Hbs. repeat split; auto. }
  destruct Hmap as (entries & Emap & Hnames & Hbr & Hmock).
  exists scenarios, entries. split; [assumption|].
  split; [|auto].
  unfold generate_alternatives. rewrite Hrun. cbn [bind].
  destruct (get_valid cum (-1)) as (x & ->); [unfold valid_index; lia|].
  cbn [bind]. rewrite Epick. cbn [bind].
  assert (Hprint : for_each scenarios tt (fun s _ =>
                     _ <- get cum (diverge_index s) ;;
                     _ <- get cum (rejoin_index s) ;;
                     Ok tt) = Ok tt).
  { clear Epick Emap Hnames Hbr Hmock.
    induction Hvalid as [|sc l Hsc _ IH]; cbn [for_each]; [reflexivity|].
    destruct Hsc as (H1 & H2 & H3).
    rewrite (get_in_range cum (diverge_index sc) 0) by lia.
    rewrite (get_in_range cum (rejoin_index sc) 0) by lia.
    cbn [bind]. exact IH. }
  rewrite Hprint. cbn [bind]. assumption.
Qed.

(** ** Loading the route *)

Lemma enumerate_from_length {A} (l : list A) : forall i,
  length (enumerate_from i l) = length l.
Proof. induction l as [|x l IH]; intros i; cbn; auto. Qed.

Lemma enumerate_from_nth {A} (l : list A) (d : A) : forall (i : Z) (k : nat),
  (k < length l)%nat ->
  nth k (enumerate_from i l) (0%Z, d) = ((i + Z.of_nat k)%Z, nth k l d).
Proof.
  induction l as [|x l IH]; intros i k Hk; cbn [length] in Hk; [lia|].
  destruct k as [|k]; cbn [enumerate_from nth].
  - f_equal. lia.
  - rewrite IH by lia. f_equal. lia.
Qed.

(** [load_route] keeps the coordinates in order, one point each, and
    numbers them by position: the point read at index [i] (from the end for a
    negative [i]) carries that position as its [index], and the latitude,
    longitude, altitude and timestamp of the coordinate at that position. *)
Theorem load_route_indices (coords : list RawCoord.t) :
  let points := load_route coords in
  length points = length coords /\
  (coords = [] -> points = []) /\
  forall (i : Z) (p : RoutePoint),
    get points i = Ok p ->
    let k := (if (i <? 0)%Z then i + len coords else i)%Z in
    (0 <= k < len coords)%Z /\
    index p = k /\
    exists c, nth_error coords (Z.to_nat k) = Some c /\
              lat p = RawCoord.lat c /\ lng p = RawCoord.lng c /\
              alt p = RawCoord.alt c /\ t p = RawCoord.t_ms c.
Proof.
  intros points.
  assert (Hlen : length points = length coords).
  { subst points. unfold load_route.
    now rewrite length_map, enumerate_from_length. }
  split; [assumption|]. split; [intros ->; reflexivity|].
  intros i p Hp k.
  apply get_Ok_inv in Hp as (Hr & Hnth).
  assert (Hlenz : len points = len coords) by (unfold len; now rewrite Hlen).
  rewrite Hlenz in Hr, Hnth. fold k in Hnth.
  assert (Hk : (0 <= k < len coords)%Z)
    by (subst k; destruct (Z.ltb_spec i 0); lia).
  split; [assumption|].
  assert (Hkn : (Z.to_nat k < length coords)%nat) by (unfold len in Hk; lia).
  destruct (nth_error coords (Z.to_nat k)) as [c|] eqn:Ec;
    [|apply nth_error_None in Ec; lia].
  pose (dc := RawCoord.mk 0 0 0 0).
  apply (nth_error_nth _ _ dc) in Ec.
  subst points. unfold load_route in Hnth.
  rewrite nth_error_map in Hnth.
  destruct (nth_error (enumerate_from 0 coords) (Z.to_nat k)) as [[j c']|] eqn:Ee;
    [|discriminate].
  apply (nth_error_nth _ _ (0%Z, dc)) in Ee.
  rewrite enumerate_from_nth in Ee by assumption.
  injection Ee as <- <-. cbn in Hnth. injection Hnth as <-.
  cbn [index lat lng alt t]. split; [lia|].
  exists c. rewrite Ec. repeat split.
Qed.

(** ** The provider request *)

(** The request lists the start, the intermediate waypoints in order
    and the end, each as a [longitude, latitude] pair, and carries an
    [avoid_features] option exactly when the scenario names features to
    avoid.  For every scenario the selector produces that is: the two end
    points, no option, and the profile and preference that go with the
    scenario's name. *)
Theorem ors_request_shape (start end_ : RoutePoint) (sc : AlternativeScenario)
  (api_key : string) :
  let request := ors_request start end_ sc api_key in
  Ors.coordinates request =
    ([lng start; lat start] ::
     map (fun wp : R * R => [snd wp; fst wp]) (extra_waypoints sc) ++
     [[lng end_; lat end_]])%list /\
  length (Ors.coordinates request) = (2 + length (extra_waypoints sc))%nat /\
  Forall (fun c : list R => length c = 2%nat) (Ors.coordinates request) /\
  (Ors.options request = None <-> avoid_features sc = []) /\
  (forall fs, Ors.options request = Some fs -> fs = avoid_features sc) /\
  Ors.authorization request = api_key /\
  (forall points segments scenarios,
      pick_scenarios points segments = Ok scenarios -> In sc scenarios ->
      Ors.coordinates request = [[lng start; lat start]; [lng end_; lat end_]] /\
      Ors.options request = None /\
      Ors.url request = (ORS_BASE ++ profile_of (query_value sc))%string /\
      Ors.preference request = preference_of (query_value sc)).
Proof.
  intros request. subst request. unfold ors_request.
  cbn [Ors.coordinates Ors.options Ors.authorization Ors.url Ors.preference].
  split; [reflexivity|].
  split; [cbn [app length]; rewrite length_app, length_map; cbn; lia|].
  split.
  { cbn [app]. constructor; [reflexivity|].
    apply Forall_app. split; [|repeat constructor].
    apply Forall_forall. intros c Hc.
    apply in_map_iff in Hc as (wp & <- & _). reflexivity. }
  split; [destruct (avoid_features sc); split; congruence|].
  split; [destruct (avoid_features sc); intros fs H; congruence|].
  split; [reflexivity|].
  intros points segments scenarios Hpick Hin.
  destruct (proj1 (Forall_forall _ _) (pick_scenarios_routing _ _ _ Hpick) sc Hin)
    as (Ha & Hw & Hp & Hprof & _).
  rewrite Ha, Hw, Hp, Hprof. repeat split.
Qed.

(** ** The provider answer *)

Lemma ors_coord_ok (c : list R) :
  (2 <= len c)%Z -> ors_coord c = Ok (normalised c).
Proof.
  intros Hc. unfold ors_coord, normalised.
  rewrite (get_in_range c 1 0), (get_in_range c 0 0) by lia. cbn [bind].
  destruct (Z.ltb_spec 2 (len c)) as [H|H].
  - rewrite (get_in_range c 2 0) by lia. reflexivity.
  - reflexivity.
Qed.

Lemma ors_coord_short (c : list R) :
  (len c < 2)%Z -> ors_coord c = Raise IndexError.
Proof.
  intros Hc. unfold ors_coord.
  rewrite get_invalid; [reflexivity|]. unfold valid_index. lia.
Qed.

Lemma map_m_ors_coord (l : list (list R)) :
  (Forall (fun c => (2 <= len c)%Z) l ->
   map_m ors_coord l = Ok (map normalised l)) /\
  (Exists (fun c => (len c < 2)%Z) l ->
   map_m ors_coord l = Raise IndexError).
Proof.
  induction l as [|c l [IH1 IH2]]; split; cbn [map_m map].
  - reflexivity.
  - intros H. inversion H.
  - intros H. inversion H as [|? ? Hc Hl]; subst.
    rewrite ors_coord_ok, (IH1 Hl) by assumption. reflexivity.
  - intros H.
    destruct (Z_lt_le_dec (len c) 2) as [Hc|Hc].
    + now rewrite ors_coord_short.
    + rewrite ors_coord_ok by assumption. cbn [bind].
      inversion H as [? ? Hc'|? ? Hl]; subst; [lia|].
      now rewrite (IH2 Hl).
Qed.

Lemma short_or_long (l : list (list R)) :
  Forall (fun c => (2 <= len c)%Z) l \/ Exists (fun c => (len c < 2)%Z) l.
Proof.
  induction l as [|c l IH]; [left; constructor|].
  destruct (Z_lt_le_dec (len c) 2) as [Hc|Hc]; [right; now left|].
  destruct IH as [IH|IH]; [left; now constructor | right; now right].
Qed.

(** [call_ors] has no answer when the API key is empty (whatever the
    transport would say), when the transport fails, and when the response
    has no feature.  Otherwise it reads the first feature: when each of its
    coordinates holds at least a longitude and a latitude it answers with
    those coordinates in order, latitude and longitude swapped back and
    rounded, the rounded summary figures and no mock flag; when one of them
    is shorter it raises [IndexError], which is the only thing it raises. *)
Theorem call_ors_outcomes (post : Transport) (start end_ : RoutePoint)
  (sc : AlternativeScenario) (api_key : string) :
  let request := ors_request start end_ sc api_key in
  let answer := call_ors post start end_ sc api_key in
  (api_key = ""%string -> answer = Ok None) /\
  (post request = None -> answer = Ok None) /\
  (forall data, post request = Some data ->
     Ors.features data = None \/ Ors.features data = Some [] ->
     answer = Ok None) /\
  (forall data feature rest,
     api_key <> ""%string ->
     post request = Some data ->
     Ors.features data = Some (feature :: rest) ->
     let geometry := Ors.geometry_coordinates feature in
     (Forall (fun c => (2 <= len c)%Z) geometry ->
      exists rd,
        answer = Ok (Some rd) /\
        RouteData.coordinates rd = map normalised geometry /\
        RouteData.mock rd = None /\
        RouteData.distance_m rd
          = round (get_or (Ors.distance
                             (get_or (Ors.summary (Ors.properties feature))
                                     (Ors.mkSummary None None))) 0) /\
        RouteData.ascent_m rd
          = Some (round (get_or (Ors.ascent (Ors.properties feature)) 0))) /\
     (Exists (fun c => (len c < 2)%Z) geometry -> answer = Raise IndexError)) /\
  (forall e, answer = Raise e -> e = IndexError).
Proof.
  intros request answer. subst request answer. unfold call_ors.
  split; [intros ->; reflexivity|].
  split; [intros ->; now destruct (String.eqb api_key "")|].
  split.
  { intros data -> [-> | ->]; now destruct (String.eqb api_key ""). }
  split.
  { intros data feature rest Hkey Hpost Hfeat. cbv zeta.
    apply String.eqb_neq in Hkey. rewrite Hkey, Hpost, Hfeat.
    destruct (map_m_ors_coord (Ors.geometry_coordinates feature)) as [H1 H2].
    split.
    - intros Hall. rewrite (H1 Hall). cbn [bind].
      eexists. split; [reflexivity|]. repeat split.
    - intros Hex. now rewrite (H2 Hex). }
  intros e.
  destruct (String.eqb api_key ""); [discriminate|].
  destruct (post _) as [data|]; [|discriminate].
  destruct (Ors.features data) as [[|feature rest]|]; try discriminate.
  destruct (map_m_ors_coord (Ors.geometry_coordinates feature)) as [H1 H2].
  destruct (short_or_long (Ors.geometry_coordinates feature)) as [H|H].
  - rewrite (H1 H). discriminate.
  - rewrite (H2 H). now intros [= <-].
Qed.

(** Request and answer agree on the order of a coordinate: when the
    provider's first feature is the very list of coordinates that was
    posted, the answer lists the start point, the waypoints and the end point
    with their latitudes and longitudes (rounded to 6 decimals) in the right
    fields, at altitude 0. *)
Theorem ors_echo (post : Transport) (start end_ : RoutePoint)
  (sc : AlternativeScenario) (api_key : string)
  (data : Ors.Response) (feature : Ors.Feature) (rest : list Ors.Feature) :
  api_key <> ""%string ->
  post (ors_request start end_ sc api_key) = Some data ->
  Ors.features data = Some (feature :: rest) ->
  Ors.geometry_coordinates feature
    = Ors.coordinates (ors_request start end_ sc api_key) ->
  exists rd,
    call_ors post start end_ sc api_key = Ok (Some rd) /\
    RouteData.coordinates rd =
      ({| Coord.lat := round_to (lat start) 6;
          Coord.lng := round_to (lng start) 6; Coord.alt := 0 |} ::
       map (fun wp : R * R =>
              {| Coord.lat := round_to (fst wp) 6;
                 Coord.lng := round_to (snd wp) 6; Coord.alt := 0 |})
           (extra_waypoints sc) ++
       [ {| Coord.lat := round_to (lat end_) 6;
            Coord.lng := round_to (lng end_) 6; Coord.alt := 0 |} ])%list.
Proof.
  intros Hkey Hpost Hfeat Hgeo. unfold call_ors.
  apply String.eqb_neq in Hkey. rewrite Hkey, Hpost, Hfeat, Hgeo.
  destruct (map_m_ors_coord (Ors.coordinates (ors_request start end_ sc api_key)))
    as [H1 _].
  rewrite H1.
  - cbn [bind]. eexists. split; [reflexivity|].
    cbn [RouteData.coordinates ors_request Ors.coordinates app map].
    rewrite map_app, map_map. reflexivity.
  - cbn [ors_request Ors.coordinates app].
    constructor; [cbn; lia|].
    apply Forall_app. split; [|repeat constructor; cbn; lia].
    apply Forall_forall. intros c Hc.
    apply in_map_iff in Hc as (wp & <- & _). cbn. lia.
Qed.

(** ** The program *)

Lemma map_m_ext {A B} (f g : A -> result B) (l : list A) :
  (forall x, In x l -> f x = g x) -> map_m f l = map_m g l.
Proof.
  induction l as [|x l IH]; intros H; [reflexivity|].
  cbn [map_m]. rewrite (H x (or_introl eq_refl)), IH; [reflexivity|].
  intros y Hy. apply H. now right.
Qed.

Lemma main_unfold (post : Transport) (api_key : string) (mock_only : bool)
  (coords : list RawCoord.t) (segments : Segments)
  (provider : option Provider) :
  (forall cum_km sc,
      main_step post api_key (mock_only || String.eqb api_key "")
                (load_route coords) cum_km sc
      = process_scenario provider (load_route coords) cum_km sc) ->
  main post api_key mock_only coords segments
  = output_of (if negb (mock_only || String.eqb api_key "")
               then "OpenRouteService"%string else "geometric mock"%string)
              (generate_alternatives provider (load_route coords) segments).
Proof.
  intros Hstep. unfold main, output_of, generate_alternatives.
  destruct (precompute_cum_km (load_route coords)) as [cum_km|]; [|reflexivity].
  cbn [bind].
  destruct (get cum_km (-1)); [|reflexivity]. cbn [bind].
  destruct (pick_scenarios (load_route coords) segments) as [scs|];
    [|reflexivity].
  cbn [bind].
  destruct (for_each scs tt _); [|reflexivity]. cbn [bind].
  rewrite (map_m_ext _ (process_scenario provider (load_route coords) cum_km));
    [reflexivity|].
  intros sc _. apply Hstep.
Qed.

(** Without an API key, or with [--mock-only], [main] never consults the
    transport: whatever the transport is, the document is the mock batch of
    the loaded route, marked as generated from the geometric mock; a failure
    of the batch is the failure of [main]. *)
Theorem main_mock_only (post : Transport) (api_key : string) (mock_only : bool)
  (coords : list RawCoord.t) (segments : Segments) :
  mock_only = true \/ api_key = ""%string ->
  main post api_key mock_only coords segments
  = output_of "geometric mock"
      (generate_alternatives None (load_route coords) segments).
Proof.
  intros H.
  assert (Hm : mock_only || String.eqb api_key "" = true).
  { destruct H as [-> | ->]; [reflexivity | apply orb_true_r]. }
  rewrite (main_unfold post api_key mock_only coords segments None).
  - now rewrite Hm.
  - intros cum_km sc. rewrite Hm. reflexivity.
Qed.

(** With an API key, without [--mock-only] and over a transport whose
    answers are well formed, [main] is the batch that asks the provider for
    every scenario and falls back to the mock where it has no answer; the
    document is marked as generated from OpenRouteService, also when every
    alternative in it is a mock. *)
Theorem main_with_provider (post : Transport) (api_key : string)
  (coords : list RawCoord.t) (segments : Segments) :
  api_key <> ""%string ->
  well_formed post ->
  main post api_key false coords segments
  = output_of "OpenRouteService"
      (generate_alternatives (Some (ors_provider post api_key))
                             (load_route coords) segments).
Proof.
  intros Hkey Hwf.
  assert (Hm : false || String.eqb api_key "" = false).
  { now apply String.eqb_neq in Hkey as ->. }
  rewrite (main_unfold post api_key false coords segments
             (Some (ors_provider post api_key))).
  - now rewrite Hm.
  - intros cum_km sc. rewrite Hm. unfold main_step, process_scenario.
    destruct (get (load_route coords) (diverge_index sc)) as [p|];
      [|reflexivity].
    destruct (get (load_route coords) (rejoin_index sc)) as [q|];
      [|reflexivity].
    cbn [bind]. unfold ors_provider.
    destruct (call_ors post p q sc api_key) as [answer|e] eqn:Hcall;
      [reflexivity|].
    exfalso. revert Hcall. unfold call_ors.
    apply String.eqb_neq in Hkey. rewrite Hkey.
    destruct (post _) as [data|] eqn:Hpost; [|discriminate].
    destruct (Ors.features data) as [[|feature rest]|] eqn:Hfeat;
      try discriminate.
    destruct (map_m_ors_coord (Ors.geometry_coordinates feature)) as [H1 _].
    rewrite (H1 (Hwf _ _ _ _ Hpost Hfeat)). discriminate.
Qed.

(** When the transport fails on every request, a run with an API key
    produces the very alternatives of the mock-only run; only the
    provenance of the document differs. *)
Theorem main_transport_down (post : Transport) (api_key : string)
  (coords : list RawCoord.t) (segments : Segments) :
  api_key <> ""%string ->
  (forall request, post request = None) ->
  main post api_key false coords segments
  = output_of "OpenRouteService"
      (generate_alternatives None (load_route coords) segments).
Proof.
  intros Hkey Hdown.
  assert (Hm : false || String.eqb api_key "" = false).
  { now apply String.eqb_neq in Hkey as ->. }
  rewrite (main_unfold post api_key false coords segments None).
  - now rewrite Hm.
  - intros cum_km sc. rewrite Hm. unfold main_step, process_scenario.
    destruct (get (load_route coords) (diverge_index sc)) as [p|];
      [|reflexivity].
    destruct (get (load_route coords) (rejoin_index sc)) as [q|];
      [|reflexivity].
    cbn [bind]. unfold call_ors.
    apply String.eqb_neq in Hkey. rewrite Hkey, Hdown. reflexivity.
Qed.

(** ** The further theorems at sample inputs *)

Lemma ascent_route_climbs :
  find_climb_segments ascent_route 100 50 = Ok [(0%Z, 59%Z, 150)].
Proof.
  assert (Hlen : length ascent_route = 60%nat) by reflexivity.
  unfold find_climb_segments, len. rewrite Hlen.
  change (S (Z.to_nat (Z.of_nat 60 - 50))) with (S (S 9)).
  generalize 9%nat; intros fuel.
  cbn [climb_scan]. unfold len. rewrite Hlen.
  change (0 <? Z.of_nat 60 - 50)%Z with true. cbv iota.
  destruct (climb_run_ascent ascent_route) with (m := 59%nat) (fuel := 61%nat)
    (j := 0%nat) (gain := 0) as (g & E & Hg); try lia.
  { intros k Hk.
    assert (Hmono : nondecreasing (map alt ascent_route))
      by (simpl; repeat split; lra).
    pose proof (nondecreasing_nth _ Hmono k) as H.
    rewrite length_map in H. specialize (H Hk).
    rewrite <- (map_nth alt ascent_route),
      <- (map_nth alt ascent_route (mkRoutePoint 0 0 0 0 0) (S k)).
    exact H. }
  rewrite Hlen in E. change (Z.of_nat 0) with 0%Z in E.
  rewrite E. cbn [bind].
  rewrite Hlen in Hg. change (60 - 1)%nat with 59%nat in *.
  assert (Hg150 : g = 150) by (simpl in Hg; lra).
  assert (H100 : Rleb 100 150 = true) by (apply Rleb_true; lra).
  rewrite Hg150, H100. reflexivity.
Qed.

(** The bracket 10..20 of the level route against its distance table. *)
Lemma cum_km_segment_length_witness :
  exists cum,
    precompute_cum_km level_route = Ok cum /\
    path_km (slice level_route 10 21) = nth 20 cum 0 - nth 10 cum 0.
Proof.
  destruct (precompute_cum_km_exact level_route) as (cum & E & _).
  exists cum. split; [exact E|].
  apply (cum_km_segment_length level_route cum 10 20 E).
  change (length level_route) with 60%nat. lia.
Defined.

(** The climbs of the steady ascent with the thresholds of the selector:
    at most one fits into 60 points. *)
Lemma climbs_ordered_disjoint_witness :
  (0 < 50)%Z /\
  exists climbs,
    find_climb_segments ascent_route 100 50 = Ok climbs /\
    climbs_from 0 climbs /\
    (len climbs <= 1)%Z.
Proof.
  split; [lia|].
  destruct (climbs_ordered_disjoint ascent_route 100 50)
    as (climbs & E & H1 & _ & H3 & _); [lia|].
  exists climbs. split; [exact E|]. split; [exact H1|].
  change (len ascent_route) with 60%Z in H3. lia.
Defined.

(** On the steady ascent the flatter scenario comes first and brackets the
    whole route, the one climb widened by 200 indices and cut to the
    route. *)
Lemma flatter_brackets_biggest_witness :
  ascent_route <> [] /\
  find_climb_segments ascent_route 100 50 = Ok [(0%Z, 59%Z, 150)] /\
  exists scenarios s,
    pick_scenarios ascent_route gravel_segments = Ok scenarios /\
    hd_error scenarios = Some s /\
    query_value s = "flatter"%string /\
    diverge_index s = 0%Z /\ rejoin_index s = 59%Z.
Proof.
  split; [discriminate|]. split; [exact ascent_route_climbs|].
  destruct (flatter_brackets_biggest ascent_route gravel_segments
              [(0%Z, 59%Z, 150)])
    as (before & i & j & g & after & scenarios & s & Hc & _ & _ & E & Hhd
        & Hq & Hd & Hr & _);
    [discriminate | exact ascent_route_climbs | discriminate |].
  exists scenarios, s. do 3 (split; [assumption|]).
  assert (Hij : i = 0%Z /\ j = 59%Z).
  { destruct before as [|c [|c' before]].
    - cbn in Hc. injection Hc as <- <- _ _. auto.
    - cbn in Hc. injection Hc as _ Hc. discriminate.
    - cbn in Hc. injection Hc as _ Hc. discriminate. }
  destruct Hij as [-> ->]. rewrite Hd, Hr.
  change (len ascent_route) with 60%Z. split; reflexivity.
Defined.

(** On the steady ascent the sheltered scenario brackets the whole route
    around its highest point. *)
Lemma sheltered_brackets_highest_witness :
  ascent_route <> [] /\
  exists scenarios s,
    pick_scenarios ascent_route gravel_segments = Ok scenarios /\
    In s scenarios /\
    query_value s = "sheltered"%string /\
    diverge_index s = 0%Z /\ rejoin_index s = 59%Z.
Proof.
  split; [discriminate|].
  destruct (sheltered_brackets_highest ascent_route gravel_segments)
    as (h & scenarios & s & Hh & _ & _ & E & _ & Hin & Hq & Hd & Hr & _);
    [discriminate|].
  exists scenarios, s. do 3 (split; [assumption|]).
  change (len ascent_route) with 60%Z in *. lia.
Defined.


(** The routing options of the scenarios of the level route. *)
Lemma scenarios_routing_by_name_witness :
  exists scenarios,
    pick_scenarios level_route gravel_segments = Ok scenarios /\
    forall s, In s scenarios ->
      avoid_features s = [] /\ extra_waypoints s = [] /\
      preference s = preference_of (query_value s) /\
      ors_profile s = profile_of (query_value s) /\
      label s = label_of (query_value s).
Proof.
  destruct (pick_scenarios_names level_route gravel_segments)
    as (climbs & s1 & s2 & s3 & s4 & s5 & _ & _ & _ & _ & _ & _ & E & _);
    [discriminate|].
  exists (s1 ++ s2 ++ s3 ++ s4 ++ s5)%list. split; [exact E|].
  exact (scenarios_routing_by_name level_route gravel_segments _ E).
Defined.

(** The level route is too short for a window of 300 points: the scenic
    scenario uses window start 0 and diverges at index 50. *)
Lemma scenic_flattest_window_witness :
  level_route <> [] /\
  exists scenarios s,
    pick_scenarios level_route gravel_segments = Ok scenarios /\
    In s scenarios /\
    query_value s = "scenic"%string /\
    diverge_index s = 50%Z /\ rejoin_index s = 59%Z.
Proof.
  split; [discriminate|].
  destruct (scenic_flattest_window level_route gravel_segments)
    as (fs & scenarios & s & E & Hin & Hq & Hd & Hr & Hshort & _);
    [discriminate|].
  exists scenarios, s. do 3 (split; [assumption|]).
  change (len level_route) with 60%Z in *.
  assert (fs = 0%Z) as -> by (apply Hshort; cbv; discriminate).
  rewrite Hd, Hr. split; reflexivity.
Defined.

(** The shorter mock over [slope_pair]: an arc whose distance delta is not
    positive. *)
Lemma mock_delta_signs_witness :
  exists rd e,
    generate_mock_alternative slope_pair (sample_scenario "shorter" 0 1) = Ok rd /\
    build_alternative_entry (sample_scenario "shorter" 0 1) rd slope_pair
                            [0; 111] = Ok e /\
    (Comparison.distance_delta_m (Entry.comparison e) <= 0)%Z /\
    (Comparison.ascent_delta_m (Entry.comparison e) <= 0)%Z.
Proof.
  destruct (generate_mock_arc slope_pair (sample_scenario "shorter" 0 1)
              (point_at slope_pair 0) (point_at slope_pair 1))
    as (pl & pg & off & E); [reflexivity | reflexivity | left; simpl; lra |].
  eexists.
  destruct (build_alternative_entry_ok (sample_scenario "shorter" 0 1)
              {| RouteData.coordinates :=
                   map (arc_point (sample_scenario "shorter" 0 1)
                          (point_at slope_pair 0) (point_at slope_pair 1)
                          pl pg off 30) (range 0 31 1);
                 RouteData.distance_m :=
                   round (path_km (original_segment_of slope_pair
                                     (sample_scenario "shorter" 0 1))
                          * dict_get multiplier "shorter" 1 * 1000);
                 RouteData.duration_s :=
                   Some (round (path_km (original_segment_of slope_pair
                                           (sample_scenario "shorter" 0 1))
                                * dict_get multiplier "shorter" 1 * 1000
                                / (55 / 10)));
                 RouteData.ascent_m := Some 0%Z;
                 RouteData.descent_m := Some 0%Z;
                 RouteData.mock := Some true;
                 RouteData.surface_info := None;
                 RouteData.waytype_info := None |}
              slope_pair [0; 111]) as (e & He);
    [cbn; lia | reflexivity | reflexivity |].
  exists e. split; [exact E|]. split; [exact He|].
  destruct (mock_delta_signs _ _ _ _ _ E He) as (_ & _ & Ha & _ & Harc).
  split; [|exact Ha].
  apply Harc; [|reflexivity].
  cbn [RouteData.coordinates]. rewrite range_0_31. discriminate.
Defined.

(** The paved arc over [slope_pair] keeps its altitudes between those of
    the two points. *)
Lemma mock_arc_stays_close_witness :
  exists rd,
    generate_mock_alternative slope_pair (sample_scenario "paved" 0 1) = Ok rd /\
    RouteData.coordinates rd <> [] /\
    forall c, In c (RouteData.coordinates rd) ->
      Rmin (round_to 0 1) (round_to 100 1) <= Coord.alt c
        <= Rmax (round_to 0 1) (round_to 100 1).
Proof.
  destruct (generate_mock_arc slope_pair (sample_scenario "paved" 0 1)
              (point_at slope_pair 0) (point_at slope_pair 1))
    as (pl & pg & off & E); [reflexivity | reflexivity | left; simpl; lra |].
  eexists. split; [exact E|]. split.
  - cbn [RouteData.coordinates]. rewrite range_0_31. discriminate.
  - intros c Hc.
    exact (proj1 (mock_arc_stays_close slope_pair (sample_scenario "paved" 0 1)
                    (point_at slope_pair 0) (point_at slope_pair 1) _
                    eq_refl eq_refl E c Hc)).
Defined.

(** The builder returns on the bracket 0..1 of [slope_pair] and raises
    [IndexError] on the inverted bracket 1..0. *)
Lemma build_entry_returns_iff_witness :
  (exists e,
      build_alternative_entry (sample_scenario "paved" 0 1) slope_route_data
                              slope_pair [0; 111] = Ok e) /\
  build_alternative_entry (sample_scenario "paved" 1 0) slope_route_data
                          slope_pair [0; 111] = Raise IndexError.
Proof.
  split.
  - apply (proj1 (build_entry_returns_iff (sample_scenario "paved" 0 1)
                    slope_route_data slope_pair [0; 111]
                    ltac:(simpl; lia) ltac:(simpl; lia))).
    cbn. lia.
  - apply (proj2 (build_entry_returns_iff (sample_scenario "paved" 1 0)
                    slope_route_data slope_pair [0; 111]
                    ltac:(simpl; lia) ltac:(simpl; lia))).
    cbn. lia.
Defined.

(** The entry built from a provider answer over [slope_pair] and its
    distance table: the names of the scenario, and no mock flag. *)
Lemma entry_echoes_inputs_witness :
  exists cum_km e,
    precompute_cum_km slope_pair = Ok cum_km /\
    build_alternative_entry (sample_scenario "paved" 0 1) slope_route_data
                            slope_pair cum_km = Ok e /\
    Entry.query_value e = "paved"%string /\
    Endpoint.index (Entry.rejoin e) = 1%Z /\
    Alternative.is_mock (Entry.alternative e) = false.
Proof.
  destruct (precompute_cum_km_exact slope_pair) as (cum_km & E & Hlen & _).
  destruct (build_alternative_entry_ok (sample_scenario "paved" 0 1)
              slope_route_data slope_pair cum_km) as (e & He);
    [cbn; lia | reflexivity | unfold len; now rewrite Hlen |].
  exists cum_km, e. split; [exact E|]. split; [exact He|].
  destruct (entry_echoes_inputs _ _ _ _ _ E He ltac:(simpl; lia) ltac:(simpl; lia))
    as (Hq & _ & _ & _ & Hr & _ & Hm & _).
  rewrite Hq, Hr, Hm. repeat split.
Defined.

(** The mock-only batch over the level route of 60 points with two
    sectors inside it. *)
Lemma batch_follows_scenarios_witness :
  (52 <= len level_route)%Z /\
  exists scenarios entries,
    pick_scenarios level_route gravel_segments = Ok scenarios /\
    generate_alternatives None level_route gravel_segments = Ok entries /\
    map Entry.query_value entries = map query_value scenarios /\
    Forall (fun e => Alternative.is_mock (Entry.alternative e) = true) entries.
Proof.
  assert (H1 : (52 <= len level_route)%Z) by (vm_compute; discriminate).
  assert (H2 : forall g, In g (find_gravel_sectors gravel_segments) ->
                         sector_in_route (len level_route) g).
  { intros g Hg. change (len level_route) with 60%Z. simpl in Hg.
    destruct Hg as [<- | [<- | []]]; unfold sector_in_route; simpl; lia. }
  split; [exact H1|].
  destruct (batch_follows_scenarios level_route gravel_segments None H1 H2)
    as (scenarios & entries & E1 & E2 & E3 & _ & E4).
  exists scenarios, entries. auto.
Defined.

(** The echoing transport asked for the way between the two points of
    [slope_pair]: the answer lists them with latitude and longitude in the
    right fields. *)
Lemma ors_echo_witness :
  exists rd,
    call_ors echo_transport (point_at slope_pair 0) (point_at slope_pair 1)
             (sample_scenario "paved" 0 1) "key" = Ok (Some rd) /\
    map Coord.lat (RouteData.coordinates rd) = [round_to 0 6; round_to 1 6] /\
    map Coord.lng (RouteData.coordinates rd) = [round_to 0 6; round_to 0 6].
Proof.
  destruct (ors_echo echo_transport (point_at slope_pair 0)
              (point_at slope_pair 1) (sample_scenario "paved" 0 1) "key"
              _ _ [] ltac:(discriminate) eq_refl eq_refl eq_refl)
    as (rd & E & Hc).
  exists rd. split; [exact E|]. rewrite Hc. split; reflexivity.
Defined.

(** A run without API key over the level route: the fixed transport is
    never consulted. *)
Lemma main_mock_only_witness :
  main fixed_transport "" false level_coords gravel_segments
  = output_of "geometric mock"
      (generate_alternatives None (load_route level_coords) gravel_segments).
Proof.
  apply (main_mock_only fixed_transport "" false level_coords gravel_segments).
  right. reflexivity.
Defined.

(** A run with an API key over the fixed transport, whose answer is well
    formed. *)
Lemma main_with_provider_witness :
  well_formed fixed_transport /\
  main fixed_transport "key" false level_coords gravel_segments
  = output_of "OpenRouteService"
      (generate_alternatives (Some (ors_provider fixed_transport "key"))
                             (load_route level_coords) gravel_segments).
Proof.
  assert (Hwf : well_formed fixed_transport).
  { intros request data feature rest Hpost Hfeat.
    unfold fixed_transport in Hpost. injection Hpost as <-.
    cbn [Ors.features] in Hfeat. injection Hfeat as <- _.
    cbn [Ors.geometry_coordinates].
    apply Forall_cons; [cbn; lia|]. apply Forall_cons; [cbn; lia|].
    apply Forall_nil. }
  split; [exact Hwf|].
  apply (main_with_provider fixed_transport "key" level_coords gravel_segments);
    [discriminate | exact Hwf].
Defined.

(** A run with an API key over the failing transport. *)
Lemma main_transport_down_witness :
  main no_transport "key" false level_coords gravel_segments
  = output_of "OpenRouteService"
      (generate_alternatives None (load_route level_coords) gravel_segments).
Proof.
  apply (main_transport_down no_transport "key" level_coords gravel_segments);
    [discriminate | reflexivity].
Defined.
